(** * Boot-space simulator: the packing engine of [utils/packingAlgorithm.ts]

    A shallow embedding of the placement engine ([packItems] and its helpers)
    and the properties of its results, followed by the item validators of
    [utils/dataValidation.ts] and the selection handling of [App.tsx] and
    [hooks/usePackingAlgorithm.ts] that feed it.

    Numbers.  The engine computes on JavaScript numbers.  Every quantity
    that is an integer number of millimetres (dimensions, positions,
    volumes, the loop counters) is a [Z]: on integers below 2^53 the
    arithmetic of the source is exact.  The few fractional quantities (the
    efficiency factor, the compression factor, the utilization, the 0.6 of
    the flat test) are exact rationals [Q], with [Math.round] rounding
    halves upwards as in JavaScript.  The rounding of binary64 products is
    not modelled: where an exact product lies half-way between two
    integers ([165 * 0.7]) the source may round it down, and a percentage
    computed back from a fraction ([0.07 * 100]) may be off in the last
    binary digit.  What is stated of compressed sizes is therefore stated
    of every nearest integer, whichever way a half goes ([nearestScaled]),
    and of the percentage applied up to rounding.

    Axes.  [x] runs along the length of the boot, [y] along its width and
    [z] along its height; the opening is on the side [x = 0], as the
    visualization draws it, so that a greater [x] is deeper in the boot.

    Optional fields ([openingWidth?], [openingHeight?]) are [option Z];
    the source tests them by truthiness, so an absent field and a field
    holding [0] behave alike ([truthy]). *)

From Stdlib Require Import ZArith QArith Qround Qminmax Bool List Lia.
From Stdlib Require Import String Ascii Permutation Sorted DecimalString.
From Stdlib Require Decimal DecimalPos DecimalZ.
Import ListNotations.
Open Scope Z_scope.

(** ** Data model: [types/enums.ts], [types/item.types.ts],
       [types/vehicle.types.ts] *)

Inductive IrregularitySeverity : Type := MINOR | MODERATE | SIGNIFICANT.

Inductive ItemRigidity : Type :=
  VERY_FLEXIBLE | FLEXIBLE | SEMI_RIGID | RIGID | COMPLETELY_RIGID.

Inductive ItemCategory : Type :=
  luggage | baby_gear | sports | shopping | equipment | custom.

Inductive OrientationConstraints : Type := any | upright_only | flat_only.

Inductive IrregularityType : Type :=
  wheel_wells | spare_tire_bump | sloped_floor | narrow_opening | side_storage.

Module Dim.
Record ItemDimensions : Type := mk { length : Z; width : Z; height : Z }.
End Dim.
Abbreviation ItemDimensions := Dim.ItemDimensions.

Record Item : Type := mkItem {
  name : string;
  dimensions : ItemDimensions;
  weight : Q;
  rigidity : ItemRigidity;
  category : ItemCategory;
  cabinSuitable : bool;
  compressibility : Z;
  stackable : bool;
  orientationConstraints : OrientationConstraints;
  customItem : bool
}.

Module Boot.
Record BootMeasurements : Type := mk {
  length : Z;
  width : Z;
  height : Z;
  openingWidth : option Z;
  openingHeight : option Z
}.
End Boot.
Abbreviation BootMeasurements := Boot.BootMeasurements.

Record BootIrregularity : Type := mkIrregularity {
  irregularityType : IrregularityType;
  severity : IrregularitySeverity
}.

(** The fields of [Vehicle] that the engine reads. *)
Record Vehicle : Type := mkVehicle {
  makeModel : string;
  bootMeasurements : BootMeasurements;
  bootIrregularities : list BootIrregularity
}.

(** ** Records of [packingAlgorithm.ts] *)

Module Pos.
Record Position : Type := mk { x : Z; y : Z; z : Z }.
End Pos.
Abbreviation Position := Pos.Position.

Record PackedItem : Type := mkPacked {
  item : Item;
  position : Position;
  orientation : ItemDimensions;
  compressed : bool;
  compressionApplied : Q
}.

Module Space.
Record BootSpace : Type := mk {
  length : Z;
  width : Z;
  height : Z;
  volume : Z;
  efficiencyFactor : Q;
  openingWidth : option Z;
  openingHeight : option Z;
  hasOpeningConstraints : bool
}.
End Space.
Abbreviation BootSpace := Space.BootSpace.

Record ItemWithMetrics : Type := mkMetrics {
  base : Item;
  itemVolume : Z;
  rigidityOrder : Z;
  orientations : list ItemDimensions
}.

(** The diagnostics pushed on [warnings], one constructor per message of
    the source; [warningText] gives the text. *)
Inductive Warning : Type :=
| SignificantIrregularities
| RejectedByOpening (count : Z)
| RequiredCompression (count : Z)
| OpeningLimitsCapacity
| ConsiderPackingOrder
| TightClearance.

(** [volumeUtilization] is [None] when the source yields no finite number
    (a zero effective volume with nothing, or a negative volume, packed). *)
Record PackingResult : Type := mkResult {
  packedItems : list PackedItem;
  unpackedItems : list Item;
  volumeUtilization : option Q;
  bootSpaceUsed : Z;
  bootSpaceAvailable : Q;
  cabinOverflowSuggested : list Item;
  warnings : list Warning
}.

(** ** JavaScript helpers *)

(** Truthiness of an optional number. *)
Definition truthy (o : option Z) : bool :=
  match o with
  | Some v => negb (v =? 0)
  | None => false
  end.

(** [a || b] on an optional number and a number. *)
Definition orElse (o : option Z) (d : Z) : Z :=
  match o with
  | Some v => if v =? 0 then d else v
  | None => d
  end.

(** [Math.round]: the nearest integer, halves upwards. *)
Definition Math_round (q : Q) : Z := Qfloor (q + (1 # 2)).

Definition decimal (n : Z) : string := NilZero.string_of_int (Z.to_int n).

Definition warningText (w : Warning) : string :=
  match w with
  | SignificantIrregularities =>
      "Boot has significant irregularities that may affect actual packing capacity"
  | RejectedByOpening n =>
      decimal n ++
      " item(s) could not fit through the boot opening despite fitting in the boot space"
  | RequiredCompression n =>
      decimal n ++ " item(s) required compression to fit through the boot opening"
  | OpeningLimitsCapacity =>
      "Boot opening dimensions significantly limit packing capacity compared to internal space"
  | ConsiderPackingOrder =>
      "Consider packing order - items placed deeper in the boot may be harder to access"
  | TightClearance =>
      "Some items require tight clearance margins that may be impractical in real-world use"
  end%string.

(** ** Effective boot space *)

Definition capFor (s : IrregularitySeverity) : Q :=
  match s with
  | MINOR => 80 # 100
  | MODERATE => 75 # 100
  | SIGNIFICANT => 70 # 100
  end.

Definition calculateEffectiveBootSpace (vehicle : Vehicle) : BootSpace :=
  let bm := bootMeasurements vehicle in
  let baseVolume := Boot.length bm * Boot.width bm * Boot.height bm in
  let efficiencyFactor :=
    fold_left (fun e irregularity => Qmin e (capFor (severity irregularity)))
              (bootIrregularities vehicle) (85 # 100) in
  Space.mk (Boot.length bm) (Boot.width bm) (Boot.height bm) baseVolume
           efficiencyFactor (Boot.openingWidth bm) (Boot.openingHeight bm)
           (truthy (Boot.openingWidth bm) || truthy (Boot.openingHeight bm)).

Definition calculateItemVolume (d : ItemDimensions) : Z :=
  Dim.length d * Dim.width d * Dim.height d.

Definition getRigidityOrder (r : ItemRigidity) : Z :=
  match r with
  | COMPLETELY_RIGID => 0
  | RIGID => 1
  | SEMI_RIGID => 2
  | FLEXIBLE => 3
  | VERY_FLEXIBLE => 4
  end.

(** ** Orientations *)

(** The six axis permutations, in the order of the source. *)
Definition allOrientations (d : ItemDimensions) : list ItemDimensions :=
  let l := Dim.length d in
  let w := Dim.width d in
  let h := Dim.height d in
  [ Dim.mk l w h; Dim.mk w l h; Dim.mk h w l;
    Dim.mk l h w; Dim.mk w h l; Dim.mk h l w ].

(** [o.height <= Math.max(length, width) * 0.6] *)
Definition isFlat (d o : ItemDimensions) : bool :=
  Qle_bool (inject_Z (Dim.height o))
           (inject_Z (Z.max (Dim.length d) (Dim.width d)) * (6 # 10)).

Definition generateOrientations (d : ItemDimensions)
    (constraints : OrientationConstraints) : list ItemDimensions :=
  match constraints with
  | upright_only => [ Dim.mk (Dim.length d) (Dim.width d) (Dim.height d) ]
  | flat_only => filter (isFlat d) (allOrientations d)
  | any => allOrientations d
  end.

(** ** The opening *)

(** [opening ? opening - clearanceMargin : fallback] *)
Definition effectiveOpening (opening : option Z) (clearanceMargin fallback : Z) : Z :=
  match opening with
  | Some v => if v =? 0 then fallback else v - clearanceMargin
  | None => fallback
  end.

Definition canPassThroughOpening (o : ItemDimensions) (bootSpace : BootSpace)
    (clearanceMargin : Z) : bool :=
  if negb (Space.hasOpeningConstraints bootSpace) then true
  else
    let effectiveOpeningWidth :=
      effectiveOpening (Space.openingWidth bootSpace) clearanceMargin
                       (Space.width bootSpace) in
    let effectiveOpeningHeight :=
      effectiveOpening (Space.openingHeight bootSpace) clearanceMargin
                       (Space.height bootSpace) in
    (Dim.width o <=? effectiveOpeningWidth) &&
    (Dim.height o <=? effectiveOpeningHeight).

Definition filterOrientationsForOpening (os : list ItemDimensions)
    (bootSpace : BootSpace) : list ItemDimensions :=
  if negb (Space.hasOpeningConstraints bootSpace) then os
  else filter (fun o => canPassThroughOpening o bootSpace 20) os.

(** ** Loops with an early exit

    [forUp] is [for (i = start; i <= bound; i += step)] and [forDown] is
    [for (i = start; i >= 0; i -= step)], each leaving at the first
    iteration whose body yields a result; [firstSome] is the same for
    [for (const a of l)].  The fuel only makes the recursion structural:
    [tripsUp] and [tripsDown] are the numbers of iterations the guard
    allows. *)

Fixpoint forUp {A : Type} (fuel : nat) (i bound step : Z)
    (body : Z -> option A) : option A :=
  match fuel with
  | O => None
  | S fuel' =>
      if i <=? bound then
        match body i with
        | Some r => Some r
        | None => forUp fuel' (i + step) bound step body
        end
      else None
  end.

Fixpoint forDown {A : Type} (fuel : nat) (i step : Z)
    (body : Z -> option A) : option A :=
  match fuel with
  | O => None
  | S fuel' =>
      if 0 <=? i then
        match body i with
        | Some r => Some r
        | None => forDown fuel' (i - step) step body
        end
      else None
  end.

Definition tripsUp (start bound step : Z) : nat :=
  Z.to_nat ((bound - start) / step + 1).

Definition tripsDown (start step : Z) : nat := Z.to_nat (start / step + 1).

Fixpoint firstSome {A B : Type} (f : A -> option B) (l : list A) : option B :=
  match l with
  | [] => None
  | a :: l' =>
      match f a with
      | Some r => Some r
      | None => firstSome f l'
      end
  end.

(** ** Compression *)

(** Each side times the factor, rounded.  The product is exact here; the
    source rounds the binary64 product, which differs where the exact
    product is half-way between two integers. *)
Definition compressDimensions (d : ItemDimensions) (compressionFactor : Q)
    : ItemDimensions :=
  Dim.mk (Math_round (inject_Z (Dim.length d) * compressionFactor))
         (Math_round (inject_Z (Dim.width d) * compressionFactor))
         (Math_round (inject_Z (Dim.height d) * compressionFactor)).

Definition applyCompression (it : Item) (compressionNeeded : Z)
    : ItemDimensions * Q :=
  let maxCompression := (inject_Z (compressibility it) / 100)%Q in
  let actualCompression :=
    Qmin (inject_Z compressionNeeded / 100)%Q maxCompression in
  if Qle_bool actualCompression 0 then (dimensions it, 0%Q)
  else
    let compressionFactor := (1 - actualCompression)%Q in
    (compressDimensions (dimensions it) compressionFactor,
     actualCompression * 100)%Q.

Definition applyCompressionForOpening (it : Item) (bootSpace : BootSpace)
    : option (ItemDimensions * Q) :=
  if negb (Space.hasOpeningConstraints bootSpace) || (compressibility it <=? 0)
  then None
  else
    let maxCompression := (inject_Z (compressibility it) / 100)%Q in
    let clearanceMargin := 20 in
    let effectiveOpeningWidth :=
      effectiveOpening (Space.openingWidth bootSpace) clearanceMargin
                       (Space.width bootSpace) in
    let effectiveOpeningHeight :=
      effectiveOpening (Space.openingHeight bootSpace) clearanceMargin
                       (Space.height bootSpace) in
    forUp (tripsUp 5 (compressibility it) 5) 5 (compressibility it) 5
      (fun compression =>
         let actualCompression :=
           Qmin (inject_Z compression / 100)%Q maxCompression in
         let compressionFactor := (1 - actualCompression)%Q in
         let compressedDimensions :=
           compressDimensions (dimensions it) compressionFactor in
         let compressedOrientations :=
           generateOrientations compressedDimensions (orientationConstraints it) in
         firstSome
           (fun o =>
              if (Dim.width o <=? effectiveOpeningWidth) &&
                 (Dim.height o <=? effectiveOpeningHeight)
              then Some (o, (actualCompression * 100)%Q) else None)
           compressedOrientations).

(** ** Position search *)

Definition fitsInSpace (o : ItemDimensions) (space : BootSpace)
    (p : Position) : bool :=
  (Pos.x p + Dim.length o <=? Space.length space) &&
  (Pos.y p + Dim.width o <=? Space.width space) &&
  (Pos.z p + Dim.height o <=? Space.height space).

(** The overlap test of [hasCollision]: strict on the three axes. *)
Definition overlap (o : ItemDimensions) (p : Position)
    (packed : PackedItem) : bool :=
  (Pos.x p <? Pos.x (position packed) + Dim.length (orientation packed)) &&
  (Pos.x (position packed) <? Pos.x p + Dim.length o) &&
  (Pos.y p <? Pos.y (position packed) + Dim.width (orientation packed)) &&
  (Pos.y (position packed) <? Pos.y p + Dim.width o) &&
  (Pos.z p <? Pos.z (position packed) + Dim.height (orientation packed)) &&
  (Pos.z (position packed) <? Pos.z p + Dim.height o).

Fixpoint hasCollision (o : ItemDimensions) (p : Position)
    (packed : list PackedItem) : bool :=
  match packed with
  | [] => false
  | q :: rest => if overlap o p q then true else hasCollision o p rest
  end.

Definition stepSize : Z := 50.

(** The test of the innermost loop body of [findBestPosition]. *)
Definition acceptable (o : ItemDimensions) (bootSpace : BootSpace)
    (packed : list PackedItem) (p : Position) : bool :=
  fitsInSpace o bootSpace p && negb (hasCollision o p packed).

Definition findBestPosition (o : ItemDimensions) (bootSpace : BootSpace)
    (packed : list PackedItem) : option Position :=
  let zBound := Space.height bootSpace - Dim.height o in
  let yBound := Space.width bootSpace - Dim.width o in
  let xStart := Space.length bootSpace - Dim.length o in
  forUp (tripsUp 0 zBound stepSize) 0 zBound stepSize (fun z =>
    forUp (tripsUp 0 yBound stepSize) 0 yBound stepSize (fun y =>
      forDown (tripsDown xStart stepSize) xStart stepSize (fun x =>
        let p := Pos.mk x y z in
        if acceptable o bootSpace packed p then Some p else None))).

(** ** Preprocessing *)

(** [Array.prototype.sort] with a comparator: a stable sort, here by
    insertion. *)
Fixpoint insertBy {A : Type} (cmp : A -> A -> Z) (a : A) (l : list A) : list A :=
  match l with
  | [] => [a]
  | b :: l' => if cmp a b <=? 0 then a :: l else b :: insertBy cmp a l'
  end.

Fixpoint sortBy {A : Type} (cmp : A -> A -> Z) (l : list A) : list A :=
  match l with
  | [] => []
  | a :: l' => insertBy cmp a (sortBy cmp l')
  end.

(** Volume descending, then rigidity order ascending. *)
Definition compareItems (a b : ItemWithMetrics) : Z :=
  if negb (itemVolume b =? itemVolume a) then itemVolume b - itemVolume a
  else rigidityOrder a - rigidityOrder b.

Definition withMetrics (it : Item) : ItemWithMetrics :=
  mkMetrics it
            (calculateItemVolume (dimensions it))
            (getRigidityOrder (rigidity it))
            (generateOrientations (dimensions it) (orientationConstraints it)).

Definition preprocessItems (items : list Item) : list ItemWithMetrics :=
  sortBy compareItems (map withMetrics items).

(** ** The orchestrator *)

(** The mutable locals of [packItems]. *)
Module St.
Record State : Type := mk {
  packedItems : list PackedItem;
  unpackedItems : list Item;
  totalVolumeUsed : Z;
  itemsRejectedByOpening : Z;
  itemsRequiringCompression : Z
}.
End St.
Abbreviation State := St.State.

Definition initialState : State := St.mk [] [] 0 0 0.

(** [packedItems.push(p); totalVolumeUsed += volume of its orientation],
    with [itemsRequiringCompression++] on the compressed paths. *)
Definition pushPacked (st : State) (p : PackedItem) : State :=
  St.mk (St.packedItems st ++ [p])
        (St.unpackedItems st)
        (St.totalVolumeUsed st + calculateItemVolume (orientation p))
        (St.itemsRejectedByOpening st)
        (if compressed p then St.itemsRequiringCompression st + 1
         else St.itemsRequiringCompression st).

(** [unpackedItems.push(item)], with [itemsRejectedByOpening++] when the
    opening rejected the item. *)
Definition pushUnpacked (st : State) (it : Item) (byOpening : bool) : State :=
  St.mk (St.packedItems st)
        (St.unpackedItems st ++ [it])
        (St.totalVolumeUsed st)
        (if byOpening then St.itemsRejectedByOpening st + 1
         else St.itemsRejectedByOpening st)
        (St.itemsRequiringCompression st).

(** [for (const orientation of os)]: the first orientation for which
    [findBestPosition] finds a position. *)
Definition tryOrientations (it : Item) (os : list ItemDimensions)
    (bootSpace : BootSpace) (packed : list PackedItem)
    (isCompressed : bool) (applied : Q) : option PackedItem :=
  firstSome
    (fun o =>
       match findBestPosition o bootSpace packed with
       | Some p => Some (mkPacked it p o isCompressed applied)
       | None => None
       end)
    os.

(** The first branch of the loop body: no orientation passes the opening. *)
Definition tryOpeningCompression (it : Item) (bootSpace : BootSpace)
    (packed : list PackedItem) : option PackedItem :=
  if 0 <? compressibility it then
    match applyCompressionForOpening it bootSpace with
    | Some (dims, applied) =>
        match findBestPosition dims bootSpace packed with
        | Some p => Some (mkPacked it p dims true applied)
        | None => None
        end
    | None => None
    end
  else None.

(** The compression loop of the second branch. *)
Definition trySpaceCompression (it : Item) (bootSpace : BootSpace)
    (packed : list PackedItem) : option PackedItem :=
  forUp (tripsUp 5 (compressibility it) 5) 5 (compressibility it) 5
    (fun compression =>
       let '(compressedDims, applied) := applyCompression it compression in
       let compressedOrientations :=
         generateOrientations compressedDims (orientationConstraints it) in
       let validCompressedOrientations :=
         filterOrientationsForOpening compressedOrientations bootSpace in
       tryOrientations it validCompressedOrientations bootSpace packed true applied).

(** One iteration of [for (const itemWithMetrics of processedItems)]. *)
Definition packOne (bootSpace : BootSpace) (st : State)
    (itemWithMetrics : ItemWithMetrics) : State :=
  let it := base itemWithMetrics in
  let validOrientations :=
    filterOrientationsForOpening (orientations itemWithMetrics) bootSpace in
  if (List.length validOrientations =? 0)%nat &&
     Space.hasOpeningConstraints bootSpace
  then
    match tryOpeningCompression it bootSpace (St.packedItems st) with
    | Some p => pushPacked st p
    | None => pushUnpacked st it true
    end
  else
    match tryOrientations it validOrientations bootSpace (St.packedItems st)
                          false 0%Q with
    | Some p => pushPacked st p
    | None =>
        if 0 <? compressibility it then
          match trySpaceCompression it bootSpace (St.packedItems st) with
          | Some p => pushPacked st p
          | None => pushUnpacked st it false
          end
        else pushUnpacked st it false
    end.

Definition packAll (bootSpace : BootSpace) (processedItems : list ItemWithMetrics)
    : State :=
  fold_left (packOne bootSpace) processedItems initialState.

(** ** Warnings *)

Definition isSignificant (irr : BootIrregularity) : bool :=
  match severity irr with
  | SIGNIFICANT => true
  | _ => false
  end.

(** The first clearance loop over [unpackedItems]. *)
Definition closeToOpening (bootSpace : BootSpace) (it : Item) : bool :=
  truthy (Space.openingWidth bootSpace) &&
  truthy (Space.openingHeight bootSpace) &&
  (let minDimension :=
     Z.min (Dim.width (dimensions it)) (Dim.height (dimensions it)) in
   let maxOpening :=
     Z.max (orElse (Space.openingWidth bootSpace) 0)
           (orElse (Space.openingHeight bootSpace) 0) in
   (minDimension <=? maxOpening + 30) && (maxOpening <? minDimension)).

(** The second clearance loop over [unpackedItems]. *)
Definition fitsWithMinimalClearance (bootSpace : BootSpace) (it : Item) : bool :=
  truthy (Space.openingWidth bootSpace) &&
  truthy (Space.openingHeight bootSpace) &&
  (let minimalClearance := 5 in
   let effectiveOpeningWidthMinimal :=
     orElse (Space.openingWidth bootSpace) 0 - minimalClearance in
   let effectiveOpeningHeightMinimal :=
     orElse (Space.openingHeight bootSpace) 0 - minimalClearance in
   existsb
     (fun o => (Dim.width o <=? effectiveOpeningWidthMinimal) &&
               (Dim.height o <=? effectiveOpeningHeightMinimal))
     (generateOrientations (dimensions it) (orientationConstraints it))).

(** [openingArea < bootCrossSection * 0.6] *)
Definition openingLimitsCapacity (bootSpace : BootSpace) : bool :=
  let openingArea :=
    orElse (Space.openingWidth bootSpace) (Space.width bootSpace) *
    orElse (Space.openingHeight bootSpace) (Space.height bootSpace) in
  let bootCrossSection := Space.width bootSpace * Space.height bootSpace in
  negb (Qle_bool (inject_Z bootCrossSection * (6 # 10)) (inject_Z openingArea)).

(** [if (b) warnings.push(w)] *)
Definition when (b : bool) (w : Warning) : list Warning :=
  if b then [w] else [].

Definition collectWarnings (vehicle : Vehicle) (bootSpace : BootSpace)
    (st : State) : list Warning :=
  when (existsb isSignificant (bootIrregularities vehicle))
       SignificantIrregularities
  ++
  (if Space.hasOpeningConstraints bootSpace then
     when (0 <? St.itemsRejectedByOpening st)
          (RejectedByOpening (St.itemsRejectedByOpening st))
     ++ when (0 <? St.itemsRequiringCompression st)
             (RequiredCompression (St.itemsRequiringCompression st))
     ++ when (openingLimitsCapacity bootSpace) OpeningLimitsCapacity
     ++ when (1 <? List.length (St.packedItems st))%nat ConsiderPackingOrder
     ++ when (existsb (closeToOpening bootSpace) (St.unpackedItems st))
             TightClearance
     ++ when (existsb (fitsWithMinimalClearance bootSpace) (St.unpackedItems st))
             TightClearance
   else []).

(** ** [packItems] *)

(** [Math.min((totalVolumeUsed / effectiveBootVolume) * 100, 100)].  A
    division by zero gives [Infinity] (clamped to 100), [-Infinity] or
    [NaN] in the source; the last two are [None]. *)
Definition utilization (totalVolumeUsed : Z) (effectiveBootVolume : Q)
    : option Q :=
  if Qeq_bool effectiveBootVolume 0 then
    if 0 <? totalVolumeUsed then Some 100%Q else None
  else
    Some (Qmin ((inject_Z totalVolumeUsed / effectiveBootVolume) * 100) 100)%Q.

Definition packItems (vehicle : Vehicle) (items : list Item) : PackingResult :=
  let bootSpace := calculateEffectiveBootSpace vehicle in
  let processedItems := preprocessItems items in
  let effectiveBootVolume :=
    (inject_Z (Space.volume bootSpace) * Space.efficiencyFactor bootSpace)%Q in
  let st := packAll bootSpace processedItems in
  let cabinOverflowSuggested := filter cabinSuitable (St.unpackedItems st) in
  mkResult (St.packedItems st)
           (St.unpackedItems st)
           (utilization (St.totalVolumeUsed st) effectiveBootVolume)
           (St.totalVolumeUsed st)
           effectiveBootVolume
           cabinOverflowSuggested
           (collectWarnings vehicle bootSpace st).

(** [calculateTotalWeight] and [getPackingSummary]. *)
Definition calculateTotalWeight (packed : list PackedItem) : Q :=
  fold_left (fun total p => (total + weight (item p))%Q) packed 0%Q.

Record PackingSummary : Type := mkSummary {
  totalItems : nat;
  packedCount : nat;
  unpackedCount : nat;
  cabinSuitableUnpacked : nat;
  totalWeight : Q
}.

Definition getPackingSummary (result : PackingResult) : PackingSummary :=
  mkSummary (List.length (packedItems result) + List.length (unpackedItems result))
            (List.length (packedItems result))
            (List.length (unpackedItems result))
            (List.length (cabinOverflowSuggested result))
            (calculateTotalWeight (packedItems result)).

(** * Vocabulary of the properties *)

(** ** The values of the loop counters and the scan order *)

(** The values a loop counter takes. *)
Definition upRange (start bound step : Z) : list Z :=
  map (fun k => start + step * Z.of_nat k) (seq 0 (tripsUp start bound step)).

Definition downRange (start step : Z) : list Z :=
  map (fun k => start - step * Z.of_nat k) (seq 0 (tripsDown start step)).

(** The candidate positions in the order [findBestPosition] visits them:
    height outermost and upwards, then width upwards, then length from
    [length - orientation length] downwards, all in steps of 50. *)
Definition scanOrder (o : ItemDimensions) (bootSpace : BootSpace) : list Position :=
  flat_map (fun z =>
    flat_map (fun y =>
      map (fun x => Pos.mk x y z)
          (downRange (Space.length bootSpace - Dim.length o) stepSize))
      (upRange 0 (Space.width bootSpace - Dim.width o) stepSize))
    (upRange 0 (Space.height bootSpace - Dim.height o) stepSize).

(** The grid of candidate positions of an orientation in a boot. *)
Definition onGrid (o : ItemDimensions) (bootSpace : BootSpace) (p : Position)
    : Prop :=
  exists i j k : nat,
    Pos.x p = Space.length bootSpace - Dim.length o - stepSize * Z.of_nat i /\
    0 <= Pos.x p /\
    Pos.y p = stepSize * Z.of_nat j /\
    Pos.y p <= Space.width bootSpace - Dim.width o /\
    Pos.z p = stepSize * Z.of_nat k /\
    Pos.z p <= Space.height bootSpace - Dim.height o.

(** [scannedBefore p q]: the scan reaches [p] before [q] (lower height
    first, then lower width, then greater length coordinate). *)
Definition scannedBefore (p q : Position) : Prop :=
  Pos.z p < Pos.z q \/
  (Pos.z p = Pos.z q /\
   (Pos.y p < Pos.y q \/ (Pos.y p = Pos.y q /\ Pos.x q < Pos.x p))).

(** ** Boxes *)

(** The box of orientation [o] at [p] lies in [[0,l] x [0,w] x [0,h]]. *)
Definition withinBoot (l w h : Z) (o : ItemDimensions) (p : Position) : Prop :=
  0 <= Pos.x p /\ Pos.x p + Dim.length o <= l /\
  0 <= Pos.y p /\ Pos.y p + Dim.width o <= w /\
  0 <= Pos.z p /\ Pos.z p + Dim.height o <= h.

(** Two boxes overlap: their extents meet in an interval of positive
    length on each of the three axes.  Boxes that only touch do not. *)
Definition boxesOverlap (o1 : ItemDimensions) (p1 : Position)
    (o2 : ItemDimensions) (p2 : Position) : Prop :=
  (Pos.x p1 < Pos.x p2 + Dim.length o2 /\ Pos.x p2 < Pos.x p1 + Dim.length o1) /\
  (Pos.y p1 < Pos.y p2 + Dim.width o2 /\ Pos.y p2 < Pos.y p1 + Dim.width o1) /\
  (Pos.z p1 < Pos.z p2 + Dim.height o2 /\ Pos.z p2 < Pos.z p1 + Dim.height o1).

Definition packedOverlap (p q : PackedItem) : Prop :=
  boxesOverlap (orientation p) (position p) (orientation q) (position q).

(** What the position search looks for: inside the boot and clear of every
    packed box. *)
Definition feasible (o : ItemDimensions) (bootSpace : BootSpace)
    (packed : list PackedItem) (p : Position) : Prop :=
  withinBoot (Space.length bootSpace) (Space.width bootSpace)
             (Space.height bootSpace) o p /\
  forall q, In q packed -> ~ boxesOverlap o p (orientation q) (position q).

(** No two entries at different indices overlap. *)
Definition pairwiseDisjoint (packed : list PackedItem) : Prop :=
  forall (i j : nat) (p q : PackedItem),
    i <> j ->
    nth_error packed i = Some p -> nth_error packed j = Some q ->
    ~ packedOverlap p q.

(** ** Placements *)

(** [Math.min(compression / 100, maxCompression)] *)
Definition actualCompression (it : Item) (compression : Z) : Q :=
  Qmin (inject_Z compression / 100) (inject_Z (compressibility it) / 100).

(** The compression levels a loop of the engine tries for an item:
    5, 10, ... up to its compressibility. *)
Definition compressionLevels (it : Item) : list Z :=
  upRange 5 (compressibility it) 5.

(** [placedBy bootSpace packed iwm p]: the entry [p] is one the loop body
    can push for the item [iwm] when [packed] are the entries so far. *)
Definition placedBy (bootSpace : BootSpace) (packed : list PackedItem)
    (iwm : ItemWithMetrics) (p : PackedItem) : Prop :=
  item p = base iwm /\
  findBestPosition (orientation p) bootSpace packed = Some (position p) /\
  canPassThroughOpening (orientation p) bootSpace 20 = true /\
  ((compressed p = false /\ compressionApplied p = 0%Q /\
    In (orientation p) (orientations iwm)) \/
   (compressed p = true /\
    exists compression,
      In compression (compressionLevels (base iwm)) /\
      compressionApplied p = (actualCompression (base iwm) compression * 100)%Q /\
      In (orientation p)
         (generateOrientations
            (compressDimensions (dimensions (base iwm))
               (1 - actualCompression (base iwm) compression))
            (orientationConstraints (base iwm))))).

(** The entries of [packedItems], in the order they were pushed: each was
    placed by the loop body against the entries before it. *)
Inductive Placed (bootSpace : BootSpace) (items : list ItemWithMetrics)
    : list PackedItem -> Prop :=
| Placed_nil : Placed bootSpace items []
| Placed_push (packed : list PackedItem) (p : PackedItem) (iwm : ItemWithMetrics) :
    Placed bootSpace items packed ->
    In iwm items ->
    placedBy bootSpace packed iwm p ->
    Placed bootSpace items (packed ++ [p]).

(** ** The data model of the catalog *)

(** The range of [compressibility] in the data model: a percentage from 0
    to 30. *)
Definition compressibilityInRange (it : Item) : Prop :=
  0 <= compressibility it <= 30.

(** [r] is [d * (1 - pct / 100)] rounded to the nearest integer, halves
    upwards. *)
Definition isRoundedScale (pct d r : Z) : Prop :=
  100 * r - 50 <= d * (100 - pct) < 100 * r + 50.

(** [r] is an integer nearest to [d * (1 - pct / 100)]: at most a half
    away from it. *)
Definition isNearestScale (pct d r : Z) : Prop :=
  - 50 <= 100 * r - d * (100 - pct) <= 50.

(** [scaled] is [d] with each side multiplied by [1 - pct/100] and rounded
    to a nearest integer, whichever way a half goes. *)
Definition nearestScaled (pct : Z) (d scaled : ItemDimensions) : Prop :=
  isNearestScale pct (Dim.length d) (Dim.length scaled) /\
  isNearestScale pct (Dim.width d) (Dim.width scaled) /\
  isNearestScale pct (Dim.height d) (Dim.height scaled).

(** The data model: positive dimensions, compressibility from 0 to 30. *)
Definition positiveSides (d : ItemDimensions) : Prop :=
  0 < Dim.length d /\ 0 < Dim.width d /\ 0 < Dim.height d.

Definition validItem (it : Item) : Prop :=
  positiveSides (dimensions it) /\ compressibilityInRange it.

Definition validBoot (bm : BootMeasurements) : Prop :=
  0 < Boot.length bm /\ 0 < Boot.width bm /\ 0 < Boot.height bm.

(** ** Totals and warnings *)

(** The sum of the volumes of the packed orientations. *)
Definition packedVolume (packed : list PackedItem) : Z :=
  fold_right (fun p total => calculateItemVolume (orientation p) + total) 0 packed.

(** The sum, over the entries, of length times width times height of the
    packed orientation, written out. *)
Definition sumOfBoxVolumes (packed : list PackedItem) : Z :=
  fold_right Z.add 0
    (map (fun p => Dim.length (orientation p) * Dim.width (orientation p) *
                   Dim.height (orientation p))
         packed).

(** The warnings a vehicle causes by itself. *)
Definition vehicleWarnings (vehicle : Vehicle) : list Warning :=
  when (existsb isSignificant (bootIrregularities vehicle))
       SignificantIrregularities
  ++
  (if Space.hasOpeningConstraints (calculateEffectiveBootSpace vehicle)
   then when (openingLimitsCapacity (calculateEffectiveBootSpace vehicle))
             OpeningLimitsCapacity
   else []).

(** ** Sample data, after the fixtures of the test suite *)

Definition plainBoot (l w h : Z) : Vehicle :=
  mkVehicle "Test Vehicle" (Boot.mk l w h None None) [].

Definition box (l w h : Z) (c : OrientationConstraints) (compress : Z) : Item :=
  mkItem "Box" (Dim.mk l w h) 5 RIGID luggage false compress true c false.

Definition mockVehicle : Vehicle :=
  mkVehicle "Toyota Corolla 2023" (Boot.mk 1000 1000 500 None None) [].

Definition vehicleWithSmallOpening : Vehicle :=
  mkVehicle "Toyota Corolla 2023"
            (Boot.mk 1000 1000 500 (Some 800) (Some 400)) [].

Definition smallRigidItem : Item :=
  mkItem "Small Suitcase" (Dim.mk 400 300 200) 5 RIGID luggage true 0 true
         any false.

Definition flexibleItem : Item :=
  mkItem "Duffel Bag" (Dim.mk 600 300 300) 8 FLEXIBLE luggage true 20 true
         any false.

Definition oversizedItem : Item :=
  mkItem "Oversized Box" (Dim.mk 1200 800 600) 25 RIGID equipment false 0 true
         any false.

Definition itemThatFitsInBootButNotOpening : Item :=
  mkItem "Wide Flat Item" (Dim.mk 900 900 100) 10 RIGID equipment false 0 true
         flat_only false.

Definition uprightItemThatCantRotate : Item :=
  mkItem "Tall Upright Equipment" (Dim.mk 300 300 450) 15 COMPLETELY_RIGID
         equipment false 0 false upright_only false.

Definition itemAlmostFittingOpening : Item :=
  mkItem "Tight Fit Item" (Dim.mk 400 395 395) 8 RIGID equipment false 0 true
         any false.

Definition twoBoxes : list Item :=
  [box 400 300 200 any 0; box 600 300 200 any 0].

Definition largerPacked : PackedItem :=
  mkPacked (box 600 300 200 any 0) (Pos.mk 400 0 0) (Dim.mk 600 300 200)
           false 0.

Definition smallerPacked : PackedItem :=
  mkPacked (box 400 300 200 any 0) (Pos.mk 0 0 0) (Dim.mk 400 300 200)
           false 0.



Definition softCube : Item := box 1100 1100 1100 any 10.

Definition softCubePacked : PackedItem :=
  mkPacked softCube (Pos.mk 10 0 0) (Dim.mk 990 990 990) true
           (actualCompression softCube 10 * 100).

Definition flatCube : Item := box 300 300 300 flat_only 20.

(** * Further vocabulary of the engine *)

(** ** The efficiency factor by worst severity *)

Definition hasSeverity (s : IrregularitySeverity) (irr : BootIrregularity) : bool :=
  match s, severity irr with
  | MINOR, MINOR | MODERATE, MODERATE | SIGNIFICANT, SIGNIFICANT => true
  | _, _ => false
  end.

(** 0.70 with a significant irregularity, else 0.75 with a moderate one,
    else 0.80 with a minor one, else 0.85. *)
Definition worstCaseFactor (irregularities : list BootIrregularity) : Q :=
  if existsb (hasSeverity SIGNIFICANT) irregularities then 70 # 100
  else if existsb (hasSeverity MODERATE) irregularities then 75 # 100
  else if existsb (hasSeverity MINOR) irregularities then 80 # 100
  else 85 # 100.

Definition sides (d : ItemDimensions) : list Z :=
  [Dim.length d; Dim.width d; Dim.height d].

(** The orientation is no longer, wider or higher than the boot. *)
Definition fitsBoot (o : ItemDimensions) (bootSpace : BootSpace) : Prop :=
  Dim.length o <= Space.length bootSpace /\
  Dim.width o <= Space.width bootSpace /\
  Dim.height o <= Space.height bootSpace.

Definition fitsBootb (o : ItemDimensions) (bootSpace : BootSpace) : bool :=
  (Dim.length o <=? Space.length bootSpace) &&
  (Dim.width o <=? Space.width bootSpace) &&
  (Dim.height o <=? Space.height bootSpace).

(** ** The order of processing *)

(** [a] is processed no later than [b]: greater volume first, then the
    more rigid (lower rigidity order) first. *)
Definition processedBefore (a b : ItemWithMetrics) : Prop :=
  itemVolume b < itemVolume a \/
  (itemVolume a = itemVolume b /\ rigidityOrder a <= rigidityOrder b).




(** The processing order on catalogued items. *)
Definition itemBefore (a b : Item) : Prop :=
  calculateItemVolume (dimensions b) < calculateItemVolume (dimensions a) \/
  (calculateItemVolume (dimensions a) = calculateItemVolume (dimensions b) /\
   getRigidityOrder (rigidity a) <= getRigidityOrder (rigidity b)).

(** No uncompressed orientation of the item passes the opening. *)
Definition blockedByOpening (bootSpace : BootSpace) (it : Item) : bool :=
  (List.length
     (filterOrientationsForOpening
        (generateOrientations (dimensions it) (orientationConstraints it))
        bootSpace) =? 0)%nat.

(** ** Unit cells

    The unit cells [[a, a+1) x [b, b+1) x [c, c+1)] of a box, named by
    their lower corners: a box of positive integer sides at an integer
    position consists of as many cells as its volume. *)

Definition cellRange (a n : Z) : list Z :=
  map (fun k => a + Z.of_nat k) (seq 0 (Z.to_nat n)).

Definition cells (o : ItemDimensions) (p : Position) : list (Z * Z * Z) :=
  list_prod
    (list_prod (cellRange (Pos.x p) (Dim.length o))
               (cellRange (Pos.y p) (Dim.width o)))
    (cellRange (Pos.z p) (Dim.height o)).

Definition packedCells (p : PackedItem) : list (Z * Z * Z) :=
  cells (orientation p) (position p).

(** ** The order of the input *)

(** Items that tie in the processing order (same volume, same rigidity
    order) are the same item. *)
Definition tiesAreCopies (items : list Item) : Prop :=
  forall a b,
    In a items -> In b items ->
    calculateItemVolume (dimensions a) = calculateItemVolume (dimensions b) ->
    getRigidityOrder (rigidity a) = getRigidityOrder (rigidity b) ->
    a = b.

(** Two crates that tie: the same volume and rigidity, other sides. *)
Definition crateA : Item := box 600 300 200 any 0.
Definition crateB : Item := box 300 600 200 any 0.

(** * Validation: [utils/dataValidation.ts]

    The validators take values of type [any].  [JsValue] is the part of
    the JavaScript values they are written for: what [JSON.parse] can
    give, [undefined], and the numbers that are not finite.  A finite
    number is a rational (every binary64 number is one; a binary64 number
    is below the binary64 [0.1] exactly when it is below one tenth).  A
    string is a sequence of characters, each one code unit.  An object is
    the list of its own properties, a key at most once. *)

Inductive JsNumber : Type := NaN | Infinity | NegInfinity | Finite (q : Q).

#[warnings="-register-all"] Inductive JsValue : Type :=
| JsUndefined
| JsNull
| JsBoolean (b : bool)
| JsNum (n : JsNumber)
| JsString (s : string)
| JsArray (elements : list JsValue)
| JsObject (fields : list (string * JsValue)).

(** [typeof v] *)
Definition typeof (v : JsValue) : string :=
  match v with
  | JsUndefined => "undefined"
  | JsNull => "object"
  | JsBoolean _ => "boolean"
  | JsNum _ => "number"
  | JsString _ => "string"
  | JsArray _ => "object"
  | JsObject _ => "object"
  end.

(** [!!v]: [undefined], [null], [false], [0], [NaN] and the empty string
    are falsy. *)
Definition toBoolean (v : JsValue) : bool :=
  match v with
  | JsUndefined => false
  | JsNull => false
  | JsBoolean b => b
  | JsNum NaN => false
  | JsNum (Finite q) => negb (Qeq_bool q 0)
  | JsNum _ => true
  | JsString s => negb (String.eqb s EmptyString)
  | JsArray _ => true
  | JsObject _ => true
  end.

Definition lookup (key : string) (fields : list (string * JsValue)) : JsValue :=
  match find (fun kv => String.eqb (fst kv) key) fields with
  | Some kv => snd kv
  | None => JsUndefined
  end.

(** [v.key], for the property names the validators read ([name],
    [dimensions], [length], ...): an own property of an object, the
    length of a string or an array, [undefined] otherwise.  Reading a
    property of [undefined] or [null] throws; the validators are modelled
    to fail before they get here. *)
Definition prop (v : JsValue) (key : string) : JsValue :=
  match v with
  | JsObject fields => lookup key fields
  | JsString s =>
      if String.eqb key "length"
      then JsNum (Finite (inject_Z (Z.of_nat (String.length s))))
      else JsUndefined
  | JsArray elements =>
      if String.eqb key "length"
      then JsNum (Finite (inject_Z (Z.of_nat (List.length elements))))
      else JsUndefined
  | _ => JsUndefined
  end.

(** [Number.isInteger(v)] *)
Definition Number_isInteger (v : JsValue) : bool :=
  match v with
  | JsNum (Finite q) => Qeq_bool (inject_Z (Qfloor q)) q
  | _ => false
  end.

(** [v < c], [v <= c] and [v > c] for a number [v] and a finite constant
    [c]; each is false of [NaN].  The validators compare only what they
    have found to be a number. *)
Definition ltConst (v : JsValue) (c : Q) : bool :=
  match v with
  | JsNum (Finite q) => negb (Qle_bool c q)
  | JsNum NegInfinity => true
  | _ => false
  end.

Definition leConst (v : JsValue) (c : Q) : bool :=
  match v with
  | JsNum (Finite q) => Qle_bool q c
  | JsNum NegInfinity => true
  | _ => false
  end.

Definition gtConst (v : JsValue) (c : Q) : bool :=
  match v with
  | JsNum (Finite q) => negb (Qle_bool q c)
  | JsNum Infinity => true
  | _ => false
  end.

(** [values.includes(v)] for an array of strings. *)
Definition includes (values : list string) (v : JsValue) : bool :=
  match v with
  | JsString s => existsb (String.eqb s) values
  | _ => false
  end.

(** [values.join(', ')] *)
Definition join (values : list string) : string := String.concat ", " values.

(** The values of the string enum [ItemRigidity], in the order of
    [Object.values]. *)
Definition rigidityValue (r : ItemRigidity) : string :=
  match r with
  | VERY_FLEXIBLE => "very_flexible"
  | FLEXIBLE => "flexible"
  | SEMI_RIGID => "semi_rigid"
  | RIGID => "rigid"
  | COMPLETELY_RIGID => "completely_rigid"
  end.

Definition ItemRigidity_values : list string :=
  map rigidityValue [VERY_FLEXIBLE; FLEXIBLE; SEMI_RIGID; RIGID; COMPLETELY_RIGID].

Definition validCategories : list string :=
  ["luggage"; "baby_gear"; "sports"; "shopping"; "equipment"; "custom"]%string.

Definition validOrientations : list string :=
  ["any"; "upright_only"; "flat_only"]%string.

Record ValidationError : Type := mkError {
  field : string;
  message : string;
  value : option JsValue
}.

Record ValidationResult : Type := mkValidation {
  isValid : bool;
  errors : list ValidationError
}.

(** [if (bad) errors.push(e)] *)
Definition check (bad : bool) (e : ValidationError) : list ValidationError :=
  if bad then [e] else [].

(** [!Number.isInteger(v) || v <= 0] *)
Definition notPositiveInteger (v : JsValue) : bool :=
  negb (Number_isInteger v) || leConst v 0.

Definition dimensionErrors (d : JsValue) : list ValidationError :=
  check (notPositiveInteger (prop d "length"))
        (mkError "dimensions.length" "length must be a positive integer (mm)"
                 (Some (prop d "length")))
  ++ check (notPositiveInteger (prop d "width"))
           (mkError "dimensions.width" "width must be a positive integer (mm)"
                    (Some (prop d "width")))
  ++ check (notPositiveInteger (prop d "height"))
           (mkError "dimensions.height" "height must be a positive integer (mm)"
                    (Some (prop d "height"))).

Definition itemErrors (item : JsValue) : list ValidationError :=
  check (negb (toBoolean (prop item "name")) ||
         negb (String.eqb (typeof (prop item "name")) "string"))
        (mkError "name" "name is required and must be a string"
                 (Some (prop item "name")))
  ++ (if negb (toBoolean (prop item "dimensions"))
      then [mkError "dimensions" "dimensions is required" None]
      else dimensionErrors (prop item "dimensions"))
  ++ check (negb (String.eqb (typeof (prop item "weight")) "number") ||
            ltConst (prop item "weight") (1 # 10) ||
            gtConst (prop item "weight") 50)
           (mkError "weight" "weight must be a number between 0.1 and 50 kg"
                    (Some (prop item "weight")))
  ++ check (negb (includes ItemRigidity_values (prop item "rigidity")))
           (mkError "rigidity"
                    ("rigidity must be one of: " ++ join ItemRigidity_values)
                    (Some (prop item "rigidity")))
  ++ check (negb (includes validCategories (prop item "category")))
           (mkError "category"
                    ("category must be one of: " ++ join validCategories)
                    (Some (prop item "category")))
  ++ check (negb (String.eqb (typeof (prop item "cabinSuitable")) "boolean"))
           (mkError "cabinSuitable" "cabinSuitable must be a boolean"
                    (Some (prop item "cabinSuitable")))
  ++ check (negb (Number_isInteger (prop item "compressibility")) ||
            ltConst (prop item "compressibility") 0 ||
            gtConst (prop item "compressibility") 30)
           (mkError "compressibility"
                    "compressibility must be an integer between 0 and 30"
                    (Some (prop item "compressibility")))
  ++ check (negb (String.eqb (typeof (prop item "stackable")) "boolean"))
           (mkError "stackable" "stackable must be a boolean"
                    (Some (prop item "stackable")))
  ++ check (negb (includes validOrientations (prop item "orientationConstraints")))
           (mkError "orientationConstraints"
                    ("orientationConstraints must be one of: " ++
                     join validOrientations)
                    (Some (prop item "orientationConstraints")))
  ++ check (negb (String.eqb (typeof (prop item "customItem")) "boolean"))
           (mkError "customItem" "customItem must be a boolean"
                    (Some (prop item "customItem"))).

(** [validateItem(item)]; [None] is the [TypeError] of reading
    [item.name] when [item] is [undefined] or [null]. *)
Definition validateItem (item : JsValue) : option ValidationResult :=
  match item with
  | JsUndefined => None
  | JsNull => None
  | _ =>
      let errors := itemErrors item in
      Some (mkValidation (List.length errors =? 0)%nat errors)
  end.

(** The error pushed by [validateItems] for an error of the item at
    [index]; its [value] property is always present. *)
Definition indexedError (index : nat) (error : ValidationError) : ValidationError :=
  mkError ("items[" ++ decimal (Z.of_nat index) ++ "]." ++ field error)
          (message error)
          (Some (match value error with
                 | Some v => v
                 | None => JsUndefined
                 end)).

(** [items.forEach((item, index) => ...)] from [index] on. *)
Fixpoint validateEach (items : list JsValue) (index : nat)
    : option (list ValidationError) :=
  match items with
  | [] => Some []
  | item :: rest =>
      match validateItem item with
      | None => None
      | Some result =>
          match validateEach rest (S index) with
          | None => None
          | Some more =>
              Some ((if negb (isValid result)
                     then map (indexedError index) (errors result)
                     else []) ++ more)
          end
      end
  end.

Definition validateItems (items : JsValue) : option ValidationResult :=
  match items with
  | JsArray elements =>
      match validateEach elements 0 with
      | Some errors => Some (mkValidation (List.length errors =? 0)%nat errors)
      | None => None
      end
  | _ => Some (mkValidation false [mkError "items" "items must be an array" None])
  end.

(** The items [loadData] of [hooks/useItemData.ts] keeps when the
    validation found errors: those at an index that no error field starts
    with. *)
Fixpoint keepFrom (data : list JsValue) (index : nat)
    (validation : ValidationResult) : list JsValue :=
  match data with
  | [] => []
  | item :: rest =>
      let hasErrors :=
        existsb (fun error =>
                   String.prefix ("items[" ++ decimal (Z.of_nat index) ++ "]")
                                 (field error))
                (errors validation) in
      if negb hasErrors then item :: keepFrom rest (S index) validation
      else keepFrom rest (S index) validation
  end.

Definition validItems (data : list JsValue) (validation : ValidationResult)
    : list JsValue :=
  keepFrom data 0 validation.

(** ** Typed items as values

    The value that holds an [Item] of [types/item.types.ts], and the
    [Item] that a value holds. *)

Definition categoryValue (c : ItemCategory) : string :=
  match c with
  | luggage => "luggage"
  | baby_gear => "baby_gear"
  | sports => "sports"
  | shopping => "shopping"
  | equipment => "equipment"
  | custom => "custom"
  end.

Definition orientationValue (c : OrientationConstraints) : string :=
  match c with
  | any => "any"
  | upright_only => "upright_only"
  | flat_only => "flat_only"
  end.

Definition jsInteger (n : Z) : JsValue := JsNum (Finite (inject_Z n)).

Definition ofDimensions (d : ItemDimensions) : JsValue :=
  JsObject [("length", jsInteger (Dim.length d));
            ("width", jsInteger (Dim.width d));
            ("height", jsInteger (Dim.height d))]%string.

Definition ofItem (it : Item) : JsValue :=
  JsObject [("name", JsString (name it));
            ("dimensions", ofDimensions (dimensions it));
            ("weight", JsNum (Finite (weight it)));
            ("rigidity", JsString (rigidityValue (rigidity it)));
            ("category", JsString (categoryValue (category it)));
            ("cabinSuitable", JsBoolean (cabinSuitable it));
            ("compressibility", jsInteger (compressibility it));
            ("stackable", JsBoolean (stackable it));
            ("orientationConstraints",
             JsString (orientationValue (orientationConstraints it)));
            ("customItem", JsBoolean (customItem it))]%string.

Definition asString (v : JsValue) : option string :=
  match v with JsString s => Some s | _ => None end.

Definition asBoolean (v : JsValue) : option bool :=
  match v with JsBoolean b => Some b | _ => None end.

Definition asFinite (v : JsValue) : option Q :=
  match v with JsNum (Finite q) => Some q | _ => None end.

Definition asInteger (v : JsValue) : option Z :=
  match v with
  | JsNum (Finite q) =>
      if Qeq_bool (inject_Z (Qfloor q)) q then Some (Qfloor q) else None
  | _ => None
  end.

Definition asEnum {A : Type} (values : list A) (text : A -> string)
    (v : JsValue) : option A :=
  match v with
  | JsString s => find (fun a => String.eqb s (text a)) values
  | _ => None
  end.

Definition bind {A B : Type} (o : option A) (k : A -> option B) : option B :=
  match o with
  | Some a => k a
  | None => None
  end.

Definition asDimensions (v : JsValue) : option ItemDimensions :=
  bind (asInteger (prop v "length")) (fun l =>
  bind (asInteger (prop v "width")) (fun w =>
  bind (asInteger (prop v "height")) (fun h =>
  Some (Dim.mk l w h)))).

Definition asItem (v : JsValue) : option Item :=
  bind (asString (prop v "name")) (fun n =>
  bind (asDimensions (prop v "dimensions")) (fun d =>
  bind (asFinite (prop v "weight")) (fun wt =>
  bind (asEnum [VERY_FLEXIBLE; FLEXIBLE; SEMI_RIGID; RIGID; COMPLETELY_RIGID]
               rigidityValue (prop v "rigidity")) (fun r =>
  bind (asEnum [luggage; baby_gear; sports; shopping; equipment; custom]
               categoryValue (prop v "category")) (fun c =>
  bind (asBoolean (prop v "cabinSuitable")) (fun cs =>
  bind (asInteger (prop v "compressibility")) (fun cz =>
  bind (asBoolean (prop v "stackable")) (fun st =>
  bind (asEnum [any; upright_only; flat_only]
               orientationValue (prop v "orientationConstraints")) (fun oc =>
  bind (asBoolean (prop v "customItem")) (fun cu =>
  Some (mkItem n d wt r c cs cz st oc cu))))))))))).

(** What [validateItem] asks of a typed item. *)
Definition acceptableItem (it : Item) : Prop :=
  name it <> EmptyString /\
  validItem it /\
  (1 # 10 <= weight it <= 50)%Q.

(** [Subseq l t]: [l] is [t] with some elements left out. *)
Inductive Subseq {A : Type} : list A -> list A -> Prop :=
| Subseq_nil : Subseq [] []
| Subseq_skip (a : A) (l t : list A) : Subseq l t -> Subseq l (a :: t)
| Subseq_keep (a : A) (l t : list A) : Subseq l t -> Subseq (a :: l) (a :: t).

(** The fields [validateItem] reports after the dimensions. *)
Definition laterFields : list string :=
  ["weight"; "rigidity"; "category"; "cabinSuitable"; "compressibility";
   "stackable"; "orientationConstraints"; "customItem"]%string.

(** The fields it can report when [dimensions] is missing, and when it is
    there. *)
Definition fieldsWithoutDimensions : list string :=
  ["name"; "dimensions"]%string ++ laterFields.

Definition fieldsWithDimensions : list string :=
  ["name"; "dimensions.length"; "dimensions.width"; "dimensions.height"]%string
  ++ laterFields.

(** The value is [undefined] or [null]. *)
Definition nullish (v : JsValue) : Prop := v = JsUndefined \/ v = JsNull.

(** [validateItem] accepts the value. *)
Definition accepted (item : JsValue) : Prop :=
  exists r, validateItem item = Some r /\ isValid r = true.

(** [validateItem] accepts the value, as a test. *)
Definition acceptedb (item : JsValue) : bool :=
  match validateItem item with
  | Some r => isValid r
  | None => false
  end.

Definition isDigit (c : ascii) : bool :=
  (48 <=? nat_of_ascii c)%nat && (nat_of_ascii c <=? 57)%nat.

Fixpoint allDigits (s : string) : bool :=
  match s with
  | EmptyString => true
  | String c s' => isDigit c && allDigits s'
  end.

(** * The application: [App.tsx] and [hooks/usePackingAlgorithm.ts]

    The selection of the user is a list of items with quantities; the
    handlers are the state updaters that [App] passes to
    [setSelectedItems].  A quantity is an integer. *)

(** [interface ItemWithQuantity extends Item { quantity: number }] *)
Record ItemWithQuantity : Type := mkSelected {
  selected : Item;
  quantity : Z
}.

(** [si.name === item.name] *)
Definition sameName (item : Item) (si : ItemWithQuantity) : bool :=
  String.eqb (name (selected si)) (name item).

Definition handleItemAdd (item : Item) (prev : list ItemWithQuantity)
    : list ItemWithQuantity :=
  match find (sameName item) prev with
  | Some existing =>
      map (fun si => if sameName item si
                     then mkSelected (selected si) (quantity si + 1)
                     else si)
          prev
  | None => prev ++ [mkSelected item 1]
  end.

Definition handleItemRemove (item : Item) (prev : list ItemWithQuantity)
    : list ItemWithQuantity :=
  filter (fun si => negb (sameName item si)) prev.

Definition handleQuantityChange (item : Item) (newQuantity : Z)
    (prev : list ItemWithQuantity) : list ItemWithQuantity :=
  if newQuantity <=? 0 then handleItemRemove item prev
  else map (fun si => if sameName item si
                      then mkSelected (selected si) newQuantity
                      else si)
           prev.

(** The list built by the effect of [App]: each selected item as many
    times as its quantity ([for (let i = 0; i < item.quantity; i++)]). *)
Definition itemsTopack (selectedItems : list ItemWithQuantity) : list Item :=
  flat_map (fun si => repeat (selected si) (Z.to_nat (quantity si)))
           selectedItems.

(** The state of [usePackingAlgorithm] that outlasts a call
    ([isLoading] is false again when a call is over). *)
Record HookState : Type := mkHook {
  packingResult : option PackingResult;
  hookError : option string
}.

(** [packItemsInVehicle(vehicle, items)], as a change of the state of the
    hook; [None] is a [null] argument. *)
Definition packItemsInVehicle (vehicle : option Vehicle)
    (items : option (list Item)) (st : HookState) : HookState :=
  match vehicle, items with
  | Some v, Some l =>
      if (List.length l =? 0)%nat
      then mkHook (packingResult st) (Some "Vehicle and items are required"%string)
      else mkHook (Some (packItems v l)) None
  | _, _ => mkHook (packingResult st) (Some "Vehicle and items are required"%string)
  end.

(** [summary]: the summary of the result, when there is one. *)
Definition summary (st : HookState) : option PackingSummary :=
  match packingResult st with
  | Some result => Some (getPackingSummary result)
  | None => None
  end.

Definition clearResults (st : HookState) : HookState := mkHook None None.

(** The effect of [App] that runs when the vehicle or the selection
    changes. *)
Definition autoRunPacking (selectedVehicle : option Vehicle)
    (selectedItems : list ItemWithQuantity) (st : HookState) : HookState :=
  match selectedVehicle with
  | Some v =>
      if (0 <? List.length selectedItems)%nat
      then packItemsInVehicle (Some v) (Some (itemsTopack selectedItems)) st
      else st
  | None => st
  end.

(** ** Vocabulary of the selection *)

Definition selectedNames (l : list ItemWithQuantity) : list string :=
  map (fun si => name (selected si)) l.

(** Each name is selected once, with a quantity of at least one. *)
Definition wellFormedSelection (l : list ItemWithQuantity) : Prop :=
  NoDup (selectedNames l) /\ Forall (fun si => 1 <= quantity si) l.

Definition totalQuantity (l : list ItemWithQuantity) : Z :=
  fold_right (fun si total => quantity si + total) 0 l.

(** [x.name === item.name], on items. *)
Definition namedAs (item x : Item) : bool := String.eqb (name x) (name item).

(** ** Further sample data *)

(** A value that is not an item: every field is missing. *)
Definition emptyObject : JsValue := JsObject [].

(** Eleven loaded values: ten items and, last, a value that is not an
    item. *)
Definition elevenLoaded : list JsValue :=
  ofItem smallRigidItem :: ofItem flexibleItem ::
  repeat (ofItem smallRigidItem) 8 ++ [emptyObject].

(** * Properties *)

(** ** The loops as searches through explicit ranges *)

Lemma tripsUp_enter (start bound step : Z) :
  0 < step -> start <= bound ->
  tripsUp start bound step = S (tripsUp (start + step) bound step).
Proof.
  intros Hs Hle. unfold tripsUp.
  replace (bound - start) with ((bound - (start + step)) + 1 * step) by lia.
  rewrite Z.div_add by lia.
  assert (-1 <= (bound - (start + step)) / step).
  { apply Z.div_le_lower_bound; lia. }
  lia.
Qed.

Lemma tripsUp_exit (start bound step : Z) :
  0 < step -> bound < start -> tripsUp start bound step = O.
Proof.
  intros Hs Hlt. unfold tripsUp.
  assert ((bound - start) / step < 0) by (apply Z.div_lt_upper_bound; lia).
  lia.
Qed.

Lemma tripsDown_enter (start step : Z) :
  0 < step -> 0 <= start ->
  tripsDown start step = S (tripsDown (start - step) step).
Proof.
  intros Hs Hle. unfold tripsDown.
  replace start with ((start - step) + 1 * step) at 1 by lia.
  rewrite Z.div_add by lia.
  assert (-1 <= (start - step) / step).
  { apply Z.div_le_lower_bound; lia. }
  lia.
Qed.

Lemma tripsDown_exit (start step : Z) :
  0 < step -> start < 0 -> tripsDown start step = O.
Proof.
  intros Hs Hlt. unfold tripsDown.
  assert (start / step < 0) by (apply Z.div_lt_upper_bound; lia).
  lia.
Qed.

Lemma upRange_unfold (start bound step : Z) :
  0 < step ->
  upRange start bound step =
  if start <=? bound then start :: upRange (start + step) bound step else [].
Proof.
  intros Hs. unfold upRange. destruct (Z.leb_spec start bound) as [Hle | Hgt].
  - rewrite (tripsUp_enter start bound step Hs Hle). cbn [seq map].
    f_equal; [lia |]. rewrite <- seq_shift, map_map.
    apply map_ext. intros k. lia.
  - now rewrite tripsUp_exit.
Qed.

Lemma downRange_unfold (start step : Z) :
  0 < step ->
  downRange start step =
  if 0 <=? start then start :: downRange (start - step) step else [].
Proof.
  intros Hs. unfold downRange. destruct (Z.leb_spec 0 start) as [Hle | Hgt].
  - rewrite (tripsDown_enter start step Hs Hle). cbn [seq map].
    f_equal; [lia |]. rewrite <- seq_shift, map_map.
    apply map_ext. intros k. lia.
  - now rewrite tripsDown_exit.
Qed.

(** Any fuel of at least the trip count runs the loop to its guard. *)
Lemma forUp_firstSome {A : Type} (body : Z -> option A) (bound step : Z) :
  0 < step ->
  forall (fuel : nat) (start : Z),
    (tripsUp start bound step <= fuel)%nat ->
    forUp fuel start bound step body = firstSome body (upRange start bound step).
Proof.
  intros Hs fuel. induction fuel as [| fuel IH]; intros start Hfuel.
  - unfold upRange. replace (tripsUp start bound step) with O by lia.
    reflexivity.
  - rewrite upRange_unfold by assumption. cbn [forUp].
    destruct (Z.leb_spec start bound) as [Hle | Hgt]; [| reflexivity].
    cbn [firstSome]. destruct (body start); [reflexivity |].
    apply IH. rewrite (tripsUp_enter start bound step Hs Hle) in Hfuel. lia.
Qed.

Lemma forDown_firstSome {A : Type} (body : Z -> option A) (step : Z) :
  0 < step ->
  forall (fuel : nat) (start : Z),
    (tripsDown start step <= fuel)%nat ->
    forDown fuel start step body = firstSome body (downRange start step).
Proof.
  intros Hs fuel. induction fuel as [| fuel IH]; intros start Hfuel.
  - unfold downRange. replace (tripsDown start step) with O by lia.
    reflexivity.
  - rewrite downRange_unfold by assumption. cbn [forDown].
    destruct (Z.leb_spec 0 start) as [Hle | Hgt]; [| reflexivity].
    cbn [firstSome]. destruct (body start); [reflexivity |].
    apply IH. rewrite (tripsDown_enter start step Hs Hle) in Hfuel. lia.
Qed.

(** More fuel than the trip count changes nothing: the loops end by their
    guards. *)
Lemma forUp_fuel {A : Type} (body : Z -> option A) (start bound step : Z)
    (fuel : nat) :
  0 < step -> (tripsUp start bound step <= fuel)%nat ->
  forUp fuel start bound step body =
  forUp (tripsUp start bound step) start bound step body.
Proof.
  intros Hs Hfuel.
  rewrite !(forUp_firstSome body bound step Hs) by lia. reflexivity.
Qed.

Lemma forDown_fuel {A : Type} (body : Z -> option A) (start step : Z)
    (fuel : nat) :
  0 < step -> (tripsDown start step <= fuel)%nat ->
  forDown fuel start step body =
  forDown (tripsDown start step) start step body.
Proof.
  intros Hs Hfuel.
  rewrite !(forDown_firstSome body step Hs) by lia. reflexivity.
Qed.

Lemma firstSome_ext {A B : Type} (f g : A -> option B) (l : list A) :
  (forall a, In a l -> f a = g a) -> firstSome f l = firstSome g l.
Proof.
  induction l as [| a l IH]; intros Hfg; [reflexivity |].
  cbn [firstSome]. rewrite (Hfg a) by now left.
  destruct (g a); [reflexivity |]. apply IH. intros b Hb. apply Hfg. now right.
Qed.

Lemma firstSome_app {A B : Type} (f : A -> option B) (l1 l2 : list A) :
  firstSome f (l1 ++ l2) =
  match firstSome f l1 with
  | Some r => Some r
  | None => firstSome f l2
  end.
Proof.
  induction l1 as [| a l1 IH]; [reflexivity |].
  cbn [app firstSome]. destruct (f a); [reflexivity | exact IH].
Qed.

Lemma firstSome_map {A B C : Type} (f : B -> option C) (g : A -> B)
    (l : list A) :
  firstSome f (map g l) = firstSome (fun a => f (g a)) l.
Proof.
  induction l as [| a l IH]; [reflexivity |].
  cbn [map firstSome]. now rewrite IH.
Qed.

Lemma firstSome_flat_map {A B C : Type} (f : B -> option C)
    (h : A -> list B) (l : list A) :
  firstSome (fun a => firstSome f (h a)) l = firstSome f (flat_map h l).
Proof.
  induction l as [| a l IH]; [reflexivity |].
  cbn [flat_map firstSome]. rewrite firstSome_app, IH. reflexivity.
Qed.

Lemma firstSome_find {A : Type} (ok : A -> bool) (l : list A) :
  firstSome (fun a => if ok a then Some a else None) l = find ok l.
Proof.
  induction l as [| a l IH]; [reflexivity |].
  cbn [firstSome find]. destruct (ok a); [reflexivity | exact IH].
Qed.

Lemma firstSome_In {A B : Type} (f : A -> option B) (l : list A) (r : B) :
  firstSome f l = Some r -> exists a, In a l /\ f a = Some r.
Proof.
  induction l as [| a l IH]; [discriminate |].
  cbn [firstSome]. destruct (f a) as [b |] eqn:Hfa.
  - intros [= <-]. exists a. split; [now left | assumption].
  - intros H. destruct (IH H) as (a' & Hin & Ha'). exists a'. split; [now right | assumption].
Qed.

Lemma firstSome_None {A B : Type} (f : A -> option B) (l : list A) :
  (forall a, In a l -> f a = None) -> firstSome f l = None.
Proof.
  induction l as [| a l IH]; intros H; [reflexivity |].
  cbn [firstSome]. rewrite (H a) by now left. apply IH. intros b Hb. apply H. now right.
Qed.

(** ** The scan order of the position search *)

Lemma stepSize_pos : 0 < stepSize.
Proof. reflexivity. Qed.

Lemma findBestPosition_find (o : ItemDimensions) (bootSpace : BootSpace)
    (packed : list PackedItem) :
  findBestPosition o bootSpace packed =
  find (acceptable o bootSpace packed) (scanOrder o bootSpace).
Proof.
  unfold findBestPosition, scanOrder.
  rewrite (forUp_firstSome _ _ _ stepSize_pos) by apply Nat.le_refl.
  rewrite <- firstSome_find, <- firstSome_flat_map.
  apply firstSome_ext. intros z _.
  rewrite (forUp_firstSome _ _ _ stepSize_pos) by apply Nat.le_refl.
  rewrite <- firstSome_flat_map.
  apply firstSome_ext. intros y _.
  rewrite (forDown_firstSome _ _ stepSize_pos) by apply Nat.le_refl.
  now rewrite firstSome_map.
Qed.

Lemma tripsUp_lt (start bound step : Z) (k : nat) :
  0 < step ->
  (k < tripsUp start bound step)%nat <-> start + step * Z.of_nat k <= bound.
Proof.
  intros Hs. unfold tripsUp. split; intros H.
  - assert (Hk : Z.of_nat k <= (bound - start) / step) by lia.
    pose proof (Z.mul_div_le (bound - start) step Hs). nia.
  - assert (Z.of_nat k <= (bound - start) / step).
    { apply Z.div_le_lower_bound; lia. }
    lia.
Qed.

Lemma tripsDown_lt (start step : Z) (k : nat) :
  0 < step ->
  (k < tripsDown start step)%nat <-> 0 <= start - step * Z.of_nat k.
Proof.
  intros Hs. unfold tripsDown. split; intros H.
  - assert (Hk : Z.of_nat k <= start / step) by lia.
    pose proof (Z.mul_div_le start step Hs). nia.
  - assert (Z.of_nat k <= start / step).
    { apply Z.div_le_lower_bound; lia. }
    lia.
Qed.

Lemma In_upRange (start bound step v : Z) :
  0 < step ->
  In v (upRange start bound step) <->
  exists k : nat, v = start + step * Z.of_nat k /\ v <= bound.
Proof.
  intros Hs. unfold upRange. rewrite in_map_iff. split.
  - intros (k & <- & Hk). apply in_seq in Hk. exists k. split; [reflexivity |].
    apply tripsUp_lt; [assumption | lia].
  - intros (k & -> & Hk). exists k. split; [reflexivity |].
    apply in_seq. apply tripsUp_lt in Hk; [lia | assumption].
Qed.

Lemma In_downRange (start step v : Z) :
  0 < step ->
  In v (downRange start step) <->
  exists k : nat, v = start - step * Z.of_nat k /\ 0 <= v.
Proof.
  intros Hs. unfold downRange. rewrite in_map_iff. split.
  - intros (k & <- & Hk). apply in_seq in Hk. exists k. split; [reflexivity |].
    apply tripsDown_lt; [assumption | lia].
  - intros (k & -> & Hk). exists k. split; [reflexivity |].
    apply in_seq. apply tripsDown_lt in Hk; [lia | assumption].
Qed.

Section SortedLists.
Context {A : Type} (R : A -> A -> Prop).

Lemma StronglySorted_map_seq (f : nat -> A) (n a : nat) :
  (forall i j, (i < j)%nat -> R (f i) (f j)) ->
  StronglySorted R (map f (seq a n)).
Proof.
  intros Hf. revert a. induction n as [| n IH]; intros a; cbn [seq map].
  - constructor.
  - constructor; [apply IH |].
    apply Forall_forall. intros v Hv. apply in_map_iff in Hv.
    destruct Hv as (j & <- & Hj). apply in_seq in Hj. apply Hf. lia.
Qed.

Lemma StronglySorted_app (l1 l2 : list A) :
  StronglySorted R l1 -> StronglySorted R l2 ->
  (forall a b, In a l1 -> In b l2 -> R a b) ->
  StronglySorted R (l1 ++ l2).
Proof.
  intros H1 H2 H12. induction H1 as [| a l1 Hl1 IH Ha]; [exact H2 |].
  cbn [app]. constructor.
  - apply IH. intros x y Hx Hy. apply H12; [now right | assumption].
  - apply Forall_app. split; [assumption |].
    apply Forall_forall. intros y Hy. apply H12; [now left | assumption].
Qed.

Lemma StronglySorted_flat_map {B : Type} (T : B -> B -> Prop)
    (h : B -> list A) (l : list B) :
  StronglySorted T l ->
  (forall b, In b l -> StronglySorted R (h b)) ->
  (forall b c x y, T b c -> In x (h b) -> In y (h c) -> R x y) ->
  StronglySorted R (flat_map h l).
Proof.
  intros Hl Hin Hcross. induction Hl as [| b l Hl IH Hb]; cbn [flat_map].
  - constructor.
  - apply StronglySorted_app.
    + apply Hin. now left.
    + apply IH. intros c Hc. apply Hin. now right.
    + intros x y Hx Hy. apply in_flat_map in Hy. destruct Hy as (c & Hc & Hy).
      rewrite Forall_forall in Hb. exact (Hcross b c x y (Hb c Hc) Hx Hy).
Qed.

(** In a sorted list, [find] returns the least element that passes. *)
Lemma find_StronglySorted (ok : A -> bool) (l : list A) (p : A) :
  StronglySorted R l -> find ok l = Some p ->
  In p l /\ ok p = true /\
  forall q, In q l -> ok q = true -> q = p \/ R p q.
Proof.
  intros Hl. induction Hl as [| a l Hl IH Ha]; [discriminate |].
  cbn [find]. destruct (ok a) eqn:Hoka.
  - intros [= <-]. repeat split; [now left | assumption |].
    intros q [-> | Hq] _; [now left |]. right.
    rewrite Forall_forall in Ha. now apply Ha.
  - intros Hfind. destruct (IH Hfind) as (Hin & Hok & Hleast).
    repeat split; [now right | assumption |].
    intros q [-> | Hq] Hq'; [congruence | now apply Hleast].
Qed.
End SortedLists.

Lemma upRange_sorted (start bound step : Z) :
  0 < step -> StronglySorted Z.lt (upRange start bound step).
Proof.
  intros Hs. apply StronglySorted_map_seq. intros i j Hij. nia.
Qed.

Lemma downRange_sorted (start step : Z) :
  0 < step -> StronglySorted Z.gt (downRange start step).
Proof.
  intros Hs. apply StronglySorted_map_seq. intros i j Hij. nia.
Qed.

Lemma In_scanOrder (o : ItemDimensions) (bootSpace : BootSpace) (p : Position) :
  In p (scanOrder o bootSpace) <-> onGrid o bootSpace p.
Proof.
  unfold scanOrder, onGrid. rewrite in_flat_map. split.
  - intros (z & Hz & Hp). apply in_flat_map in Hp. destruct Hp as (y & Hy & Hp).
    apply in_map_iff in Hp. destruct Hp as (x & <- & Hx).
    apply (In_upRange _ _ _ _ stepSize_pos) in Hz. destruct Hz as (k & Hk & Hzb).
    apply (In_upRange _ _ _ _ stepSize_pos) in Hy. destruct Hy as (j & Hj & Hyb).
    apply (In_downRange _ _ _ stepSize_pos) in Hx. destruct Hx as (i & Hi & Hxb).
    exists i, j, k. cbn [Pos.x Pos.y Pos.z]. unfold stepSize in *.
    repeat split; lia.
  - intros (i & j & k & Hx & Hx0 & Hy & Hyb & Hz & Hzb). destruct p as [x y z].
    cbn [Pos.x Pos.y Pos.z] in *. exists z. split.
    + apply (In_upRange _ _ _ _ stepSize_pos). exists k. split; lia.
    + apply in_flat_map. exists y. split.
      * apply (In_upRange _ _ _ _ stepSize_pos). exists j. split; lia.
      * apply in_map_iff. exists x. split; [reflexivity |].
        apply (In_downRange _ _ _ stepSize_pos). exists i. split; lia.
Qed.

Lemma scanOrder_sorted (o : ItemDimensions) (bootSpace : BootSpace) :
  StronglySorted scannedBefore (scanOrder o bootSpace).
Proof.
  unfold scanOrder.
  apply StronglySorted_flat_map with (T := Z.lt).
  - apply upRange_sorted, stepSize_pos.
  - intros z _. apply StronglySorted_flat_map with (T := Z.lt).
    + apply upRange_sorted, stepSize_pos.
    + intros y _. pose proof (downRange_sorted
        (Space.length bootSpace - Dim.length o) stepSize stepSize_pos) as Hx.
      induction Hx as [| x xs Hxs IH Hall]; cbn [map]; constructor.
      * exact IH.
      * apply Forall_forall. intros q Hq. apply in_map_iff in Hq.
        destruct Hq as (x' & <- & Hx'). rewrite Forall_forall in Hall.
        specialize (Hall x' Hx'). unfold scannedBefore.
        cbn [Pos.x Pos.y Pos.z]. lia.
    + intros y y' p q Hyy Hp Hq. apply in_map_iff in Hp, Hq.
      destruct Hp as (x & <- & _), Hq as (x' & <- & _).
      unfold scannedBefore. cbn [Pos.x Pos.y Pos.z]. lia.
  - intros z z' p q Hzz Hp Hq. apply in_flat_map in Hp, Hq.
    destruct Hp as (y & _ & Hp), Hq as (y' & _ & Hq).
    apply in_map_iff in Hp, Hq.
    destruct Hp as (x & <- & _), Hq as (x' & <- & _).
    unfold scannedBefore. cbn [Pos.x Pos.y Pos.z]. lia.
Qed.

(** ** Geometry of boxes *)

Lemma boxesOverlap_sym (o1 : ItemDimensions) (p1 : Position)
    (o2 : ItemDimensions) (p2 : Position) :
  boxesOverlap o1 p1 o2 p2 -> boxesOverlap o2 p2 o1 p1.
Proof. unfold boxesOverlap. tauto. Qed.

Lemma overlap_true_iff (o : ItemDimensions) (p : Position) (q : PackedItem) :
  overlap o p q = true <-> boxesOverlap o p (orientation q) (position q).
Proof.
  unfold overlap, boxesOverlap.
  rewrite !andb_true_iff, !Z.ltb_lt. tauto.
Qed.

Lemma hasCollision_false_iff (o : ItemDimensions) (p : Position)
    (packed : list PackedItem) :
  hasCollision o p packed = false <->
  forall q, In q packed -> ~ boxesOverlap o p (orientation q) (position q).
Proof.
  induction packed as [| q packed IH]; cbn [hasCollision].
  - split; [intros _ q [] | reflexivity].
  - destruct (overlap o p q) eqn:Hov.
    + split; [discriminate |]. intros H. exfalso.
      apply (H q); [now left | now apply overlap_true_iff].
    + rewrite IH. split.
      * intros H q' [<- | Hq']; [| now apply H].
        rewrite <- overlap_true_iff. congruence.
      * intros H q' Hq'. apply H. now right.
Qed.

Lemma acceptable_true (o : ItemDimensions) (bootSpace : BootSpace)
    (packed : list PackedItem) (p : Position) :
  acceptable o bootSpace packed p = true <->
  (Pos.x p + Dim.length o <= Space.length bootSpace /\
   Pos.y p + Dim.width o <= Space.width bootSpace /\
   Pos.z p + Dim.height o <= Space.height bootSpace) /\
  forall q, In q packed -> ~ boxesOverlap o p (orientation q) (position q).
Proof.
  unfold acceptable, fitsInSpace.
  rewrite !andb_true_iff, negb_true_iff, !Z.leb_le, hasCollision_false_iff.
  tauto.
Qed.

Lemma onGrid_nonneg (o : ItemDimensions) (bootSpace : BootSpace) (p : Position) :
  onGrid o bootSpace p -> 0 <= Pos.x p /\ 0 <= Pos.y p /\ 0 <= Pos.z p.
Proof.
  intros (i & j & k & Hx & Hx0 & Hy & Hyb & Hz & Hzb).
  unfold stepSize in *. lia.
Qed.

Lemma acceptable_feasible (o : ItemDimensions) (bootSpace : BootSpace)
    (packed : list PackedItem) (p : Position) :
  onGrid o bootSpace p ->
  acceptable o bootSpace packed p = true <-> feasible o bootSpace packed p.
Proof.
  intros Hgrid. pose proof (onGrid_nonneg o bootSpace p Hgrid).
  rewrite acceptable_true. unfold feasible, withinBoot. tauto.
Qed.


(** What a successful search gives. *)
Lemma findBestPosition_Some (o : ItemDimensions) (bootSpace : BootSpace)
    (packed : list PackedItem) (p : Position) :
  findBestPosition o bootSpace packed = Some p ->
  onGrid o bootSpace p /\ feasible o bootSpace packed p.
Proof.
  rewrite findBestPosition_find. intros H. apply find_some in H.
  destruct H as [Hin Hok]. apply In_scanOrder in Hin.
  split; [assumption |]. now apply acceptable_feasible.
Qed.


(** With nothing packed the first candidate is taken whenever there is one. *)
Lemma findBestPosition_empty (o : ItemDimensions) (bootSpace : BootSpace)
    (p : Position) :
  findBestPosition o bootSpace [] = Some p ->
  p = Pos.mk (Space.length bootSpace - Dim.length o) 0 0.
Proof.
  rewrite findBestPosition_find. unfold scanOrder.
  rewrite (upRange_unfold 0 (Space.height bootSpace - Dim.height o) stepSize
             stepSize_pos).
  destruct (Z.leb_spec 0 (Space.height bootSpace - Dim.height o)) as [Hz | Hz];
    [| discriminate].
  cbn [flat_map].
  rewrite (upRange_unfold 0 (Space.width bootSpace - Dim.width o) stepSize
             stepSize_pos).
  destruct (Z.leb_spec 0 (Space.width bootSpace - Dim.width o)) as [Hy | Hy].
  - cbn [flat_map].
    rewrite (downRange_unfold (Space.length bootSpace - Dim.length o) stepSize
               stepSize_pos).
    destruct (Z.leb_spec 0 (Space.length bootSpace - Dim.length o)) as [Hx | Hx].
    + cbn [map app find].
      assert (Hok : acceptable o bootSpace []
                (Pos.mk (Space.length bootSpace - Dim.length o) 0 0) = true).
      { apply acceptable_true. cbn [Pos.x Pos.y Pos.z]. split; [lia |].
        intros q []. }
      rewrite Hok. now intros [= <-].
    + cbn [map app]. intros H. apply find_some in H. destruct H as [Hin _].
      exfalso. apply in_app_or in Hin. destruct Hin as [Hin | Hin].
      * apply in_flat_map in Hin. destruct Hin as (y & _ & []).
      * apply in_flat_map in Hin. destruct Hin as (z & _ & Hin).
        apply in_flat_map in Hin. destruct Hin as (y & _ & []).
  - cbn [flat_map app]. intros H. apply find_some in H. destruct H as [Hin _].
    exfalso. apply in_flat_map in Hin. destruct Hin as (z & _ & []).
Qed.

(** ** What one iteration of the orchestrator does *)

Lemma five_pos : 0 < 5.
Proof. reflexivity. Qed.

Lemma compressionLevels_spec (it : Item) (c : Z) :
  In c (compressionLevels it) <->
  exists k : nat, c = 5 + 5 * Z.of_nat k /\ c <= compressibility it.
Proof. apply In_upRange, five_pos. Qed.

Lemma canPassThroughOpening_unconstrained (o : ItemDimensions)
    (bootSpace : BootSpace) (margin : Z) :
  Space.hasOpeningConstraints bootSpace = false ->
  canPassThroughOpening o bootSpace margin = true.
Proof. intros H. unfold canPassThroughOpening. now rewrite H. Qed.

Lemma filterOrientationsForOpening_In (o : ItemDimensions)
    (os : list ItemDimensions) (bootSpace : BootSpace) :
  In o (filterOrientationsForOpening os bootSpace) <->
  In o os /\ canPassThroughOpening o bootSpace 20 = true.
Proof.
  unfold filterOrientationsForOpening.
  destruct (Space.hasOpeningConstraints bootSpace) eqn:Hc; cbn [negb].
  - apply filter_In.
  - rewrite canPassThroughOpening_unconstrained by assumption. tauto.
Qed.

Lemma tryOrientations_Some (it : Item) (os : list ItemDimensions)
    (bootSpace : BootSpace) (packed : list PackedItem) (c : bool) (a : Q)
    (p : PackedItem) :
  tryOrientations it os bootSpace packed c a = Some p ->
  item p = it /\ In (orientation p) os /\
  findBestPosition (orientation p) bootSpace packed = Some (position p) /\
  compressed p = c /\ compressionApplied p = a.
Proof.
  unfold tryOrientations. intros H. apply firstSome_In in H.
  destruct H as (o & Hin & Ho).
  destruct (findBestPosition o bootSpace packed) as [pos |] eqn:Hpos;
    [| discriminate].
  injection Ho as <-. cbn [item orientation position compressed compressionApplied].
  auto.
Qed.

Lemma tryOrientations_None (it : Item) (os : list ItemDimensions)
    (bootSpace : BootSpace) (packed : list PackedItem) (c : bool) (a : Q) :
  (forall o, In o os -> findBestPosition o bootSpace packed = None) ->
  tryOrientations it os bootSpace packed c a = None.
Proof.
  intros H. unfold tryOrientations. apply firstSome_None.
  intros o Ho. now rewrite (H o Ho).
Qed.

Lemma applyCompressionForOpening_Some (it : Item) (bootSpace : BootSpace)
    (dims : ItemDimensions) (applied : Q) :
  applyCompressionForOpening it bootSpace = Some (dims, applied) ->
  exists compression,
    In compression (compressionLevels it) /\
    applied = (actualCompression it compression * 100)%Q /\
    In dims (generateOrientations
               (compressDimensions (dimensions it)
                  (1 - actualCompression it compression))
               (orientationConstraints it)) /\
    canPassThroughOpening dims bootSpace 20 = true.
Proof.
  unfold applyCompressionForOpening.
  destruct (Space.hasOpeningConstraints bootSpace) eqn:Hc; cbn [negb orb];
    [| discriminate].
  destruct (compressibility it <=? 0); [discriminate |].
  rewrite (forUp_firstSome _ _ _ five_pos) by apply Nat.le_refl.
  intros H. apply firstSome_In in H. destruct H as (c & Hc5 & H).
  apply firstSome_In in H. destruct H as (o & Ho & H).
  match type of H with (if ?b then _ else _) = _ => destruct b eqn:Hfit end;
    [| discriminate].
  injection H as <- <-. exists c. repeat split; try assumption.
  unfold canPassThroughOpening. rewrite Hc. exact Hfit.
Qed.

Lemma applyCompressionForOpening_None (it : Item) (bootSpace : BootSpace) :
  (forall compression o,
     In compression (compressionLevels it) ->
     In o (generateOrientations
             (compressDimensions (dimensions it)
                (1 - actualCompression it compression))
             (orientationConstraints it)) ->
     canPassThroughOpening o bootSpace 20 = false) ->
  applyCompressionForOpening it bootSpace = None.
Proof.
  intros Hno. unfold applyCompressionForOpening.
  destruct (Space.hasOpeningConstraints bootSpace) eqn:Hc; cbn [negb orb];
    [| reflexivity].
  destruct (compressibility it <=? 0); [reflexivity |].
  rewrite (forUp_firstSome _ _ _ five_pos) by apply Nat.le_refl.
  apply firstSome_None. intros c Hc5. apply firstSome_None. intros o Ho.
  specialize (Hno c o Hc5 Ho). unfold canPassThroughOpening in Hno.
  rewrite Hc in Hno. cbn [negb] in Hno. now rewrite Hno.
Qed.

Lemma inject_Z_div_100_pos (c : Z) : 0 < c -> (0 < inject_Z c / 100)%Q.
Proof.
  intros Hc. apply Qlt_shift_div_l; [reflexivity |].
  rewrite Qmult_0_l. change 0%Q with (inject_Z 0). now rewrite <- Zlt_Qlt.
Qed.

Lemma inject_Z_div_100_le (c d : Z) :
  c <= d -> (inject_Z c / 100 <= inject_Z d / 100)%Q.
Proof.
  intros Hcd. unfold Qdiv. apply Qmult_le_compat_r; [| discriminate].
  now rewrite <- Zle_Qle.
Qed.

(** Within the loop the requested level is the one applied. *)
Lemma actualCompression_level (it : Item) (c : Z) :
  c <= compressibility it -> (actualCompression it c == inject_Z c / 100)%Q.
Proof.
  intros Hc. unfold actualCompression. apply Q.min_l.
  now apply inject_Z_div_100_le.
Qed.

Lemma actualCompression_times_100 (it : Item) (c : Z) :
  c <= compressibility it -> (actualCompression it c * 100 == inject_Z c)%Q.
Proof.
  intros Hc. rewrite actualCompression_level by assumption. field.
Qed.

Lemma applyCompression_level (it : Item) (c : Z) :
  In c (compressionLevels it) ->
  applyCompression it c =
  (compressDimensions (dimensions it) (1 - actualCompression it c),
   (actualCompression it c * 100)%Q).
Proof.
  intros Hc. apply compressionLevels_spec in Hc. destruct Hc as (k & Hk & Hle).
  unfold applyCompression. fold (actualCompression it c).
  destruct (Qle_bool (actualCompression it c) 0) eqn:Hle0; [| reflexivity].
  exfalso. apply Qle_bool_iff in Hle0.
  rewrite actualCompression_level in Hle0 by assumption.
  assert (Hpos : (0 < inject_Z c / 100)%Q) by (apply inject_Z_div_100_pos; lia).
  exact (Qlt_not_le _ _ Hpos Hle0).
Qed.

Lemma trySpaceCompression_Some (it : Item) (bootSpace : BootSpace)
    (packed : list PackedItem) (p : PackedItem) :
  trySpaceCompression it bootSpace packed = Some p ->
  item p = it /\
  findBestPosition (orientation p) bootSpace packed = Some (position p) /\
  canPassThroughOpening (orientation p) bootSpace 20 = true /\
  compressed p = true /\
  exists compression,
    In compression (compressionLevels it) /\
    compressionApplied p = (actualCompression it compression * 100)%Q /\
    In (orientation p)
       (generateOrientations
          (compressDimensions (dimensions it)
             (1 - actualCompression it compression))
          (orientationConstraints it)).
Proof.
  unfold trySpaceCompression.
  rewrite (forUp_firstSome _ _ _ five_pos) by apply Nat.le_refl.
  intros H. apply firstSome_In in H. destruct H as (c & Hc & H).
  rewrite (applyCompression_level it c Hc) in H.
  apply tryOrientations_Some in H.
  destruct H as (Hit & Hin & Hpos & Hcomp & Happ).
  apply filterOrientationsForOpening_In in Hin. destruct Hin as [Hin Hpass].
  repeat split; try assumption. exists c. auto.
Qed.

Lemma tryOpeningCompression_Some (it : Item) (bootSpace : BootSpace)
    (packed : list PackedItem) (p : PackedItem) :
  tryOpeningCompression it bootSpace packed = Some p ->
  item p = it /\
  findBestPosition (orientation p) bootSpace packed = Some (position p) /\
  canPassThroughOpening (orientation p) bootSpace 20 = true /\
  compressed p = true /\
  exists compression,
    In compression (compressionLevels it) /\
    compressionApplied p = (actualCompression it compression * 100)%Q /\
    In (orientation p)
       (generateOrientations
          (compressDimensions (dimensions it)
             (1 - actualCompression it compression))
          (orientationConstraints it)).
Proof.
  unfold tryOpeningCompression.
  destruct (0 <? compressibility it); [| discriminate].
  destruct (applyCompressionForOpening it bootSpace) as [[dims applied] |] eqn:Hap;
    [| discriminate].
  destruct (findBestPosition dims bootSpace packed) as [pos |] eqn:Hpos;
    [| discriminate].
  intros [= <-]. cbn [item orientation position compressed compressionApplied].
  apply applyCompressionForOpening_Some in Hap.
  destruct Hap as (c & Hc & Happ & Hin & Hpass).
  repeat split; try assumption. exists c. auto.
Qed.

(** Each iteration either pushes one entry on [packedItems] or pushes the
    item on [unpackedItems]. *)
Lemma packOne_cases (bootSpace : BootSpace) (st : State) (iwm : ItemWithMetrics) :
  (exists p, packOne bootSpace st iwm = pushPacked st p /\
             placedBy bootSpace (St.packedItems st) iwm p) \/
  (exists byOpening, packOne bootSpace st iwm = pushUnpacked st (base iwm) byOpening).
Proof.
  unfold packOne.
  destruct ((List.length (filterOrientationsForOpening (orientations iwm) bootSpace)
             =? 0)%nat && Space.hasOpeningConstraints bootSpace).
  - destruct (tryOpeningCompression (base iwm) bootSpace (St.packedItems st))
      as [p |] eqn:Htry.
    + left. exists p. split; [reflexivity |].
      apply tryOpeningCompression_Some in Htry.
      destruct Htry as (Hit & Hpos & Hpass & Hcomp & Hlevel).
      split; [assumption | split; [assumption | split; [assumption |]]].
      right. split; assumption.
    + right. now exists true.
  - destruct (tryOrientations (base iwm) _ bootSpace (St.packedItems st) false 0)
      as [p |] eqn:Htry.
    + left. exists p. split; [reflexivity |].
      apply tryOrientations_Some in Htry.
      destruct Htry as (Hit & Hin & Hpos & Hcomp & Happ).
      apply filterOrientationsForOpening_In in Hin. destruct Hin as [Hin Hpass].
      split; [assumption | split; [assumption | split; [assumption |]]].
      left. repeat split; assumption.
    + destruct (0 <? compressibility (base iwm)); [| right; now exists false].
      destruct (trySpaceCompression (base iwm) bootSpace (St.packedItems st))
        as [p |] eqn:Hsp; [| right; now exists false].
      left. exists p. split; [reflexivity |].
      apply trySpaceCompression_Some in Hsp.
      destruct Hsp as (Hit & Hpos & Hpass & Hcomp & Hlevel).
      split; [assumption | split; [assumption | split; [assumption |]]].
      right. split; assumption.
Qed.

(** ** Invariants of the loop over the items *)

Lemma fold_packOne_invariant (bootSpace : BootSpace) (P : State -> Prop)
    (items : list ItemWithMetrics) :
  (forall st iwm, In iwm items -> P st -> P (packOne bootSpace st iwm)) ->
  forall (l : list ItemWithMetrics) (st : State),
    incl l items -> P st -> P (fold_left (packOne bootSpace) l st).
Proof.
  intros Hstep l. induction l as [| iwm l IH]; intros st Hincl Hst.
  - exact Hst.
  - cbn [fold_left]. apply IH.
    + intros a Ha. apply Hincl. now right.
    + apply Hstep; [apply Hincl; now left | exact Hst].
Qed.

Lemma packAll_invariant (bootSpace : BootSpace) (P : State -> Prop)
    (items : list ItemWithMetrics) :
  P initialState ->
  (forall st iwm, In iwm items -> P st -> P (packOne bootSpace st iwm)) ->
  P (packAll bootSpace items).
Proof.
  intros Hinit Hstep. unfold packAll.
  apply (fold_packOne_invariant bootSpace P items Hstep);
    [apply incl_refl | exact Hinit].
Qed.

Lemma packOne_Placed (bootSpace : BootSpace) (items : list ItemWithMetrics)
    (st : State) (iwm : ItemWithMetrics) :
  In iwm items ->
  Placed bootSpace items (St.packedItems st) ->
  Placed bootSpace items (St.packedItems (packOne bootSpace st iwm)).
Proof.
  intros Hin Hst.
  destruct (packOne_cases bootSpace st iwm) as [(p & -> & Hp) | (f & ->)].
  - cbn [pushPacked St.packedItems]. now apply Placed_push with (iwm := iwm).
  - exact Hst.
Qed.

Lemma packAll_Placed (bootSpace : BootSpace) (items : list ItemWithMetrics) :
  Placed bootSpace items (St.packedItems (packAll bootSpace items)).
Proof.
  apply (packAll_invariant bootSpace
           (fun st => Placed bootSpace items (St.packedItems st))).
  - constructor.
  - intros st iwm. apply packOne_Placed.
Qed.

(** A property of every placement holds of every entry. *)
Lemma Placed_Forall (bootSpace : BootSpace) (items : list ItemWithMetrics)
    (Q : PackedItem -> Prop) (packed : list PackedItem) :
  (forall before iwm p,
     In iwm items -> placedBy bootSpace before iwm p -> Q p) ->
  Placed bootSpace items packed -> Forall Q packed.
Proof.
  intros HQ Hpl. induction Hpl as [| packed p iwm Hpl IH Hin Hp].
  - constructor.
  - apply Forall_app. split; [exact IH |].
    constructor; [| constructor]. exact (HQ packed iwm p Hin Hp).
Qed.

(** *** Pairwise separation *)

Lemma packedOverlap_sym (p q : PackedItem) :
  packedOverlap p q -> packedOverlap q p.
Proof. apply boxesOverlap_sym. Qed.

Lemma pairwiseDisjoint_nil : pairwiseDisjoint [].
Proof. intros i j p q _ Hi. destruct i; discriminate. Qed.

Lemma pairwiseDisjoint_push (packed : list PackedItem) (p : PackedItem) :
  pairwiseDisjoint packed ->
  (forall q, In q packed -> ~ packedOverlap p q) ->
  pairwiseDisjoint (packed ++ [p]).
Proof.
  intros Hpd Hnew i j a b Hij Ha Hb.
  destruct (Nat.lt_ge_cases i (List.length packed)) as [Hi | Hi];
    destruct (Nat.lt_ge_cases j (List.length packed)) as [Hj | Hj].
  - rewrite nth_error_app1 in Ha, Hb by assumption.
    exact (Hpd i j a b Hij Ha Hb).
  - rewrite nth_error_app1 in Ha by assumption.
    rewrite nth_error_app2 in Hb by assumption.
    destruct (j - List.length packed)%nat as [| n]; cbn in Hb;
      [| destruct n; discriminate].
    injection Hb as <-. intros Hov. apply packedOverlap_sym in Hov.
    apply nth_error_In in Ha. exact (Hnew a Ha Hov).
  - rewrite nth_error_app2 in Ha by assumption.
    rewrite nth_error_app1 in Hb by assumption.
    destruct (i - List.length packed)%nat as [| n]; cbn in Ha;
      [| destruct n; discriminate].
    injection Ha as <-. apply nth_error_In in Hb. exact (Hnew b Hb).
  - rewrite nth_error_app2 in Ha, Hb by assumption.
    destruct (i - List.length packed)%nat as [| n] eqn:Hi'; cbn in Ha;
      [| destruct n; discriminate].
    destruct (j - List.length packed)%nat as [| m] eqn:Hj'; cbn in Hb;
      [| destruct m; discriminate].
    lia.
Qed.

Lemma placedBy_clear (bootSpace : BootSpace) (packed : list PackedItem)
    (iwm : ItemWithMetrics) (p : PackedItem) :
  placedBy bootSpace packed iwm p ->
  forall q, In q packed -> ~ packedOverlap p q.
Proof.
  intros (_ & Hpos & _) q Hq.
  apply findBestPosition_Some in Hpos. destruct Hpos as [_ [_ Hclear]].
  exact (Hclear q Hq).
Qed.

Lemma packOne_pairwiseDisjoint (bootSpace : BootSpace) (st : State)
    (iwm : ItemWithMetrics) :
  pairwiseDisjoint (St.packedItems st) ->
  pairwiseDisjoint (St.packedItems (packOne bootSpace st iwm)).
Proof.
  intros Hst.
  destruct (packOne_cases bootSpace st iwm) as [(p & -> & Hp) | (f & ->)].
  - cbn [pushPacked St.packedItems]. apply pairwiseDisjoint_push; [exact Hst |].
    exact (placedBy_clear _ _ _ _ Hp).
  - exact Hst.
Qed.

Lemma packAll_pairwiseDisjoint (bootSpace : BootSpace)
    (items : list ItemWithMetrics) :
  pairwiseDisjoint (St.packedItems (packAll bootSpace items)).
Proof.
  apply (packAll_invariant bootSpace
           (fun st => pairwiseDisjoint (St.packedItems st))).
  - apply pairwiseDisjoint_nil.
  - intros st iwm _. apply packOne_pairwiseDisjoint.
Qed.

(** C1.  In the result of [packItems] no two distinct entries of
    [packedItems] have overlapping boxes, the overlap test being strict on
    the three axes (boxes that touch on a face, an edge or a corner do not
    overlap); and every iteration of the orchestrator preserves this. *)
Theorem packItems_boxes_do_not_overlap :
  (forall (vehicle : Vehicle) (items : list Item) (i j : nat) (p q : PackedItem),
     i <> j ->
     nth_error (packedItems (packItems vehicle items)) i = Some p ->
     nth_error (packedItems (packItems vehicle items)) j = Some q ->
     ~ ((Pos.x (position p) < Pos.x (position q) + Dim.length (orientation q) /\
         Pos.x (position q) < Pos.x (position p) + Dim.length (orientation p)) /\
        (Pos.y (position p) < Pos.y (position q) + Dim.width (orientation q) /\
         Pos.y (position q) < Pos.y (position p) + Dim.width (orientation p)) /\
        (Pos.z (position p) < Pos.z (position q) + Dim.height (orientation q) /\
         Pos.z (position q) < Pos.z (position p) + Dim.height (orientation p)))) /\
  (forall (bootSpace : BootSpace) (st : State) (iwm : ItemWithMetrics),
     pairwiseDisjoint (St.packedItems st) ->
     pairwiseDisjoint (St.packedItems (packOne bootSpace st iwm))).
Proof.
  split.
  - intros vehicle items i j p q Hij Hp Hq.
    exact (packAll_pairwiseDisjoint _ _ i j p q Hij Hp Hq).
  - exact packOne_pairwiseDisjoint.
Qed.

(** *** Containment *)

Lemma placedBy_within (bootSpace : BootSpace) (packed : list PackedItem)
    (iwm : ItemWithMetrics) (p : PackedItem) :
  placedBy bootSpace packed iwm p ->
  withinBoot (Space.length bootSpace) (Space.width bootSpace)
             (Space.height bootSpace) (orientation p) (position p).
Proof.
  intros (_ & Hpos & _). apply findBestPosition_Some in Hpos.
  now destruct Hpos as [_ [Hin _]].
Qed.

(** The placement reads the boot space only through its nominal
    dimensions and its opening: never through the volume or the
    efficiency factor. *)
Lemma packOne_geometry (l w h v1 v2 : Z) (e1 e2 : Q) (ow oh : option Z)
    (c : bool) (st : State) (iwm : ItemWithMetrics) :
  packOne (Space.mk l w h v1 e1 ow oh c) st iwm =
  packOne (Space.mk l w h v2 e2 ow oh c) st iwm.
Proof. reflexivity. Qed.

Lemma packAll_geometry (l w h v1 v2 : Z) (e1 e2 : Q) (ow oh : option Z)
    (c : bool) (items : list ItemWithMetrics) :
  packAll (Space.mk l w h v1 e1 ow oh c) items =
  packAll (Space.mk l w h v2 e2 ow oh c) items.
Proof.
  unfold packAll. generalize initialState.
  induction items as [| iwm items IH]; intros st; [reflexivity |].
  cbn [fold_left]. rewrite IH.
  now rewrite (packOne_geometry l w h v1 v2 e1 e2 ow oh c st iwm).
Qed.

(** C2.  Every entry of [packedItems] lies inside the nominal boot box:
    each coordinate of its position is at least 0 and position plus extent
    is at most the nominal length, width or height.  The efficiency factor
    plays no part in it: the irregularities of the vehicle, from which
    alone the factor is computed, change neither [packedItems] nor
    [unpackedItems]. *)
Theorem packItems_boxes_inside_nominal_boot :
  (forall (vehicle : Vehicle) (items : list Item) (p : PackedItem),
     In p (packedItems (packItems vehicle items)) ->
     (0 <= Pos.x (position p) /\
      Pos.x (position p) + Dim.length (orientation p)
        <= Boot.length (bootMeasurements vehicle)) /\
     (0 <= Pos.y (position p) /\
      Pos.y (position p) + Dim.width (orientation p)
        <= Boot.width (bootMeasurements vehicle)) /\
     (0 <= Pos.z (position p) /\
      Pos.z (position p) + Dim.height (orientation p)
        <= Boot.height (bootMeasurements vehicle))) /\
  (forall (vehicle : Vehicle) (irregularities : list BootIrregularity)
          (items : list Item),
     let vehicle' :=
       mkVehicle (makeModel vehicle) (bootMeasurements vehicle) irregularities in
     packedItems (packItems vehicle' items) = packedItems (packItems vehicle items) /\
     unpackedItems (packItems vehicle' items) = unpackedItems (packItems vehicle items)).
Proof.
  split.
  - intros vehicle items p Hp. cbn [packItems packedItems] in Hp.
    pose proof (packAll_Placed (calculateEffectiveBootSpace vehicle)
                  (preprocessItems items)) as Hpl.
    apply (Placed_Forall _ _
             (fun p => withinBoot (Boot.length (bootMeasurements vehicle))
                         (Boot.width (bootMeasurements vehicle))
                         (Boot.height (bootMeasurements vehicle))
                         (orientation p) (position p))) in Hpl.
    + rewrite Forall_forall in Hpl. specialize (Hpl p Hp).
      unfold withinBoot in Hpl. tauto.
    + intros before iwm q _ Hq. exact (placedBy_within _ _ _ _ Hq).
  - intros vehicle irregularities items vehicle'.
    unfold packItems. cbn [packedItems unpackedItems].
    unfold calculateEffectiveBootSpace, vehicle'.
    cbn [bootMeasurements bootIrregularities].
    now rewrite (packAll_geometry _ _ _ _
                   (Boot.length (bootMeasurements vehicle) *
                    Boot.width (bootMeasurements vehicle) *
                    Boot.height (bootMeasurements vehicle))
                   _ (fold_left
                        (fun e irregularity =>
                           Qmin e (capFor (severity irregularity)))
                        (bootIrregularities vehicle) (85 # 100))).
Qed.

(** *** Conservation *)

Lemma insertBy_Permutation {A : Type} (cmp : A -> A -> Z) (a : A) (l : list A) :
  Permutation (insertBy cmp a l) (a :: l).
Proof.
  induction l as [| b l IH]; cbn [insertBy]; [reflexivity |].
  destruct (cmp a b <=? 0); [reflexivity |].
  rewrite IH. apply perm_swap.
Qed.

Lemma sortBy_Permutation {A : Type} (cmp : A -> A -> Z) (l : list A) :
  Permutation (sortBy cmp l) l.
Proof.
  induction l as [| a l IH]; cbn [sortBy]; [reflexivity |].
  rewrite insertBy_Permutation. now constructor.
Qed.

Lemma preprocessItems_Permutation (items : list Item) :
  Permutation (map base (preprocessItems items)) items.
Proof.
  unfold preprocessItems. rewrite sortBy_Permutation, map_map.
  cbn [withMetrics base]. now rewrite map_id.
Qed.

Lemma preprocessItems_In (items : list Item) (iwm : ItemWithMetrics) :
  In iwm (preprocessItems items) ->
  In (base iwm) items /\ iwm = withMetrics (base iwm).
Proof.
  unfold preprocessItems. intros H.
  apply (Permutation_in _ (sortBy_Permutation compareItems _)) in H.
  apply in_map_iff in H. destruct H as (it & <- & Hit). now split.
Qed.

(** The items handled so far are exactly those in the two lists. *)
Lemma packOne_conserves (bootSpace : BootSpace) (st : State)
    (iwm : ItemWithMetrics) :
  Permutation
    (map item (St.packedItems (packOne bootSpace st iwm)) ++
     St.unpackedItems (packOne bootSpace st iwm))
    ((map item (St.packedItems st) ++ St.unpackedItems st) ++ [base iwm]).
Proof.
  destruct (packOne_cases bootSpace st iwm) as [(p & -> & Hp) | (f & ->)].
  - destruct Hp as (Hitem & _).
    cbn [pushPacked St.packedItems St.unpackedItems].
    rewrite map_app. cbn [map]. rewrite Hitem, <- !app_assoc.
    apply Permutation_app_head, Permutation_app_comm.
  - cbn [pushUnpacked St.packedItems St.unpackedItems].
    now rewrite app_assoc.
Qed.

Lemma fold_packOne_conserves (bootSpace : BootSpace)
    (l : list ItemWithMetrics) (st : State) :
  Permutation
    (map item (St.packedItems (fold_left (packOne bootSpace) l st)) ++
     St.unpackedItems (fold_left (packOne bootSpace) l st))
    ((map item (St.packedItems st) ++ St.unpackedItems st) ++ map base l).
Proof.
  revert st. induction l as [| iwm l IH]; intros st; cbn [fold_left map].
  - now rewrite app_nil_r.
  - rewrite IH, packOne_conserves, <- app_assoc. reflexivity.
Qed.

Lemma packItems_Permutation (vehicle : Vehicle) (items : list Item) :
  Permutation
    (map item (packedItems (packItems vehicle items)) ++
     unpackedItems (packItems vehicle items))
    items.
Proof.
  cbn [packItems packedItems unpackedItems]. unfold packAll.
  rewrite fold_packOne_conserves. cbn [initialState St.packedItems
    St.unpackedItems map app].
  apply preprocessItems_Permutation.
Qed.

(** C3.  [packItems] conserves the items: the two lists together hold as
    many entries as there are items, and the items of [packedItems]
    followed by [unpackedItems] are a rearrangement of the input list, so
    that every input item is in exactly one of the two lists, once. *)
Theorem packItems_conserves_items (vehicle : Vehicle) (items : list Item) :
  (List.length (packedItems (packItems vehicle items)) +
   List.length (unpackedItems (packItems vehicle items)) =
   List.length items)%nat /\
  Permutation
    (map item (packedItems (packItems vehicle items)) ++
     unpackedItems (packItems vehicle items))
    items.
Proof.
  pose proof (packItems_Permutation vehicle items) as Hperm.
  split; [| exact Hperm].
  apply Permutation_length in Hperm.
  now rewrite length_app, length_map in Hperm.
Qed.

(** *** The first box *)

Lemma Placed_head (bootSpace : BootSpace) (items : list ItemWithMetrics)
    (packed : list PackedItem) :
  Placed bootSpace items packed ->
  forall p rest, packed = p :: rest ->
  exists iwm, In iwm items /\ placedBy bootSpace [] iwm p.
Proof.
  intros Hpl. induction Hpl as [| packed q iwm Hpl IH Hin Hq];
    intros p rest Heq; [discriminate |].
  destruct packed as [| a packed'].
  - cbn [app] in Heq. injection Heq as <- _. now exists iwm.
  - cbn [app] in Heq. injection Heq as -> _. now apply (IH p packed').
Qed.

(** C10.  A search among no packed boxes that returns a position returns
    [x = boot length - orientation length, y = 0, z = 0]; in particular
    the first entry of [packedItems] stands against the far wall of the
    length axis, on the floor, in the corner. *)
Theorem first_box_goes_to_the_far_corner :
  (forall (o : ItemDimensions) (bootSpace : BootSpace) (p : Position),
     findBestPosition o bootSpace [] = Some p ->
     p = Pos.mk (Space.length bootSpace - Dim.length o) 0 0) /\
  (forall (vehicle : Vehicle) (items : list Item) (p : PackedItem)
          (rest : list PackedItem),
     packedItems (packItems vehicle items) = p :: rest ->
     position p =
     Pos.mk (Boot.length (bootMeasurements vehicle) - Dim.length (orientation p))
            0 0).
Proof.
  split; [exact findBestPosition_empty |].
  intros vehicle items p rest Heq. cbn [packItems packedItems] in Heq.
  destruct (Placed_head _ _ _ (packAll_Placed _ _) p rest Heq)
    as (iwm & _ & _ & Hpos & _).
  now apply findBestPosition_empty in Hpos.
Qed.

(** ** Compression *)

Lemma Math_round_bounds (q : Q) :
  (inject_Z (Math_round q) <= q + (1 # 2) /\
   q + (1 # 2) < inject_Z (Math_round q + 1))%Q.
Proof. unfold Math_round. split; [apply Qfloor_le | apply Qlt_floor]. Qed.

Lemma Math_round_comp (q1 q2 : Q) :
  (q1 == q2)%Q -> Math_round q1 = Math_round q2.
Proof. intros H. unfold Math_round. apply Qfloor_comp. now rewrite H. Qed.

Lemma scaled_as_fraction (d c : Z) :
  ((inject_Z d * (1 - inject_Z c / 100) + (1 # 2)) * 200 ==
   inject_Z (2 * d * (100 - c) + 100))%Q.
Proof.
  rewrite inject_Z_plus, !inject_Z_mult.
  unfold Z.sub. rewrite inject_Z_plus, inject_Z_opp. field.
Qed.

Lemma Math_round_scaled (d c : Z) :
  isRoundedScale c d (Math_round (inject_Z d * (1 - inject_Z c / 100))).
Proof.
  unfold isRoundedScale.
  destruct (Math_round_bounds (inject_Z d * (1 - inject_Z c / 100)))
    as [Hlo Hhi].
  apply (Qmult_le_compat_r _ _ 200) in Hlo; [| discriminate].
  apply (Qmult_lt_compat_r _ _ 200) in Hhi; [| reflexivity].
  rewrite scaled_as_fraction in Hlo, Hhi.
  change 200%Q with (inject_Z 200) in Hlo, Hhi.
  rewrite <- inject_Z_mult in Hlo, Hhi.
  rewrite <- Zle_Qle in Hlo. rewrite <- Zlt_Qlt in Hhi. lia.
Qed.

Lemma compressDimensions_comp (d : ItemDimensions) (f1 f2 : Q) :
  (f1 == f2)%Q -> compressDimensions d f1 = compressDimensions d f2.
Proof.
  intros H. unfold compressDimensions.
  f_equal; apply Math_round_comp; now rewrite H.
Qed.

(** In the loops the dimensions are scaled by [1 - compression / 100]. *)
Lemma compressDimensions_level (it : Item) (c : Z) :
  c <= compressibility it ->
  compressDimensions (dimensions it) (1 - actualCompression it c) =
  compressDimensions (dimensions it) (1 - inject_Z c / 100).
Proof.
  intros Hc. apply compressDimensions_comp.
  now rewrite actualCompression_level.
Qed.

Lemma generateOrientations_incl (d : ItemDimensions)
    (c : OrientationConstraints) (o : ItemDimensions) :
  In o (generateOrientations d c) -> In o (allOrientations d).
Proof.
  destruct c; cbn [generateOrientations].
  - trivial.
  - intros [<- | []]. now left.
  - intros H. now apply filter_In in H.
Qed.

(** A compressed entry of an item whose sides are positive, compressed by
    at most half, has positive sides. *)
Lemma isRoundedScale_pos (pct d r : Z) :
  isRoundedScale pct d r -> 0 < d -> pct <= 50 -> 0 < r.
Proof. unfold isRoundedScale. intros H Hd Hpct. nia. Qed.

Lemma placedBy_compression (bootSpace : BootSpace) (packed : list PackedItem)
    (iwm : ItemWithMetrics) (p : PackedItem) :
  iwm = withMetrics (base iwm) ->
  placedBy bootSpace packed iwm p ->
  (compressed p = false /\ compressionApplied p = 0%Q /\
   In (orientation p)
      (generateOrientations (dimensions (item p))
                            (orientationConstraints (item p)))) \/
  (compressed p = true /\
   exists pct : Z,
     (compressionApplied p == inject_Z pct)%Q /\
     5 <= pct <= compressibility (item p) /\ (5 | pct) /\
     In (orientation p)
        (generateOrientations
           (compressDimensions (dimensions (item p)) (1 - inject_Z pct / 100))
           (orientationConstraints (item p)))).
Proof.
  intros Hiwm (Hitem & _ & _ & [(Hc & Happ & Hin) | (Hc & c & Hlevel & Happ & Hin)]).
  - left. rewrite Hitem. rewrite Hiwm in Hin. cbn [orientations withMetrics] in Hin.
    auto.
  - right. split; [assumption |]. exists c. rewrite Hitem.
    apply compressionLevels_spec in Hlevel. destruct Hlevel as (k & Hk & Hle).
    split; [| split; [lia | split]].
    + rewrite Happ. now apply actualCompression_times_100.
    + exists (1 + Z.of_nat k). lia.
    + now rewrite <- compressDimensions_level.
Qed.

Lemma isRoundedScale_nearest (pct d r : Z) :
  isRoundedScale pct d r -> isNearestScale pct d r.
Proof. unfold isRoundedScale, isNearestScale. lia. Qed.

Lemma compressDimensions_nearestScaled (pct : Z) (d : ItemDimensions) :
  nearestScaled pct d (compressDimensions d (1 - inject_Z pct / 100)).
Proof.
  unfold nearestScaled, compressDimensions.
  cbn [Dim.length Dim.width Dim.height].
  repeat split; apply isRoundedScale_nearest, Math_round_scaled.
Qed.

Lemma Math_round_inject_Z (c : Z) : Math_round (inject_Z c) = c.
Proof.
  unfold Math_round, Qplus, inject_Z, Qfloor. cbn [Qnum Qden].
  change (Z.pos (1 * 2)) with 2. symmetry.
  apply Z.div_unique with 1; lia.
Qed.




(** ** Items that are never packed *)

(** An item none of whose placements is possible is in [unpackedItems]. *)
Lemma never_placed_is_unpacked (vehicle : Vehicle) (items : list Item)
    (it : Item) :
  (forall before iwm p,
     iwm = withMetrics it ->
     ~ placedBy (calculateEffectiveBootSpace vehicle) before iwm p) ->
  In it items ->
  In it (unpackedItems (packItems vehicle items)) /\
  ~ In it (map item (packedItems (packItems vehicle items))).
Proof.
  intros Hnever Hin.
  assert (Hnot : ~ In it (map item (packedItems (packItems vehicle items)))).
  { cbn [packItems packedItems].
    pose proof (packAll_Placed (calculateEffectiveBootSpace vehicle)
                  (preprocessItems items)) as Hpl.
    apply (Placed_Forall _ _ (fun p => item p <> it)) in Hpl.
    - rewrite Forall_forall in Hpl. intros Hmap. apply in_map_iff in Hmap.
      destruct Hmap as (p & Hitem & Hp). exact (Hpl p Hp Hitem).
    - intros before iwm p Hiwm Hp Hitem. apply preprocessItems_In in Hiwm.
      destruct Hiwm as [_ Hiwm]. apply (Hnever before iwm p); [| exact Hp].
      destruct Hp as (Hbase & _). congruence. }
  split; [| exact Hnot].
  pose proof (packItems_Permutation vehicle items) as Hperm.
  apply Permutation_sym in Hperm.
  apply (Permutation_in _ Hperm) in Hin. apply in_app_or in Hin.
  destruct Hin as [Hin | Hin]; [contradiction | exact Hin].
Qed.




(** A cube of positive side has no flat orientation. *)
Lemma flat_cube_no_orientation (s : Z) :
  0 < s -> generateOrientations (Dim.mk s s s) flat_only = [].
Proof.
  intros Hs. cbn [generateOrientations allOrientations Dim.length Dim.width
    Dim.height filter].
  assert (Hflat : isFlat (Dim.mk s s s) (Dim.mk s s s) = false).
  { unfold isFlat. cbn [Dim.length Dim.width Dim.height].
    rewrite Z.max_id. destruct (Qle_bool _ _) eqn:Hle; [| reflexivity].
    exfalso. apply Qle_bool_iff in Hle.
    unfold Qle in Hle. cbn [Qnum Qden inject_Z Qmult] in Hle. lia. }
  now rewrite Hflat.
Qed.

Lemma compressDimensions_cube (s : Z) (f : Q) :
  compressDimensions (Dim.mk s s s) f =
  Dim.mk (Math_round (inject_Z s * f)) (Math_round (inject_Z s * f))
         (Math_round (inject_Z s * f)).
Proof. reflexivity. Qed.

(** C9.  A [flat_only] item that is a cube, with the positive side and
    the compressibility of 0 to 30 of the data model, is in
    [unpackedItems] and not in [packedItems], whatever the boot, its
    opening and the other items: the flat filter leaves it no orientation,
    neither as it is nor at any compression level, since the compressed
    item is again a cube of positive side. *)
Theorem flat_only_cube_is_unpacked
    (vehicle : Vehicle) (items : list Item) (it : Item) (s : Z) :
  orientationConstraints it = flat_only ->
  dimensions it = Dim.mk s s s ->
  0 < s ->
  compressibilityInRange it ->
  In it items ->
  (In it (unpackedItems (packItems vehicle items)) /\
   ~ In it (map item (packedItems (packItems vehicle items)))) /\
  generateOrientations (dimensions it) (orientationConstraints it) = [] /\
  (forall pct,
     5 <= pct <= compressibility it ->
     generateOrientations
       (compressDimensions (dimensions it) (1 - inject_Z pct / 100))
       (orientationConstraints it) = []).
Proof.
  intros Hflat Hcube Hs Hrange Hin.
  assert (Hplain :
            generateOrientations (dimensions it) (orientationConstraints it) = []).
  { rewrite Hflat, Hcube. now apply flat_cube_no_orientation. }
  assert (Hlevels : forall pct,
            5 <= pct <= compressibility it ->
            generateOrientations
              (compressDimensions (dimensions it) (1 - inject_Z pct / 100))
              (orientationConstraints it) = []).
  { intros pct Hpct. rewrite Hflat, Hcube, compressDimensions_cube.
    apply flat_cube_no_orientation.
    apply (isRoundedScale_pos pct s); [apply Math_round_scaled | exact Hs |].
    unfold compressibilityInRange in Hrange. lia. }
  split; [| split; assumption].
  apply never_placed_is_unpacked; [| exact Hin].
  intros before iwm p Hiwm Hp.
  pose proof (placedBy_compression _ _ _ _
                (eq_trans Hiwm (f_equal withMetrics
                   (eq_sym (f_equal base Hiwm)))) Hp) as Hcases.
  destruct Hp as (Hitem & _).
  assert (Hit : item p = it) by (rewrite Hitem, Hiwm; reflexivity).
  rewrite Hit in Hcases.
  destruct Hcases as [(_ & _ & Ho) | (_ & pct & _ & Hpct & _ & Ho)].
  - rewrite Hplain in Ho. destruct Ho.
  - rewrite (Hlevels pct Hpct) in Ho. destruct Ho.
Qed.

(** ** Utilization *)

Lemma packedVolume_app (l1 l2 : list PackedItem) :
  packedVolume (l1 ++ l2) = packedVolume l1 + packedVolume l2.
Proof.
  induction l1 as [| p l1 IH]; cbn [app packedVolume fold_right]; [reflexivity |].
  fold (packedVolume (l1 ++ l2)). fold (packedVolume l1). lia.
Qed.

Lemma packAll_totalVolumeUsed (bootSpace : BootSpace)
    (items : list ItemWithMetrics) :
  St.totalVolumeUsed (packAll bootSpace items) =
  packedVolume (St.packedItems (packAll bootSpace items)).
Proof.
  apply (packAll_invariant bootSpace
           (fun st => St.totalVolumeUsed st = packedVolume (St.packedItems st))).
  - reflexivity.
  - intros st iwm _ Hst.
    destruct (packOne_cases bootSpace st iwm) as [(p & -> & _) | (f & ->)].
    + cbn [pushPacked St.totalVolumeUsed St.packedItems].
      rewrite packedVolume_app, Hst. cbn [packedVolume fold_right]. lia.
    + exact Hst.
Qed.

Lemma allOrientations_positive (d o : ItemDimensions) :
  In o (allOrientations d) -> positiveSides d -> positiveSides o.
Proof.
  unfold allOrientations, positiveSides.
  intros H (Hl & Hw & Hh).
  repeat (destruct H as [<- | H]; [cbn [Dim.length Dim.width Dim.height]; auto |]).
  destruct H.
Qed.

Lemma compressDimensions_positive (d : ItemDimensions) (pct : Z) :
  positiveSides d -> pct <= 50 ->
  positiveSides (compressDimensions d (1 - inject_Z pct / 100)).
Proof.
  intros (Hl & Hw & Hh) Hpct. unfold positiveSides, compressDimensions.
  cbn [Dim.length Dim.width Dim.height].
  repeat split;
    match goal with
    | |- 0 < Math_round (inject_Z ?s * _) =>
        apply (isRoundedScale_pos pct s);
        [apply Math_round_scaled | assumption | assumption]
    end.
Qed.

(** Every packed orientation of a valid item has positive sides. *)
Lemma packItems_positiveSides (vehicle : Vehicle) (items : list Item) :
  Forall validItem items ->
  Forall (fun p => positiveSides (orientation p))
         (packedItems (packItems vehicle items)).
Proof.
  intros Hvalid. cbn [packItems packedItems].
  apply (Placed_Forall (calculateEffectiveBootSpace vehicle)
           (preprocessItems items)); [| apply packAll_Placed].
  intros before iwm p Hiwm Hp. apply preprocessItems_In in Hiwm.
  destruct Hiwm as [Hbase Hiwm].
  pose proof (placedBy_compression _ _ _ _ Hiwm Hp) as Hcases.
  destruct Hp as (Hitem & _). rewrite Hitem in Hcases.
  rewrite Forall_forall in Hvalid.
  destruct (Hvalid _ Hbase) as [Hsides Hrange].
  unfold compressibilityInRange in Hrange.
  destruct Hcases as [(_ & _ & Ho) | (_ & pct & _ & Hpct & _ & Ho)];
    apply generateOrientations_incl in Ho.
  - exact (allOrientations_positive _ _ Ho Hsides).
  - apply (allOrientations_positive _ _ Ho).
    apply compressDimensions_positive; [exact Hsides | lia].
Qed.

Lemma packedVolume_nonneg (packed : list PackedItem) :
  Forall (fun p => positiveSides (orientation p)) packed ->
  0 <= packedVolume packed /\ (packed <> [] -> 0 < packedVolume packed).
Proof.
  intros H. induction H as [| p packed (Hl & Hw & Hh) _ IH].
  - split; [reflexivity | congruence].
  - cbn [packedVolume fold_right]. fold (packedVolume packed).
    unfold calculateItemVolume.
    assert (0 < Dim.length (orientation p) * Dim.width (orientation p) *
                Dim.height (orientation p)) by (repeat apply Z.mul_pos_pos; assumption).
    split; [lia | intros _; lia].
Qed.

Lemma capFor_pos (s : IrregularitySeverity) : (0 < capFor s)%Q.
Proof. destruct s; reflexivity. Qed.

Lemma efficiencyFactor_pos (vehicle : Vehicle) :
  (0 < Space.efficiencyFactor (calculateEffectiveBootSpace vehicle))%Q.
Proof.
  cbn [calculateEffectiveBootSpace Space.efficiencyFactor].
  assert (H : (0 < 85 # 100)%Q) by reflexivity. revert H.
  generalize (85 # 100). induction (bootIrregularities vehicle) as [| irr l IH];
    intros e He; cbn [fold_left]; [exact He |].
  apply IH. apply Q.min_glb_lt; [exact He | apply capFor_pos].
Qed.

Lemma effectiveBootVolume_pos (vehicle : Vehicle) :
  validBoot (bootMeasurements vehicle) ->
  (0 < bootSpaceAvailable (packItems vehicle []))%Q.
Proof.
  intros (Hl & Hw & Hh). cbn [packItems bootSpaceAvailable].
  apply Qmult_lt_0_compat; [| apply efficiencyFactor_pos].
  cbn [calculateEffectiveBootSpace Space.volume].
  change 0%Q with (inject_Z 0). rewrite <- Zlt_Qlt.
  repeat apply Z.mul_pos_pos; assumption.
Qed.

Lemma utilization_spec (total : Z) (effective : Q) :
  (0 < effective)%Q -> 0 <= total ->
  exists u,
    utilization total effective = Some u /\
    (u == Qmin 100 (100 * inject_Z total / effective))%Q /\
    (0 <= u <= 100)%Q /\
    ((u == 0)%Q <-> total = 0).
Proof.
  intros Heff Htotal. unfold utilization.
  destruct (Qeq_bool effective 0) eqn:Hz.
  { apply Qeq_bool_iff in Hz. rewrite Hz in Heff. discriminate. }
  eexists. split; [reflexivity |].
  assert (Hne : ~ (effective == 0)%Q).
  { intros H. rewrite H in Heff. discriminate. }
  assert (Hform : (inject_Z total / effective * 100 ==
                   100 * inject_Z total / effective)%Q) by (field; exact Hne).
  assert (Hq : (0 <= inject_Z total / effective * 100)%Q).
  { apply Qmult_le_0_compat; [| discriminate].
    apply Qle_shift_div_l; [exact Heff |]. rewrite Qmult_0_l.
    change 0%Q with (inject_Z 0). now rewrite <- Zle_Qle. }
  split; [| split; [split |]].
  - rewrite Q.min_comm. now rewrite Hform.
  - apply Q.min_glb; [exact Hq | discriminate].
  - apply Q.le_min_r.
  - split.
    + intros Hu. destruct (Z.eq_dec total 0) as [| Hne0]; [assumption |].
      exfalso.
      assert (Hpos : (0 < inject_Z total / effective * 100)%Q).
      { apply Qmult_lt_0_compat; [| reflexivity].
        apply Qlt_shift_div_l; [exact Heff |]. rewrite Qmult_0_l.
        change 0%Q with (inject_Z 0). rewrite <- Zlt_Qlt. lia. }
      assert (Hmin : (0 < Qmin (inject_Z total / effective * 100) 100)%Q)
        by (apply Q.min_glb_lt; [exact Hpos | reflexivity]).
      rewrite Hu in Hmin. discriminate.
    + intros ->. rewrite Q.min_l.
      * field. exact Hne.
      * setoid_replace (inject_Z 0 / effective * 100)%Q with 0%Q
          by (field; exact Hne).
        discriminate.
Qed.

(** The total of the engine is the sum of the products of the sides. *)
Lemma packedVolume_explicit (packed : list PackedItem) :
  packedVolume packed = sumOfBoxVolumes packed.
Proof.
  unfold packedVolume, sumOfBoxVolumes.
  induction packed as [| p l IH]; cbn [fold_right map]; [reflexivity |].
  now rewrite IH.
Qed.

(** The factor left by the loop over the irregularities. *)
Lemma fold_Qmin_worstCaseFactor (irregularities : list BootIrregularity) :
  fold_left (fun e irregularity => Qmin e (capFor (severity irregularity)))
            irregularities (85 # 100) =
  worstCaseFactor irregularities.
Proof.
  unfold worstCaseFactor.
  assert (H : forall l (e : Q) (sig mod_ min_ : bool),
             e = (if sig then 70 # 100 else if mod_ then 75 # 100
                  else if min_ then 80 # 100 else 85 # 100) ->
             fold_left (fun e irregularity =>
                          Qmin e (capFor (severity irregularity))) l e =
             (if sig || existsb (hasSeverity SIGNIFICANT) l then 70 # 100
              else if mod_ || existsb (hasSeverity MODERATE) l then 75 # 100
              else if min_ || existsb (hasSeverity MINOR) l then 80 # 100
              else 85 # 100)).
  { induction l as [| irr l IH]; intros e sig mod_ min_ He.
    - cbn [fold_left existsb]. now rewrite !orb_false_r.
    - cbn [fold_left existsb].
      destruct irr as [ty sev]. unfold hasSeverity at 1 3 5.
      cbn [severity].
      destruct sev.
      + rewrite (IH _ sig mod_ true).
        * cbn [orb]. now rewrite !orb_true_r || destruct min_.
        * subst e. destruct sig, mod_, min_; reflexivity.
      + rewrite (IH _ sig true min_).
        * cbn [orb]. destruct mod_; reflexivity.
        * subst e. destruct sig, mod_, min_; reflexivity.
      + rewrite (IH _ true mod_ min_).
        * cbn [orb]. destruct sig; reflexivity.
        * subst e. destruct sig, mod_, min_; reflexivity. }
  now rewrite (H irregularities _ false false false eq_refl).
Qed.

(** C6.  For a boot of positive dimensions and items of positive
    dimensions with compressibility from 0 to 30, [volumeUtilization] is
    [min(100, 100 * (sum of the packed orientation volumes) / (nominal
    volume * efficiency factor))], lies between 0 and 100, and is 0
    exactly when [packedItems] is empty.  The sum is written out as the
    sum of length times width times height of the packed orientations,
    the nominal volume as length times width times height of the boot,
    and the efficiency factor as 0.70, 0.75, 0.80 or 0.85 by the worst
    severity present. *)
Theorem volumeUtilization_formula_and_bounds
    (vehicle : Vehicle) (items : list Item) :
  validBoot (bootMeasurements vehicle) ->
  Forall validItem items ->
  let result := packItems vehicle items in
  let nominalVolume :=
    Boot.length (bootMeasurements vehicle) *
    Boot.width (bootMeasurements vehicle) *
    Boot.height (bootMeasurements vehicle) in
  let efficiencyFactor := worstCaseFactor (bootIrregularities vehicle) in
  exists u : Q,
    volumeUtilization result = Some u /\
    (u == Qmin 100 (100 * inject_Z (sumOfBoxVolumes (packedItems result)) /
                    (inject_Z nominalVolume * efficiencyFactor)))%Q /\
    (0 <= u <= 100)%Q /\
    ((u == 0)%Q <-> packedItems result = []).
Proof.
  intros Hboot Hitems result nominalVolume efficiencyFactor.
  pose proof (packItems_positiveSides vehicle items Hitems) as Hsides.
  apply packedVolume_nonneg in Hsides. destruct Hsides as [Hnonneg Hpos].
  pose proof (effectiveBootVolume_pos vehicle Hboot) as Heff.
  cbn [packItems bootSpaceAvailable] in Heff.
  subst result. cbn [packItems volumeUtilization packedItems] in *.
  rewrite packAll_totalVolumeUsed.
  destruct (utilization_spec _ _ Heff Hnonneg) as (u & Hu & Hform & Hbounds & Hzero).
  exists u. split; [exact Hu |]. split.
  { rewrite <- packedVolume_explicit. subst efficiencyFactor.
    rewrite <- (fold_Qmin_worstCaseFactor (bootIrregularities vehicle)).
    exact Hform. }
  split; [exact Hbounds |]. rewrite Hzero. split.
  - intros Hvol.
    destruct (St.packedItems (packAll (calculateEffectiveBootSpace vehicle)
                                (preprocessItems items))) as [| p l];
      [reflexivity |].
    assert (p :: l <> []) by discriminate. specialize (Hpos H). lia.
  - intros ->. reflexivity.
Qed.

(** ** An empty list of items *)

(** C8, counterexample.  For an empty list of items and a plain boot of
    1000 x 1000 x 500 the result carries no warning at all, so none that
    signals the empty input. *)
Lemma empty_item_list_gets_no_warning :
  ~ (exists w : Warning, In w (warnings (packItems (plainBoot 1000 1000 500) []))).
Proof. intros (w & Hw). vm_compute in Hw. exact Hw. Qed.

(** C8, amended.  With an empty list of items and a boot of positive
    dimensions [packItems] returns [packedItems = []],
    [unpackedItems = []], [volumeUtilization = 0] and [bootSpaceUsed = 0].
    No warning signals the empty input: the warnings are those the
    vehicle causes by itself (significant irregularities, an opening
    under 60% of the cross-section of the boot), and a vehicle without
    irregularities and without a declared opening gets none. *)
Theorem packItems_of_no_items (vehicle : Vehicle) :
  validBoot (bootMeasurements vehicle) ->
  let result := packItems vehicle [] in
  packedItems result = [] /\
  unpackedItems result = [] /\
  (exists u : Q, volumeUtilization result = Some u /\ (u == 0)%Q) /\
  bootSpaceUsed result = 0 /\
  cabinOverflowSuggested result = [] /\
  warnings result = vehicleWarnings vehicle /\
  (forall w, In w (warnings result) ->
             w = SignificantIrregularities \/ w = OpeningLimitsCapacity) /\
  (bootIrregularities vehicle = [] ->
   Boot.openingWidth (bootMeasurements vehicle) = None ->
   Boot.openingHeight (bootMeasurements vehicle) = None ->
   warnings result = []).
Proof.
  intros Hboot result.
  assert (Hwarn : warnings result = vehicleWarnings vehicle).
  { subst result. unfold packItems, vehicleWarnings, collectWarnings.
    cbn [warnings preprocessItems map sortBy packAll fold_left initialState
         St.itemsRejectedByOpening St.itemsRequiringCompression
         St.packedItems St.unpackedItems List.length existsb].
    destruct (Space.hasOpeningConstraints (calculateEffectiveBootSpace vehicle));
      [| reflexivity].
    cbn [Z.ltb Z.compare Nat.ltb Nat.leb when app]. now rewrite app_nil_r. }
  repeat split; try reflexivity.
  - destruct (utilization_spec 0 _ (effectiveBootVolume_pos vehicle Hboot)
                (Z.le_refl 0)) as (u & Hu & _ & _ & Hzero).
    exists u. split; [exact Hu | now apply Hzero].
  - exact Hwarn.
  - rewrite Hwarn. unfold vehicleWarnings, when. intros w Hw.
    apply in_app_or in Hw. destruct Hw as [Hw | Hw].
    + destruct (existsb isSignificant (bootIrregularities vehicle));
        [destruct Hw as [<- | []]; now left | destruct Hw].
    + destruct (Space.hasOpeningConstraints (calculateEffectiveBootSpace vehicle));
        [| destruct Hw].
      destruct (openingLimitsCapacity (calculateEffectiveBootSpace vehicle));
        [destruct Hw as [<- | []]; now right | destruct Hw].
  - intros Hirr Hw Hh. rewrite Hwarn. unfold vehicleWarnings.
    cbn [calculateEffectiveBootSpace Space.hasOpeningConstraints].
    now rewrite Hirr, Hw, Hh.
Qed.

(** * Instances

    The theorems above at concrete vehicles and items. *)

Lemma packItems_boxes_do_not_overlap_witness :
  nth_error (packedItems (packItems (plainBoot 1000 1000 500) twoBoxes)) 0
    = Some largerPacked /\
  nth_error (packedItems (packItems (plainBoot 1000 1000 500) twoBoxes)) 1
    = Some smallerPacked /\
  ~ packedOverlap largerPacked smallerPacked.
Proof.
  split; [vm_compute; reflexivity |]. split; [vm_compute; reflexivity |].
  apply (proj1 packItems_boxes_do_not_overlap
           (plainBoot 1000 1000 500) twoBoxes 0%nat 1%nat
           largerPacked smallerPacked).
  - discriminate.
  - vm_compute. reflexivity.
  - vm_compute. reflexivity.
Defined.

Lemma packItems_boxes_inside_nominal_boot_witness :
  In largerPacked (packedItems (packItems (plainBoot 1000 1000 500) twoBoxes)) /\
  withinBoot 1000 1000 500 (orientation largerPacked) (position largerPacked).
Proof.
  assert (Hin : In largerPacked
                   (packedItems (packItems (plainBoot 1000 1000 500) twoBoxes)))
    by (vm_compute; left; reflexivity).
  split; [exact Hin |].
  pose proof (proj1 packItems_boxes_inside_nominal_boot
                (plainBoot 1000 1000 500) twoBoxes largerPacked Hin) as H.
  unfold withinBoot. cbn [plainBoot bootMeasurements Boot.length Boot.width
    Boot.height] in H. tauto.
Defined.



Lemma volumeUtilization_formula_and_bounds_witness :
  validBoot (bootMeasurements (plainBoot 1000 1000 500)) /\
  Forall validItem twoBoxes /\
  exists u : Q,
    volumeUtilization (packItems (plainBoot 1000 1000 500) twoBoxes) = Some u /\
    (0 <= u <= 100)%Q.
Proof.
  assert (Hboot : validBoot (bootMeasurements (plainBoot 1000 1000 500))).
  { unfold validBoot. cbn [plainBoot bootMeasurements Boot.length Boot.width
      Boot.height]. lia. }
  assert (Hitems : Forall validItem twoBoxes).
  { repeat constructor;
      unfold positiveSides, compressibilityInRange;
      cbn [box dimensions compressibility Dim.length Dim.width Dim.height];
      lia. }
  split; [exact Hboot |]. split; [exact Hitems |].
  destruct (volumeUtilization_formula_and_bounds
              (plainBoot 1000 1000 500) twoBoxes Hboot Hitems)
    as (u & Hu & _ & Hbounds & _).
  exists u. split; [exact Hu | exact Hbounds].
Defined.


Lemma packItems_of_no_items_witness :
  validBoot (bootMeasurements (plainBoot 1000 1000 500)) /\
  packedItems (packItems (plainBoot 1000 1000 500) []) = [] /\
  warnings (packItems (plainBoot 1000 1000 500) []) = [].
Proof.
  assert (Hboot : validBoot (bootMeasurements (plainBoot 1000 1000 500))).
  { unfold validBoot. cbn [plainBoot bootMeasurements Boot.length Boot.width
      Boot.height]. lia. }
  split; [exact Hboot |].
  destruct (packItems_of_no_items (plainBoot 1000 1000 500) Hboot)
    as (Hpacked & _ & _ & _ & _ & _ & _ & Hnone).
  split; [exact Hpacked |]. apply Hnone; reflexivity.
Defined.

Lemma flat_only_cube_is_unpacked_witness :
  In flatCube (unpackedItems (packItems (plainBoot 1000 1000 500) [flatCube])) /\
  ~ In flatCube
       (map item (packedItems (packItems (plainBoot 1000 1000 500) [flatCube]))).
Proof.
  apply (flat_only_cube_is_unpacked (plainBoot 1000 1000 500) [flatCube]
           flatCube 300).
  - reflexivity.
  - reflexivity.
  - lia.
  - unfold compressibilityInRange. cbn [flatCube box compressibility]. lia.
  - left. reflexivity.
Defined.

Lemma first_box_goes_to_the_far_corner_witness :
  findBestPosition (Dim.mk 400 300 200)
    (calculateEffectiveBootSpace (plainBoot 1000 1000 500)) [] =
  Some (Pos.mk 600 0 0) /\
  Pos.mk 600 0 0 = Pos.mk (1000 - 400) 0 0.
Proof.
  assert (Hfind : findBestPosition (Dim.mk 400 300 200)
                    (calculateEffectiveBootSpace (plainBoot 1000 1000 500)) [] =
                  Some (Pos.mk 600 0 0)) by (vm_compute; reflexivity).
  split; [exact Hfind |].
  exact (proj1 first_box_goes_to_the_far_corner (Dim.mk 400 300 200)
           (calculateEffectiveBootSpace (plainBoot 1000 1000 500))
           (Pos.mk 600 0 0) Hfind).
Defined.

(** ** Scenarios of the test suite *)

Example small_suitcase_is_packed :
  packedItems (packItems mockVehicle [smallRigidItem]) =
    [mkPacked smallRigidItem (Pos.mk 600 0 0) (Dim.mk 400 300 200) false 0] /\
  unpackedItems (packItems mockVehicle [smallRigidItem]) = [].
Proof. split; vm_compute; reflexivity. Qed.

Example oversized_box_is_unpacked :
  packedItems (packItems mockVehicle [oversizedItem]) = [] /\
  unpackedItems (packItems mockVehicle [oversizedItem]) = [oversizedItem].
Proof. split; vm_compute; reflexivity. Qed.

Example duffel_bag_fits_uncompressed :
  packedItems (packItems (plainBoot 650 350 350) [flexibleItem]) =
    [mkPacked flexibleItem (Pos.mk 50 0 0) (Dim.mk 600 300 300) false 0].
Proof. vm_compute. reflexivity. Qed.

Example soft_cube_is_compressed_by_ten_percent :
  packedItems (packItems (plainBoot 1000 1000 1000) [softCube]) =
    [softCubePacked] /\
  (compressionApplied softCubePacked == 10)%Q.
Proof. split; vm_compute; reflexivity. Qed.

Example wide_flat_item_is_rejected_by_the_opening :
  packedItems (packItems vehicleWithSmallOpening
                 [itemThatFitsInBootButNotOpening]) = [] /\
  unpackedItems (packItems vehicleWithSmallOpening
                   [itemThatFitsInBootButNotOpening]) =
    [itemThatFitsInBootButNotOpening] /\
  warnings (packItems vehicleWithSmallOpening
              [itemThatFitsInBootButNotOpening]) = [RejectedByOpening 1].
Proof. repeat split; vm_compute; reflexivity. Qed.

Example upright_item_is_rejected_by_the_opening :
  packedItems (packItems vehicleWithSmallOpening [uprightItemThatCantRotate]) = [] /\
  unpackedItems (packItems vehicleWithSmallOpening [uprightItemThatCantRotate]) =
    [uprightItemThatCantRotate].
Proof. split; vm_compute; reflexivity. Qed.

Example tight_fit_item_gets_the_clearance_warning :
  warnings (packItems vehicleWithSmallOpening [itemAlmostFittingOpening]) =
    [RejectedByOpening 1; TightClearance].
Proof. vm_compute. reflexivity. Qed.

Example rejection_warning_text :
  warningText (RejectedByOpening 1) =
  "1 item(s) could not fit through the boot opening despite fitting in the boot space"%string.
Proof. vm_compute. reflexivity. Qed.

(** ** Where the hypotheses on the data are needed *)

(** An opening dimension of 0 is an absent one: the item passes. *)
Example zero_opening_is_no_opening :
  Space.hasOpeningConstraints
    (calculateEffectiveBootSpace
       (mkVehicle "Zero Opening" (Boot.mk 1000 1000 500 (Some 0) (Some 0)) []))
  = false /\
  unpackedItems
    (packItems (mkVehicle "Zero Opening" (Boot.mk 1000 1000 500 (Some 0) (Some 0)) [])
               [smallRigidItem]) = [].
Proof. split; vm_compute; reflexivity. Qed.

(** Beyond the data model a side can round to 0, and a box without
    extent passes the flat test: a 1 mm cube of compressibility 55 is
    packed at 55%. *)
Example tiny_cube_beyond_the_data_model :
  map orientation
      (packedItems (packItems mockVehicle [box 1 1 1 flat_only 55])) =
  [Dim.mk 0 0 0].
Proof. vm_compute. reflexivity. Qed.

(** * Further properties of the engine *)

(** ** The efficiency factor *)

(** X1.  The efficiency factor is set by the worst severity present among
    the irregularities (0.70, 0.75, 0.80, or 0.85 without any): the
    factors of several irregularities do not compound, and the available
    space is the nominal volume times that factor. *)
Theorem efficiency_factor_is_set_by_the_worst_severity
    (vehicle : Vehicle) (items : list Item) :
  Space.efficiencyFactor (calculateEffectiveBootSpace vehicle) =
    worstCaseFactor (bootIrregularities vehicle) /\
  bootSpaceAvailable (packItems vehicle items) =
    (inject_Z (Boot.length (bootMeasurements vehicle) *
               Boot.width (bootMeasurements vehicle) *
               Boot.height (bootMeasurements vehicle)) *
     worstCaseFactor (bootIrregularities vehicle))%Q.
Proof.
  split.
  - apply fold_Qmin_worstCaseFactor.
  - unfold packItems. cbn [bootSpaceAvailable].
    unfold calculateEffectiveBootSpace.
    cbn [Space.volume Space.efficiencyFactor].
    now rewrite fold_Qmin_worstCaseFactor.
Qed.

(** ** Orientations *)

Lemma allOrientations_sides (d o : ItemDimensions) :
  In o (allOrientations d) -> Permutation (sides o) (sides d).
Proof.
  unfold allOrientations, sides. cbn [In].
  intros [H | [H | [H | [H | [H | [H | []]]]]]]; subst o; cbn [Dim.length Dim.width Dim.height].
  - reflexivity.
  - apply perm_swap.
  - eapply perm_trans; [apply perm_swap |].
    eapply perm_trans; [apply perm_skip, perm_swap |].
    apply perm_swap.
  - apply perm_skip, perm_swap.
  - eapply perm_trans; [apply perm_skip, perm_swap |]. apply perm_swap.
  - eapply perm_trans; [apply perm_swap |]. apply perm_skip, perm_swap.
Qed.

Lemma sides_volume (d o : ItemDimensions) :
  Permutation (sides o) (sides d) -> calculateItemVolume o = calculateItemVolume d.
Proof.
  intros H.
  assert (Hp : forall l1 l2 : list Z, Permutation l1 l2 ->
               fold_right Z.mul 1 l1 = fold_right Z.mul 1 l2).
  { induction 1; cbn [fold_right]; lia. }
  apply Hp in H. unfold sides in H. cbn [fold_right] in H.
  unfold calculateItemVolume. lia.
Qed.

(** X2.  Every orientation that [generateOrientations] offers has the
    sides of the item in some order, so also its volume; there are at
    most six; [upright_only] offers the item as it is, and [any] always
    includes it. *)
Theorem generateOrientations_rearranges_the_sides
    (d : ItemDimensions) (c : OrientationConstraints) :
  (forall o, In o (generateOrientations d c) ->
             Permutation (sides o) (sides d) /\
             calculateItemVolume o = calculateItemVolume d) /\
  (List.length (generateOrientations d c) <= 6)%nat /\
  (c = upright_only -> generateOrientations d c = [d]) /\
  (c = any -> In d (generateOrientations d c)).
Proof.
  repeat split.
  - now apply allOrientations_sides, generateOrientations_incl with c.
  - now apply sides_volume, allOrientations_sides, generateOrientations_incl with c.
  - destruct c; cbn [generateOrientations].
    + cbn. lia.
    + cbn. lia.
    + etransitivity; [apply filter_length_le |]. cbn. lia.
  - intros ->. now destruct d.
  - intros ->. destruct d. cbn. now left.
Qed.

Lemma generateOrientations_rearranges_the_sides_witness :
  Permutation (sides (Dim.mk 300 400 200)) (sides (Dim.mk 400 300 200)) /\
  generateOrientations (Dim.mk 400 300 200) upright_only = [Dim.mk 400 300 200].
Proof.
  split.
  - apply (generateOrientations_rearranges_the_sides (Dim.mk 400 300 200) any).
    cbn. right. now left.
  - now apply (generateOrientations_rearranges_the_sides (Dim.mk 400 300 200) upright_only).
Defined.

(** ** The position search *)

Lemma onGrid_fitsBoot (o : ItemDimensions) (bootSpace : BootSpace) (p : Position) :
  onGrid o bootSpace p -> fitsBoot o bootSpace.
Proof.
  intros (i & j & k & Hx & Hx0 & Hy & Hyb & Hz & Hzb).
  unfold fitsBoot, stepSize in *. lia.
Qed.

Lemma findBestPosition_None (o : ItemDimensions) (bootSpace : BootSpace)
    (packed : list PackedItem) :
  findBestPosition o bootSpace packed = None <->
  forall p, onGrid o bootSpace p -> acceptable o bootSpace packed p = false.
Proof.
  rewrite findBestPosition_find. split.
  - intros H p Hp. apply (find_none _ _ H). now apply In_scanOrder.
  - intros H.
    destruct (find _ _) as [p |] eqn:E; [| reflexivity].
    apply find_some in E. destruct E as [Hin Hok].
    apply In_scanOrder in Hin. rewrite (H p Hin) in Hok. discriminate.
Qed.

Lemma corner_onGrid (o : ItemDimensions) (bootSpace : BootSpace) :
  fitsBoot o bootSpace ->
  onGrid o bootSpace (Pos.mk (Space.length bootSpace - Dim.length o) 0 0).
Proof.
  intros (Hl & Hw & Hh). exists O, O, O.
  cbn [Pos.x Pos.y Pos.z]. unfold stepSize. lia.
Qed.

Lemma findBestPosition_corner (o : ItemDimensions) (bootSpace : BootSpace) :
  fitsBoot o bootSpace ->
  findBestPosition o bootSpace [] =
  Some (Pos.mk (Space.length bootSpace - Dim.length o) 0 0).
Proof.
  intros Hfit.
  destruct (findBestPosition o bootSpace []) as [p |] eqn:E.
  - f_equal. now apply findBestPosition_empty.
  - exfalso.
    pose proof (proj1 (findBestPosition_None _ _ _) E _ (corner_onGrid _ _ Hfit)) as H.
    assert (Hacc : acceptable o bootSpace []
              (Pos.mk (Space.length bootSpace - Dim.length o) 0 0) = true).
    { apply acceptable_true. cbn [Pos.x Pos.y Pos.z].
      destruct Hfit as (Hl & Hw & Hh). split; [lia | intros q []]. }
    congruence.
Qed.

Lemma findBestPosition_oversize (o : ItemDimensions) (bootSpace : BootSpace)
    (packed : list PackedItem) :
  ~ fitsBoot o bootSpace -> findBestPosition o bootSpace packed = None.
Proof.
  intros Hno. apply findBestPosition_None.
  intros p Hp. exfalso. apply Hno. now apply onGrid_fitsBoot with p.
Qed.

(** X3.  In a boot with nothing packed, the position search succeeds
    exactly when the orientation is no longer, wider or higher than the
    boot, and then gives the far bottom corner; an orientation that
    exceeds the boot on some axis has no position, whatever is packed. *)
Theorem findBestPosition_in_an_empty_boot
    (o : ItemDimensions) (bootSpace : BootSpace) :
  (fitsBoot o bootSpace ->
   findBestPosition o bootSpace [] =
   Some (Pos.mk (Space.length bootSpace - Dim.length o) 0 0)) /\
  (~ fitsBoot o bootSpace ->
   forall packed, findBestPosition o bootSpace packed = None).
Proof.
  split.
  - apply findBestPosition_corner.
  - intros Hno packed. now apply findBestPosition_oversize.
Qed.

Lemma findBestPosition_in_an_empty_boot_witness :
  findBestPosition (Dim.mk 400 300 200)
                   (calculateEffectiveBootSpace mockVehicle) [] =
    Some (Pos.mk 600 0 0) /\
  findBestPosition (Dim.mk 1200 800 600)
                   (calculateEffectiveBootSpace mockVehicle) [] = None.
Proof.
  split.
  - apply (findBestPosition_in_an_empty_boot (Dim.mk 400 300 200)
             (calculateEffectiveBootSpace mockVehicle)).
    unfold fitsBoot. cbn. lia.
  - apply (findBestPosition_in_an_empty_boot (Dim.mk 1200 800 600)
             (calculateEffectiveBootSpace mockVehicle)).
    unfold fitsBoot. cbn. lia.
Defined.

Lemma acceptable_incl (o : ItemDimensions) (bootSpace : BootSpace)
    (packed packed' : list PackedItem) (p : Position) :
  incl packed packed' ->
  acceptable o bootSpace packed' p = true ->
  acceptable o bootSpace packed p = true.
Proof.
  intros Hincl H. apply acceptable_true in H. apply acceptable_true.
  destruct H as [Hfit Hclear]. split; [exact Hfit |].
  intros q Hq. apply Hclear, Hincl, Hq.
Qed.

(** X4.  More packed boxes never help the position search: when the
    search fails against some boxes it fails against any larger
    collection, and a position found against the larger collection is the
    one found against the smaller, or one the scan reaches later. *)
Theorem findBestPosition_more_boxes_never_help
    (o : ItemDimensions) (bootSpace : BootSpace)
    (packed packed' : list PackedItem) :
  incl packed packed' ->
  (findBestPosition o bootSpace packed = None ->
   findBestPosition o bootSpace packed' = None) /\
  (forall p', findBestPosition o bootSpace packed' = Some p' ->
     exists p, findBestPosition o bootSpace packed = Some p /\
               (p = p' \/ scannedBefore p p')).
Proof.
  intros Hincl.
  assert (Hsome : forall p', findBestPosition o bootSpace packed' = Some p' ->
     exists p, findBestPosition o bootSpace packed = Some p /\
               (p = p' \/ scannedBefore p p')).
  { intros p' E'. rewrite findBestPosition_find in E'.
    apply find_some in E'. destruct E' as [Hin Hok].
    apply (acceptable_incl _ _ _ _ _ Hincl) in Hok.
    destruct (findBestPosition o bootSpace packed) as [p |] eqn:E.
    - exists p. split; [reflexivity |].
      rewrite findBestPosition_find in E.
      destruct (find_StronglySorted scannedBefore _ _ _
                  (scanOrder_sorted o bootSpace) E) as (_ & _ & Hfirst).
      destruct (Hfirst p' Hin Hok) as [-> | Hlt]; auto.
    - rewrite findBestPosition_find in E.
      rewrite (find_none _ _ E p' Hin) in Hok. discriminate. }
  split; [| exact Hsome].
  intros Hnone.
  destruct (findBestPosition o bootSpace packed') as [p' |] eqn:E'; [| reflexivity].
  destruct (Hsome p' eq_refl) as (p & Hp & _). congruence.
Qed.

Lemma findBestPosition_more_boxes_never_help_witness :
  exists p, findBestPosition (Dim.mk 400 300 200)
              (calculateEffectiveBootSpace mockVehicle) [] = Some p /\
            (p = Pos.mk 0 0 0 \/ scannedBefore p (Pos.mk 0 0 0)).
Proof.
  apply (findBestPosition_more_boxes_never_help (Dim.mk 400 300 200)
           (calculateEffectiveBootSpace mockVehicle) [] [largerPacked]).
  - intros q [].
  - vm_compute. reflexivity.
Defined.

(** ** Sorting *)

Lemma insertBy_In {A : Type} (cmp : A -> A -> Z) (a b : A) (l : list A) :
  In b (insertBy cmp a l) -> b = a \/ In b l.
Proof.
  intros H. apply (Permutation_in _ (insertBy_Permutation cmp a l)) in H.
  destruct H as [-> | H]; auto.
Qed.

Lemma insertBy_sorted {A : Type} (cmp : A -> A -> Z) (R : A -> A -> Prop)
    (a : A) (l : list A) :
  (forall x y, cmp x y <= 0 -> R x y) ->
  (forall x y, ~ cmp x y <= 0 -> R y x) ->
  (forall x y z, R x y -> R y z -> R x z) ->
  StronglySorted R l -> StronglySorted R (insertBy cmp a l).
Proof.
  intros Hle Hgt Htrans. induction 1 as [| b l' Hs IH Hall]; cbn [insertBy].
  - constructor; constructor.
  - destruct (Z.leb_spec (cmp a b) 0) as [Hc | Hc].
    + constructor.
      * now constructor.
      * constructor; [now apply Hle |].
        apply Forall_forall. intros c Hc'.
        apply Htrans with b; [now apply Hle |].
        now apply (proj1 (Forall_forall _ _) Hall).
    + constructor; [exact IH |].
      apply Forall_forall. intros c Hc'.
      apply insertBy_In in Hc'. destruct Hc' as [-> | Hc'].
      * apply Hgt. lia.
      * now apply (proj1 (Forall_forall _ _) Hall).
Qed.

Lemma sortBy_sorted {A : Type} (cmp : A -> A -> Z) (R : A -> A -> Prop)
    (l : list A) :
  (forall x y, cmp x y <= 0 -> R x y) ->
  (forall x y, ~ cmp x y <= 0 -> R y x) ->
  (forall x y z, R x y -> R y z -> R x z) ->
  StronglySorted R (sortBy cmp l).
Proof.
  intros Hle Hgt Htrans. induction l as [| a l IH]; cbn [sortBy].
  - constructor.
  - now apply insertBy_sorted.
Qed.



Lemma compareItems_le (a b : ItemWithMetrics) :
  compareItems a b <= 0 <-> processedBefore a b.
Proof.
  unfold compareItems, processedBefore.
  destruct (Z.eqb_spec (itemVolume b) (itemVolume a)); cbn [negb]; lia.
Qed.

Lemma processedBefore_trans (a b c : ItemWithMetrics) :
  processedBefore a b -> processedBefore b c -> processedBefore a c.
Proof. unfold processedBefore. lia. Qed.

Lemma preprocessItems_sorted (items : list Item) :
  StronglySorted processedBefore (preprocessItems items).
Proof.
  apply sortBy_sorted.
  - intros x y. apply compareItems_le.
  - intros x y H. rewrite compareItems_le in H.
    unfold processedBefore in *. lia.
  - apply processedBefore_trans.
Qed.



(** ** What holds of every packed entry *)

Lemma packItems_Forall (vehicle : Vehicle) (items : list Item)
    (P : PackedItem -> Prop) :
  (forall before iwm p,
     In (base iwm) items -> iwm = withMetrics (base iwm) ->
     placedBy (calculateEffectiveBootSpace vehicle) before iwm p -> P p) ->
  Forall P (packedItems (packItems vehicle items)).
Proof.
  intros H. unfold packItems. cbn [packedItems].
  apply Placed_Forall with (bootSpace := calculateEffectiveBootSpace vehicle)
                           (items := preprocessItems items).
  - intros before iwm p Hin Hp.
    apply preprocessItems_In in Hin. destruct Hin as [Hin Heq].
    now apply (H before iwm p).
  - apply packAll_Placed.
Qed.

(** X6.  Every packed box passes the opening with the 20 mm clearance in
    the orientation it is packed in: it is at most as wide as a declared
    opening width less 20 and at most as high as a declared opening
    height less 20. *)
Theorem packed_boxes_pass_the_opening
    (vehicle : Vehicle) (items : list Item) (p : PackedItem) :
  In p (packedItems (packItems vehicle items)) ->
  canPassThroughOpening (orientation p) (calculateEffectiveBootSpace vehicle) 20
    = true /\
  (forall ow, Boot.openingWidth (bootMeasurements vehicle) = Some ow ->
              ow <> 0 -> Dim.width (orientation p) <= ow - 20) /\
  (forall oh, Boot.openingHeight (bootMeasurements vehicle) = Some oh ->
              oh <> 0 -> Dim.height (orientation p) <= oh - 20).
Proof.
  intros Hin.
  assert (Hpass : canPassThroughOpening (orientation p)
                    (calculateEffectiveBootSpace vehicle) 20 = true).
  { revert p Hin. apply Forall_forall. apply packItems_Forall.
    intros before iwm p _ _ Hp. apply Hp. }
  split; [exact Hpass | split].
  - intros ow Hw Hnz. unfold canPassThroughOpening in Hpass.
    unfold calculateEffectiveBootSpace in Hpass.
    cbn [Space.hasOpeningConstraints Space.openingWidth Space.openingHeight
         Space.width Space.height] in Hpass.
    rewrite Hw in Hpass. cbn [truthy effectiveOpening] in Hpass.
    destruct (Z.eqb_spec ow 0) as [E | _]; [contradiction |].
    cbn [negb orb] in Hpass.
    apply andb_prop in Hpass. destruct Hpass as [H _]. now apply Z.leb_le in H.
  - intros oh Hh Hnz. unfold canPassThroughOpening in Hpass.
    unfold calculateEffectiveBootSpace in Hpass.
    cbn [Space.hasOpeningConstraints Space.openingWidth Space.openingHeight
         Space.width Space.height] in Hpass.
    rewrite Hh in Hpass. cbn [truthy effectiveOpening] in Hpass.
    destruct (Z.eqb_spec oh 0) as [E | _]; [contradiction |].
    cbn [negb] in Hpass. rewrite orb_true_r in Hpass. cbn [negb] in Hpass.
    apply andb_prop in Hpass. destruct Hpass as [_ H]. now apply Z.leb_le in H.
Qed.


(** X8.  Every packed box sits on the 50 mm grid of the position search:
    its [y] and [z] are multiples of 50 and its [x] is the far wall less
    its length less a multiple of 50. *)
Theorem packed_positions_lie_on_the_search_grid
    (vehicle : Vehicle) (items : list Item) (p : PackedItem) :
  In p (packedItems (packItems vehicle items)) ->
  (50 | Pos.y (position p)) /\
  (50 | Pos.z (position p)) /\
  (50 | Boot.length (bootMeasurements vehicle) - Dim.length (orientation p)
        - Pos.x (position p)).
Proof.
  revert p. apply Forall_forall. apply packItems_Forall.
  intros before iwm p _ _ (_ & Hfind & _).
  apply findBestPosition_Some in Hfind.
  destruct Hfind as [(i & j & k & Hx & _ & Hy & _ & Hz & _) _].
  unfold calculateEffectiveBootSpace in Hx. cbn [Space.length] in Hx.
  unfold stepSize in *.
  split; [| split].
  - exists (Z.of_nat j). lia.
  - exists (Z.of_nat k). lia.
  - exists (Z.of_nat i). lia.
Qed.

Lemma packed_boxes_pass_the_opening_witness :
  canPassThroughOpening (Dim.mk 400 300 200)
    (calculateEffectiveBootSpace vehicleWithSmallOpening) 20 = true /\
  300 <= 800 - 20.
Proof.
  assert (Hin : In (mkPacked smallRigidItem (Pos.mk 600 0 0) (Dim.mk 400 300 200)
                             false 0)
                   (packedItems (packItems vehicleWithSmallOpening [smallRigidItem]))).
  { left. vm_compute. reflexivity. }
  split.
  - apply (packed_boxes_pass_the_opening _ _ _ Hin).
  - apply (proj1 (proj2 (packed_boxes_pass_the_opening _ _ _ Hin)) 800).
    + reflexivity.
    + lia.
Defined.


Lemma packed_positions_lie_on_the_search_grid_witness :
  (50 | Pos.y (position smallerPacked)) /\
  (50 | Pos.z (position smallerPacked)) /\
  (50 | 1000 - Dim.length (orientation smallerPacked)
        - Pos.x (position smallerPacked)).
Proof.
  apply (packed_positions_lie_on_the_search_grid (plainBoot 1000 1000 500) twoBoxes).
  right. left. vm_compute. reflexivity.
Defined.

(** ** The loop never revises what it has done *)

Lemma fold_packOne_extends (bootSpace : BootSpace) (l : list ItemWithMetrics) :
  forall st : State,
  exists (morePacked : list PackedItem) (moreUnpacked : list Item),
    St.packedItems (fold_left (packOne bootSpace) l st) =
      St.packedItems st ++ morePacked /\
    St.unpackedItems (fold_left (packOne bootSpace) l st) =
      St.unpackedItems st ++ moreUnpacked /\
    Permutation (map item morePacked ++ moreUnpacked) (map base l).
Proof.
  induction l as [| a l IH]; intros st; cbn [fold_left].
  - exists [], []. now rewrite !app_nil_r.
  - destruct (IH (packOne bootSpace st a)) as (mp & mu & Hp & Hu & Hperm).
    destruct (packOne_cases bootSpace st a) as [(p & E & Hpl) | (b & E)].
    + exists (p :: mp), mu. rewrite Hp, Hu, E. cbn [pushPacked St.packedItems St.unpackedItems].
      rewrite <- app_assoc. repeat split.
      cbn [map app]. destruct Hpl as (Hitem & _). rewrite Hitem.
      now apply perm_skip.
    + exists mp, (base a :: mu). rewrite Hp, Hu, E.
      cbn [pushUnpacked St.packedItems St.unpackedItems].
      rewrite <- app_assoc. repeat split.
      cbn [map]. etransitivity; [apply Permutation_sym, Permutation_middle |].
      now apply perm_skip.
Qed.

(** X9.  The loop over the items never revises what it has done: after
    more items are processed, the packed entries and the unpacked items of
    the earlier ones are still there, unchanged and in front, and what
    follows them is the further items, each once. *)
Theorem placements_are_never_revised
    (bootSpace : BootSpace) (earlier later : list ItemWithMetrics) :
  exists (morePacked : list PackedItem) (moreUnpacked : list Item),
    St.packedItems (packAll bootSpace (earlier ++ later)) =
      St.packedItems (packAll bootSpace earlier) ++ morePacked /\
    St.unpackedItems (packAll bootSpace (earlier ++ later)) =
      St.unpackedItems (packAll bootSpace earlier) ++ moreUnpacked /\
    Permutation (map item morePacked ++ moreUnpacked) (map base later).
Proof.
  unfold packAll. rewrite fold_left_app. apply fold_packOne_extends.
Qed.

(** ** The results are in processing order *)

Lemma StronglySorted_weaken {A : Type} (R T : A -> A -> Prop) (l : list A) :
  (forall a b, In a l -> In b l -> R a b -> T a b) ->
  StronglySorted R l -> StronglySorted T l.
Proof.
  intros H Hs. induction Hs as [| a l Hs IH Hall].
  - constructor.
  - constructor.
    + apply IH. intros x y Hx Hy. apply H; now right.
    + apply Forall_forall. intros b Hb. apply H; [now left | now right |].
      now apply (proj1 (Forall_forall _ _) Hall).
Qed.

Lemma StronglySorted_snoc {A : Type} (R : A -> A -> Prop) (l : list A) (a : A) :
  StronglySorted R l -> (forall b, In b l -> R b a) -> StronglySorted R (l ++ [a]).
Proof.
  intros Hs Ha. apply StronglySorted_app; [exact Hs | repeat constructor |].
  intros x y Hx [<- | []]. now apply Ha.
Qed.

Lemma fold_packOne_sorted (bootSpace : BootSpace) (R : Item -> Item -> Prop)
    (l : list ItemWithMetrics) :
  StronglySorted (fun a b => R (base a) (base b)) l ->
  forall st : State,
    StronglySorted (fun p q => R (item p) (item q)) (St.packedItems st) ->
    StronglySorted R (St.unpackedItems st) ->
    (forall p iwm, In p (St.packedItems st) -> In iwm l -> R (item p) (base iwm)) ->
    (forall it iwm, In it (St.unpackedItems st) -> In iwm l -> R it (base iwm)) ->
    StronglySorted (fun p q => R (item p) (item q))
                   (St.packedItems (fold_left (packOne bootSpace) l st)) /\
    StronglySorted R (St.unpackedItems (fold_left (packOne bootSpace) l st)).
Proof.
  induction 1 as [| a l Hs IH Hall]; intros st Hp Hu Hpl Hul; cbn [fold_left].
  - now split.
  - assert (Hhead : forall iwm, In iwm l -> R (base a) (base iwm)).
    { intros iwm Hin. now apply (proj1 (Forall_forall _ _) Hall). }
    destruct (packOne_cases bootSpace st a) as [(p & E & Hitem & _) | (b & E)];
      rewrite E; apply IH;
      cbn [pushPacked pushUnpacked St.packedItems St.unpackedItems].
    + apply StronglySorted_snoc; [exact Hp |].
      intros q Hq. rewrite Hitem. apply Hpl; [exact Hq | now left].
    + exact Hu.
    + intros q iwm Hq Hin. apply in_app_or in Hq.
      destruct Hq as [Hq | [<- | []]].
      * apply Hpl; [exact Hq | now right].
      * rewrite Hitem. now apply Hhead.
    + intros it iwm Hit Hin. apply Hul; [exact Hit | now right].
    + exact Hp.
    + apply StronglySorted_snoc; [exact Hu |].
      intros q Hq. apply Hul; [exact Hq | now left].
    + intros q iwm Hq Hin. apply Hpl; [exact Hq | now right].
    + intros it iwm Hit Hin. apply in_app_or in Hit.
      destruct Hit as [Hit | [<- | []]].
      * apply Hul; [exact Hit | now right].
      * now apply Hhead.
Qed.

(** X10.  Both result lists are in processing order: along
    [packedItems], and along [unpackedItems], the catalogued volume of
    the items never increases, and among equal volumes the rigidity order
    never decreases. *)
Theorem results_are_in_processing_order (vehicle : Vehicle) (items : list Item) :
  StronglySorted (fun p q => itemBefore (item p) (item q))
                 (packedItems (packItems vehicle items)) /\
  StronglySorted itemBefore (unpackedItems (packItems vehicle items)).
Proof.
  unfold packItems. cbn [packedItems unpackedItems]. unfold packAll.
  apply fold_packOne_sorted.
  - apply StronglySorted_weaken with (R := processedBefore);
      [| apply preprocessItems_sorted].
    intros a b Ha Hb Hab.
    apply preprocessItems_In in Ha, Hb.
    destruct Ha as [_ Ha], Hb as [_ Hb]. rewrite Ha, Hb in Hab.
    exact Hab.
  - constructor.
  - constructor.
  - intros p iwm [].
  - intros it iwm [].
Qed.

(** ** The counters behind the warnings *)

Lemma packOne_itemsRequiringCompression (bootSpace : BootSpace) (st : State)
    (iwm : ItemWithMetrics) :
  St.itemsRequiringCompression st =
    Z.of_nat (List.length (filter compressed (St.packedItems st))) ->
  St.itemsRequiringCompression (packOne bootSpace st iwm) =
    Z.of_nat (List.length (filter compressed
                             (St.packedItems (packOne bootSpace st iwm)))).
Proof.
  intros H.
  destruct (packOne_cases bootSpace st iwm) as [(p & E & _) | (b & E)]; rewrite E.
  - cbn [pushPacked St.itemsRequiringCompression St.packedItems].
    rewrite filter_app, length_app. cbn [filter].
    destruct (compressed p); cbn [List.length]; lia.
  - exact H.
Qed.

Lemma packAll_itemsRequiringCompression (bootSpace : BootSpace)
    (items : list ItemWithMetrics) :
  St.itemsRequiringCompression (packAll bootSpace items) =
  Z.of_nat (List.length (filter compressed (St.packedItems (packAll bootSpace items)))).
Proof.
  apply packAll_invariant with
    (P := fun st => St.itemsRequiringCompression st =
                    Z.of_nat (List.length (filter compressed (St.packedItems st)))).
  - reflexivity.
  - intros st iwm _. apply packOne_itemsRequiringCompression.
Qed.

Lemma In_when (b : bool) (w w' : Warning) :
  In w' (when b w) <-> b = true /\ w' = w.
Proof.
  destruct b; cbn; split; try tauto; intros H; try easy.
  - destruct H as [<- | []]. auto.
  - left. symmetry. apply H.
Qed.

Lemma In_collectWarnings (vehicle : Vehicle) (bootSpace : BootSpace)
    (st : State) (w : Warning) :
  In w (collectWarnings vehicle bootSpace st) <->
  (existsb isSignificant (bootIrregularities vehicle) = true /\
   w = SignificantIrregularities) \/
  (Space.hasOpeningConstraints bootSpace = true /\
   (((0 <? St.itemsRejectedByOpening st) = true /\
     w = RejectedByOpening (St.itemsRejectedByOpening st)) \/
    ((0 <? St.itemsRequiringCompression st) = true /\
     w = RequiredCompression (St.itemsRequiringCompression st)) \/
    (openingLimitsCapacity bootSpace = true /\ w = OpeningLimitsCapacity) \/
    ((1 <? List.length (St.packedItems st))%nat = true /\
     w = ConsiderPackingOrder) \/
    (existsb (closeToOpening bootSpace) (St.unpackedItems st) = true /\
     w = TightClearance) \/
    (existsb (fitsWithMinimalClearance bootSpace) (St.unpackedItems st) = true /\
     w = TightClearance))).
Proof.
  unfold collectWarnings. rewrite in_app_iff, In_when.
  destruct (Space.hasOpeningConstraints bootSpace).
  - rewrite !in_app_iff, !In_when. tauto.
  - cbn [In]. split; [tauto |]. intros [H | [H _]]; [auto | discriminate].
Qed.

(** X11.  The compression warning is given exactly when the vehicle has
    opening constraints and some packed entry is compressed, and its
    count is the number of compressed entries, whichever of the two
    compression paths produced them. *)
Theorem compression_warning_counts_the_compressed_entries
    (vehicle : Vehicle) (items : list Item) (n : Z) :
  In (RequiredCompression n) (warnings (packItems vehicle items)) <->
  Space.hasOpeningConstraints (calculateEffectiveBootSpace vehicle) = true /\
  n = Z.of_nat (List.length (filter compressed
                               (packedItems (packItems vehicle items)))) /\
  0 < n.
Proof.
  unfold packItems. cbn [warnings packedItems].
  rewrite In_collectWarnings, packAll_itemsRequiringCompression.
  split.
  - intros [[_ H] | [Hc H]]; [discriminate |].
    destruct H as [[_ H] | [[Hpos H] | [[_ H] | [[_ H] | [[_ H] | [_ H]]]]]];
      try discriminate.
    injection H as ->. apply Z.ltb_lt in Hpos. auto.
  - intros (Hc & -> & Hpos). right. split; [exact Hc |].
    right. left. split; [now apply Z.ltb_lt | reflexivity].
Qed.

Lemma packOne_itemsRejectedByOpening (bootSpace : BootSpace) (st : State)
    (iwm : ItemWithMetrics) :
  iwm = withMetrics (base iwm) ->
  let blocked it :=
    blockedByOpening bootSpace it && Space.hasOpeningConstraints bootSpace in
  St.itemsRejectedByOpening st =
    Z.of_nat (List.length (filter blocked (St.unpackedItems st))) ->
  St.itemsRejectedByOpening (packOne bootSpace st iwm) =
    Z.of_nat (List.length (filter blocked
                             (St.unpackedItems (packOne bootSpace st iwm)))).
Proof.
  intros Heq blocked H.
  assert (Hb : blocked (base iwm) =
               (List.length (filterOrientationsForOpening (orientations iwm)
                                                         bootSpace) =? 0)%nat &&
               Space.hasOpeningConstraints bootSpace).
  { unfold blocked, blockedByOpening. rewrite Heq at 3. reflexivity. }
  unfold packOne. rewrite <- Hb.
  destruct (blocked (base iwm)) eqn:Eb.
  - destruct (tryOpeningCompression _ _ _).
    + exact H.
    + cbn [pushUnpacked St.itemsRejectedByOpening St.unpackedItems].
      rewrite filter_app, length_app. cbn [filter]. rewrite Eb.
      cbn [List.length]. lia.
  - assert (Hun :
      St.itemsRejectedByOpening (pushUnpacked st (base iwm) false) =
      Z.of_nat (List.length (filter blocked
                  (St.unpackedItems (pushUnpacked st (base iwm) false))))).
    { cbn [pushUnpacked St.itemsRejectedByOpening St.unpackedItems].
      rewrite filter_app, length_app. cbn [filter]. rewrite Eb.
      cbn [List.length]. lia. }
    destruct (tryOrientations _ _ _ _ _ _); [exact H |].
    destruct (0 <? compressibility (base iwm)); [| exact Hun].
    destruct (trySpaceCompression _ _ _); [exact H | exact Hun].
Qed.

Lemma packItems_itemsRejectedByOpening (bootSpace : BootSpace) (items : list Item) :
  St.itemsRejectedByOpening (packAll bootSpace (preprocessItems items)) =
  Z.of_nat (List.length
              (filter (fun it => blockedByOpening bootSpace it &&
                                 Space.hasOpeningConstraints bootSpace)
                      (St.unpackedItems (packAll bootSpace (preprocessItems items))))).
Proof.
  apply packAll_invariant with
    (P := fun st => St.itemsRejectedByOpening st =
            Z.of_nat (List.length
              (filter (fun it => blockedByOpening bootSpace it &&
                                 Space.hasOpeningConstraints bootSpace)
                      (St.unpackedItems st)))).
  - reflexivity.
  - intros st iwm Hin. apply preprocessItems_In in Hin.
    destruct Hin as [_ Heq]. now apply packOne_itemsRejectedByOpening.
Qed.

(** X12.  The rejection warning is given exactly when the vehicle has
    opening constraints and some unpacked item has no uncompressed
    orientation that passes the opening, and its count is the number of
    such unpacked items. *)
Theorem rejection_warning_counts_the_blocked_items
    (vehicle : Vehicle) (items : list Item) (n : Z) :
  In (RejectedByOpening n) (warnings (packItems vehicle items)) <->
  Space.hasOpeningConstraints (calculateEffectiveBootSpace vehicle) = true /\
  n = Z.of_nat (List.length
                  (filter (blockedByOpening (calculateEffectiveBootSpace vehicle))
                          (unpackedItems (packItems vehicle items)))) /\
  0 < n.
Proof.
  unfold packItems. cbn [warnings unpackedItems].
  rewrite In_collectWarnings, packItems_itemsRejectedByOpening.
  assert (Hf : Space.hasOpeningConstraints (calculateEffectiveBootSpace vehicle) = true ->
    forall l,
    filter (fun it => blockedByOpening (calculateEffectiveBootSpace vehicle) it &&
                      Space.hasOpeningConstraints (calculateEffectiveBootSpace vehicle)) l =
    filter (blockedByOpening (calculateEffectiveBootSpace vehicle)) l).
  { intros Hc l. apply filter_ext. intros it. rewrite Hc. apply andb_true_r. }
  split.
  - intros [[_ H] | [Hc H]]; [discriminate |].
    destruct H as [[Hpos H] | [[_ H] | [[_ H] | [[_ H] | [[_ H] | [_ H]]]]]];
      try discriminate.
    injection H as ->. apply Z.ltb_lt in Hpos. rewrite Hf in * by exact Hc. auto.
  - intros (Hc & -> & Hpos). right. split; [exact Hc |].
    left. rewrite Hf by exact Hc. split; [now apply Z.ltb_lt | reflexivity].
Qed.

(** X13.  Without a declared opening (no opening width and no opening
    height, or zero for both) the only warning [packItems] can give is
    the one about significant irregularities, however many items stay
    unpacked or get compressed. *)
Theorem no_opening_no_opening_warnings
    (vehicle : Vehicle) (items : list Item) (w : Warning) :
  truthy (Boot.openingWidth (bootMeasurements vehicle)) = false ->
  truthy (Boot.openingHeight (bootMeasurements vehicle)) = false ->
  In w (warnings (packItems vehicle items)) ->
  w = SignificantIrregularities /\
  exists irr, In irr (bootIrregularities vehicle) /\ severity irr = SIGNIFICANT.
Proof.
  intros Hw Hh Hin. unfold packItems in Hin. cbn [warnings] in Hin.
  apply In_collectWarnings in Hin.
  destruct Hin as [[Hsig ->] | [Hc _]].
  - split; [reflexivity |].
    apply existsb_exists in Hsig. destruct Hsig as (irr & Hin & Hs).
    exists irr. split; [exact Hin |].
    unfold isSignificant in Hs. now destruct (severity irr).
  - unfold calculateEffectiveBootSpace in Hc.
    cbn [Space.hasOpeningConstraints] in Hc. rewrite Hw, Hh in Hc. discriminate.
Qed.

Lemma compression_warning_counts_the_compressed_entries_witness :
  In (RequiredCompression 1)
     (warnings (packItems vehicleWithSmallOpening [box 400 400 400 any 10])).
Proof.
  apply (compression_warning_counts_the_compressed_entries
           vehicleWithSmallOpening [box 400 400 400 any 10] 1).
  split; [reflexivity | split; [vm_compute; reflexivity | lia]].
Defined.

Lemma rejection_warning_counts_the_blocked_items_witness :
  In (RejectedByOpening 1)
     (warnings (packItems vehicleWithSmallOpening [itemThatFitsInBootButNotOpening])).
Proof.
  apply (rejection_warning_counts_the_blocked_items
           vehicleWithSmallOpening [itemThatFitsInBootButNotOpening] 1).
  split; [reflexivity | split; [vm_compute; reflexivity | lia]].
Defined.

Lemma no_opening_no_opening_warnings_witness :
  exists irr, In irr [mkIrregularity wheel_wells SIGNIFICANT] /\
              severity irr = SIGNIFICANT.
Proof.
  apply (no_opening_no_opening_warnings
           (mkVehicle "Test Vehicle" (Boot.mk 1000 1000 500 None None)
                      [mkIrregularity wheel_wells SIGNIFICANT])
           [oversizedItem] SignificantIrregularities).
  - reflexivity.
  - reflexivity.
  - vm_compute. left. reflexivity.
Defined.

(** ** The summary *)

(** X14.  The summary of a packing result accounts for every item given:
    the total is the number of items passed to [packItems], the packed
    and unpacked counts add up to it, and the cabin suggestions are
    exactly the unpacked items that are cabin-suitable, in the same
    order. *)
Theorem getPackingSummary_accounts_for_every_item
    (vehicle : Vehicle) (items : list Item) :
  totalItems (getPackingSummary (packItems vehicle items)) = List.length items /\
  (packedCount (getPackingSummary (packItems vehicle items)) +
   unpackedCount (getPackingSummary (packItems vehicle items)) =
   List.length items)%nat /\
  (cabinSuitableUnpacked (getPackingSummary (packItems vehicle items)) <=
   unpackedCount (getPackingSummary (packItems vehicle items)))%nat /\
  (forall it, In it (cabinOverflowSuggested (packItems vehicle items)) <->
              In it (unpackedItems (packItems vehicle items)) /\
              cabinSuitable it = true) /\
  (forall it, In it (cabinOverflowSuggested (packItems vehicle items)) ->
              In it items).
Proof.
  assert (Hlen : (List.length (packedItems (packItems vehicle items)) +
                  List.length (unpackedItems (packItems vehicle items)) =
                  List.length items)%nat).
  { rewrite <- (Permutation_length (packItems_Permutation vehicle items)).
    now rewrite length_app, length_map. }
  assert (Hcabin : forall it,
            In it (cabinOverflowSuggested (packItems vehicle items)) <->
            In it (unpackedItems (packItems vehicle items)) /\
            cabinSuitable it = true).
  { intros it. unfold packItems. cbn [cabinOverflowSuggested unpackedItems].
    apply filter_In. }
  cbn [getPackingSummary totalItems packedCount unpackedCount cabinSuitableUnpacked].
  split; [exact Hlen | split; [exact Hlen | split; [| split]]].
  - unfold packItems. cbn [cabinOverflowSuggested unpackedItems].
    apply filter_length_le.
  - exact Hcabin.
  - intros it H. apply Hcabin in H. destruct H as [H _].
    apply (Permutation_in _ (packItems_Permutation vehicle items)).
    apply in_or_app. now right.
Qed.

(** ** The volume used never exceeds the boot *)

Lemma In_cellRange (a n v : Z) : In v (cellRange a n) <-> a <= v < a + n.
Proof.
  unfold cellRange. rewrite in_map_iff. split.
  - intros (k & <- & Hk). apply in_seq in Hk. lia.
  - intros H. exists (Z.to_nat (v - a)). split; [lia |].
    apply in_seq. lia.
Qed.

Lemma NoDup_cellRange (a n : Z) : NoDup (cellRange a n).
Proof.
  unfold cellRange. apply NoDup_map_NoDup_ForallPairs; [| apply seq_NoDup].
  intros x y _ _ H. lia.
Qed.

Lemma length_cellRange (a n : Z) : List.length (cellRange a n) = Z.to_nat n.
Proof. unfold cellRange. now rewrite length_map, length_seq. Qed.

Lemma NoDup_list_prod {A B : Type} (l1 : list A) (l2 : list B) :
  NoDup l1 -> NoDup l2 -> NoDup (list_prod l1 l2).
Proof.
  intros H1 H2. induction H1 as [| a l1 Ha H1 IH]; cbn [list_prod].
  - constructor.
  - apply NoDup_app.
    + apply NoDup_map_NoDup_ForallPairs; [| exact H2].
      intros x y _ _ E. now injection E.
    + exact IH.
    + intros [a' b'] Hin Hin'. apply in_map_iff in Hin.
      destruct Hin as (y & E & _). injection E as <- <-.
      apply in_prod_iff in Hin'. now destruct Hin'.
Qed.

Lemma In_cells (o : ItemDimensions) (p : Position) (a b c : Z) :
  In (a, b, c) (cells o p) <->
  (Pos.x p <= a < Pos.x p + Dim.length o) /\
  (Pos.y p <= b < Pos.y p + Dim.width o) /\
  (Pos.z p <= c < Pos.z p + Dim.height o).
Proof.
  unfold cells. rewrite !in_prod_iff, !In_cellRange. tauto.
Qed.

Lemma NoDup_cells (o : ItemDimensions) (p : Position) : NoDup (cells o p).
Proof.
  unfold cells. repeat apply NoDup_list_prod; apply NoDup_cellRange.
Qed.

Lemma length_cells (o : ItemDimensions) (p : Position) :
  0 <= Dim.length o -> 0 <= Dim.width o -> 0 <= Dim.height o ->
  Z.of_nat (List.length (cells o p)) = calculateItemVolume o.
Proof.
  intros Hl Hw Hh. unfold cells, calculateItemVolume.
  rewrite !length_prod, !length_cellRange. lia.
Qed.

Lemma cells_disjoint (o1 : ItemDimensions) (p1 : Position)
    (o2 : ItemDimensions) (p2 : Position) (c : Z * Z * Z) :
  In c (cells o1 p1) -> In c (cells o2 p2) -> boxesOverlap o1 p1 o2 p2.
Proof.
  destruct c as [[a b] c]. rewrite !In_cells. unfold boxesOverlap. lia.
Qed.

Lemma cells_within (l w h : Z) (o : ItemDimensions) (p : Position)
    (c : Z * Z * Z) :
  withinBoot l w h o p -> In c (cells o p) ->
  In c (cells (Dim.mk l w h) (Pos.mk 0 0 0)).
Proof.
  destruct c as [[a b] c]. rewrite !In_cells. unfold withinBoot.
  cbn [Pos.x Pos.y Pos.z Dim.length Dim.width Dim.height]. lia.
Qed.

Lemma Placed_cells (bootSpace : BootSpace) (items : list ItemWithMetrics)
    (packed : list PackedItem) :
  Placed bootSpace items packed ->
  NoDup (flat_map packedCells packed) /\
  incl (flat_map packedCells packed)
       (cells (Dim.mk (Space.length bootSpace) (Space.width bootSpace)
                      (Space.height bootSpace))
              (Pos.mk 0 0 0)).
Proof.
  induction 1 as [| packed p iwm Hpl [IHn IHi] Hin Hp].
  - split; [constructor | intros c []].
  - rewrite flat_map_app. cbn [flat_map]. rewrite app_nil_r. split.
    + apply NoDup_app; [exact IHn | apply NoDup_cells |].
      intros c Hc Hc'. apply in_flat_map in Hc. destruct Hc as (q & Hq & Hcq).
      apply (placedBy_clear _ _ _ _ Hp q Hq).
      unfold packedOverlap. now apply cells_disjoint with c.
    + apply incl_app; [exact IHi |].
      intros c Hc. apply cells_within with (orientation p) (position p);
        [| exact Hc].
      now apply placedBy_within with packed iwm.
Qed.

Lemma length_packedCells (packed : list PackedItem) :
  Forall (fun p => positiveSides (orientation p)) packed ->
  Z.of_nat (List.length (flat_map packedCells packed)) = packedVolume packed.
Proof.
  induction 1 as [| p packed (Hl & Hw & Hh) Hall IH].
  - reflexivity.
  - cbn [flat_map packedVolume fold_right]. rewrite length_app, Nat2Z.inj_add.
    unfold packedCells at 1. rewrite length_cells by lia.
    unfold packedVolume in IH. now rewrite IH.
Qed.

(** X15.  The volume used never exceeds the nominal volume of the boot:
    for a boot and items of positive dimensions (and compressibility from
    0 to 30), [bootSpaceUsed] is the sum of the volumes of the packed
    boxes and is at most length times width times height of the boot. *)
Theorem bootSpaceUsed_is_at_most_the_nominal_volume
    (vehicle : Vehicle) (items : list Item) :
  validBoot (bootMeasurements vehicle) ->
  Forall validItem items ->
  bootSpaceUsed (packItems vehicle items) =
    packedVolume (packedItems (packItems vehicle items)) /\
  0 <= bootSpaceUsed (packItems vehicle items) <=
    Boot.length (bootMeasurements vehicle) *
    Boot.width (bootMeasurements vehicle) *
    Boot.height (bootMeasurements vehicle).
Proof.
  intros (HL & HW & HH) Hvalid.
  pose proof (packItems_positiveSides vehicle items Hvalid) as Hpos.
  assert (Hused : bootSpaceUsed (packItems vehicle items) =
                  packedVolume (packedItems (packItems vehicle items))).
  { unfold packItems. cbn [bootSpaceUsed packedItems].
    apply packAll_totalVolumeUsed. }
  split; [exact Hused |]. rewrite Hused.
  split; [now apply packedVolume_nonneg |].
  rewrite <- (length_packedCells _ Hpos).
  destruct (Placed_cells _ _ _
              (packAll_Placed (calculateEffectiveBootSpace vehicle)
                              (preprocessItems items))) as [Hnd Hincl].
  change (St.packedItems (packAll (calculateEffectiveBootSpace vehicle)
                                  (preprocessItems items)))
    with (packedItems (packItems vehicle items)) in Hnd, Hincl.
  pose proof (NoDup_incl_length Hnd Hincl) as Hle.
  apply Nat2Z.inj_le in Hle. rewrite length_cells in Hle.
  - unfold calculateItemVolume, calculateEffectiveBootSpace in Hle.
    cbn [Dim.length Dim.width Dim.height Space.length Space.width Space.height]
      in Hle.
    exact Hle.
  - unfold calculateEffectiveBootSpace. cbn [Dim.length Space.length]. lia.
  - unfold calculateEffectiveBootSpace. cbn [Dim.width Space.width]. lia.
  - unfold calculateEffectiveBootSpace. cbn [Dim.height Space.height]. lia.
Qed.

Lemma bootSpaceUsed_is_at_most_the_nominal_volume_witness :
  0 <= bootSpaceUsed (packItems (plainBoot 1000 1000 500) twoBoxes) <=
  1000 * 1000 * 500.
Proof.
  apply (bootSpaceUsed_is_at_most_the_nominal_volume
           (plainBoot 1000 1000 500) twoBoxes).
  - unfold validBoot. cbn. lia.
  - unfold twoBoxes, validItem, positiveSides, compressibilityInRange.
    repeat constructor; cbn; lia.
Defined.

(** ** A lone item *)

Lemma fitsBootb_spec (o : ItemDimensions) (bootSpace : BootSpace) :
  fitsBootb o bootSpace = true <-> fitsBoot o bootSpace.
Proof.
  unfold fitsBootb, fitsBoot. rewrite !andb_true_iff, !Z.leb_le. tauto.
Qed.

Lemma findBestPosition_nil (o : ItemDimensions) (bootSpace : BootSpace) :
  findBestPosition o bootSpace [] =
  if fitsBootb o bootSpace
  then Some (Pos.mk (Space.length bootSpace - Dim.length o) 0 0)
  else None.
Proof.
  destruct (fitsBootb o bootSpace) eqn:E.
  - now apply findBestPosition_corner, fitsBootb_spec.
  - apply findBestPosition_oversize. intros H. apply fitsBootb_spec in H.
    congruence.
Qed.

Lemma firstSome_filter {A B : Type} (f : A -> option B) (P : A -> bool)
    (l : list A) :
  firstSome f (filter P l) = firstSome (fun a => if P a then f a else None) l.
Proof.
  induction l as [| a l IH]; cbn [filter firstSome]; [reflexivity |].
  destruct (P a); cbn [firstSome]; now rewrite IH.
Qed.

Lemma firstSome_find_map {A B : Type} (ok : A -> bool) (g : A -> B)
    (l : list A) :
  firstSome (fun a => if ok a then Some (g a) else None) l =
  option_map g (find ok l).
Proof.
  induction l as [| a l IH]; cbn [firstSome find]; [reflexivity |].
  destruct (ok a); [reflexivity | exact IH].
Qed.

Lemma filterOrientationsForOpening_filter (os : list ItemDimensions)
    (bootSpace : BootSpace) :
  filterOrientationsForOpening os bootSpace =
  filter (fun o => canPassThroughOpening o bootSpace 20) os.
Proof.
  unfold filterOrientationsForOpening.
  destruct (Space.hasOpeningConstraints bootSpace) eqn:Hc; cbn [negb];
    [reflexivity |].
  symmetry. apply forallb_filter_id. apply forallb_forall.
  intros o _. now apply canPassThroughOpening_unconstrained.
Qed.

Lemma tryOrientations_nil (it : Item) (os : list ItemDimensions)
    (bootSpace : BootSpace) (c : bool) (a : Q) :
  tryOrientations it (filterOrientationsForOpening os bootSpace) bootSpace [] c a =
  option_map
    (fun o => mkPacked it (Pos.mk (Space.length bootSpace - Dim.length o) 0 0)
                       o c a)
    (find (fun o => canPassThroughOpening o bootSpace 20 && fitsBootb o bootSpace)
          os).
Proof.
  unfold tryOrientations.
  rewrite filterOrientationsForOpening_filter, firstSome_filter.
  rewrite <- firstSome_find_map. apply firstSome_ext. intros o _.
  rewrite findBestPosition_nil.
  now destruct (canPassThroughOpening o bootSpace 20), (fitsBootb o bootSpace).
Qed.

(** X16.  An item packed on its own goes, uncompressed, to the far bottom
    corner in the first of its orientations that passes the opening and
    is no larger than the boot, whenever there is such an orientation. *)
Theorem lone_item_is_packed_in_its_first_fitting_orientation
    (vehicle : Vehicle) (it : Item) (o : ItemDimensions) :
  find (fun o => canPassThroughOpening o (calculateEffectiveBootSpace vehicle) 20 &&
                 fitsBootb o (calculateEffectiveBootSpace vehicle))
       (generateOrientations (dimensions it) (orientationConstraints it)) = Some o ->
  packedItems (packItems vehicle [it]) =
    [mkPacked it
       (Pos.mk (Boot.length (bootMeasurements vehicle) - Dim.length o) 0 0)
       o false 0] /\
  unpackedItems (packItems vehicle [it]) = [].
Proof.
  intros Hfind. unfold packItems. cbn [packedItems unpackedItems].
  change (preprocessItems [it]) with [withMetrics it].
  unfold packAll. cbn [fold_left]. unfold packOne.
  cbn [base orientations withMetrics St.packedItems initialState].
  set (bs := calculateEffectiveBootSpace vehicle) in *.
  assert (Hne : (List.length
                   (filterOrientationsForOpening
                      (generateOrientations (dimensions it)
                                            (orientationConstraints it)) bs)
                 =? 0)%nat = false).
  { apply find_some in Hfind. destruct Hfind as [Hin Hok].
    apply andb_prop in Hok. destruct Hok as [Hpass _].
    assert (Hin' : In o (filterOrientationsForOpening
                           (generateOrientations (dimensions it)
                                                 (orientationConstraints it)) bs))
      by now apply filterOrientationsForOpening_In.
    destruct (filterOrientationsForOpening _ bs); [destruct Hin' | reflexivity]. }
  rewrite Hne. cbn [andb].
  rewrite tryOrientations_nil, Hfind. cbn [option_map].
  now split.
Qed.

Lemma lone_item_is_packed_in_its_first_fitting_orientation_witness :
  packedItems (packItems vehicleWithSmallOpening [smallRigidItem]) =
    [mkPacked smallRigidItem (Pos.mk (1000 - 400) 0 0) (Dim.mk 400 300 200)
              false 0].
Proof.
  apply (lone_item_is_packed_in_its_first_fitting_orientation
           vehicleWithSmallOpening smallRigidItem (Dim.mk 400 300 200)).
  vm_compute. reflexivity.
Defined.

(** ** Items that fit nowhere *)



(** ** Compression comes last, and least first *)

Lemma firstSome_None_inv {A B : Type} (f : A -> option B) (l : list A) :
  firstSome f l = None -> forall a, In a l -> f a = None.
Proof.
  induction l as [| b l IH]; cbn [firstSome]; intros H a Ha; [destruct Ha |].
  destruct (f b) eqn:E; [discriminate |].
  destruct Ha as [<- | Ha]; [exact E | now apply IH].
Qed.

Lemma firstSome_first {A : Type} (f : Z -> option A) (l : list Z) (r : A) :
  StronglySorted Z.lt l ->
  firstSome f l = Some r ->
  exists a, In a l /\ f a = Some r /\ forall b, In b l -> b < a -> f b = None.
Proof.
  induction 1 as [| c l Hs IH Hall]; cbn [firstSome]; [discriminate |].
  destruct (f c) eqn:E.
  - intros [= ->]. exists c. split; [now left | split; [exact E |]].
    intros b [<- | Hb] Hlt; [lia |].
    pose proof (proj1 (Forall_forall _ _) Hall b Hb). lia.
  - intros H. destruct (IH H) as (a & Ha & Hfa & Hbefore).
    exists a. split; [now right | split; [exact Hfa |]].
    intros b [<- | Hb] Hlt; [exact E | now apply Hbefore].
Qed.

Lemma compressionLevels_sorted (it : Item) :
  StronglySorted Z.lt (compressionLevels it).
Proof. apply upRange_sorted, five_pos. Qed.

Lemma tryOrientations_None_inv (it : Item) (os : list ItemDimensions)
    (bootSpace : BootSpace) (packed : list PackedItem) (c : bool) (a : Q) :
  tryOrientations it os bootSpace packed c a = None ->
  forall o, In o os -> findBestPosition o bootSpace packed = None.
Proof.
  unfold tryOrientations. intros H o Ho.
  pose proof (firstSome_None_inv _ _ H o Ho) as Hf. cbn beta in Hf.
  now destruct (findBestPosition o bootSpace packed).
Qed.

Lemma applyCompressionForOpening_first (it : Item) (bootSpace : BootSpace)
    (dims : ItemDimensions) (applied : Q) :
  applyCompressionForOpening it bootSpace = Some (dims, applied) ->
  exists c,
    In c (compressionLevels it) /\
    applied = (actualCompression it c * 100)%Q /\
    find (fun o => canPassThroughOpening o bootSpace 20)
         (generateOrientations
            (compressDimensions (dimensions it) (1 - actualCompression it c))
            (orientationConstraints it)) = Some dims /\
    forall c' o,
      In c' (compressionLevels it) -> c' < c ->
      In o (generateOrientations
              (compressDimensions (dimensions it) (1 - actualCompression it c'))
              (orientationConstraints it)) ->
      canPassThroughOpening o bootSpace 20 = false.
Proof.
  unfold applyCompressionForOpening.
  destruct (Space.hasOpeningConstraints bootSpace) eqn:Hc; cbn [negb orb];
    [| discriminate].
  destruct (compressibility it <=? 0); [discriminate |].
  rewrite (forUp_firstSome _ _ _ five_pos) by apply Nat.le_refl.
  intros H.
  apply (firstSome_first _ _ _ (compressionLevels_sorted it)) in H.
  destruct H as (c & Hc5 & H & Hbefore).
  fold (actualCompression it c) in H.
  assert (Hpass : forall o,
            (Dim.width o <=?
               effectiveOpening (Space.openingWidth bootSpace) 20
                                (Space.width bootSpace)) &&
            (Dim.height o <=?
               effectiveOpening (Space.openingHeight bootSpace) 20
                                (Space.height bootSpace)) =
            canPassThroughOpening o bootSpace 20).
  { intros o. unfold canPassThroughOpening. now rewrite Hc. }
  exists c. split; [exact Hc5 |].
  rewrite (firstSome_ext _
             (fun o => if canPassThroughOpening o bootSpace 20
                       then Some ((fun o => (o, (actualCompression it c * 100)%Q)) o)
                       else None)) in H
    by (intros o _; now rewrite Hpass).
  rewrite firstSome_find_map in H.
  destruct (find _ _) as [o |] eqn:Hfind; [| discriminate].
  cbn [option_map] in H. injection H as <- <-.
  split; [reflexivity | split; [reflexivity |]].
  intros c' o' Hc' Hlt Ho'.
  specialize (Hbefore c' Hc' Hlt). cbn beta zeta in Hbefore.
  fold (actualCompression it c') in Hbefore.
  pose proof (firstSome_None_inv _ _ Hbefore o' Ho') as Hf. cbn beta in Hf.
  rewrite Hpass in Hf.
  now destruct (canPassThroughOpening o' bootSpace 20).
Qed.

Lemma trySpaceCompression_first (it : Item) (bootSpace : BootSpace)
    (packed : list PackedItem) (p : PackedItem) :
  trySpaceCompression it bootSpace packed = Some p ->
  exists c,
    In c (compressionLevels it) /\
    compressionApplied p = (actualCompression it c * 100)%Q /\
    forall c' o,
      In c' (compressionLevels it) -> c' < c ->
      In o (generateOrientations
              (compressDimensions (dimensions it) (1 - actualCompression it c'))
              (orientationConstraints it)) ->
      canPassThroughOpening o bootSpace 20 = true ->
      findBestPosition o bootSpace packed = None.
Proof.
  unfold trySpaceCompression.
  rewrite (forUp_firstSome _ _ _ five_pos) by apply Nat.le_refl.
  intros H.
  apply (firstSome_first _ _ _ (compressionLevels_sorted it)) in H.
  destruct H as (c & Hc5 & H & Hbefore).
  rewrite (applyCompression_level it c Hc5) in H.
  apply tryOrientations_Some in H.
  destruct H as (_ & _ & _ & _ & Happ).
  exists c. split; [exact Hc5 | split; [exact Happ |]].
  intros c' o Hc' Hlt Ho Hpass.
  specialize (Hbefore c' Hc' Hlt).
  rewrite (applyCompression_level it c' Hc') in Hbefore.
  apply (tryOrientations_None_inv _ _ _ _ _ _ Hbefore).
  now apply filterOrientationsForOpening_In.
Qed.

Lemma pushPacked_inj (st : State) (p q : PackedItem) :
  pushPacked st p = pushPacked st q -> p = q.
Proof.
  intros H. apply (f_equal St.packedItems) in H.
  cbn [pushPacked St.packedItems] in H.
  apply app_inj_tail in H. now destruct H.
Qed.

Lemma pushPacked_not_pushUnpacked (st : State) (p : PackedItem) (it : Item)
    (b : bool) :
  pushUnpacked st it b <> pushPacked st p.
Proof.
  intros H. apply (f_equal (fun s => List.length (St.packedItems s))) in H.
  cbn [pushPacked pushUnpacked St.packedItems] in H.
  rewrite length_app in H. cbn [List.length] in H. lia.
Qed.

(** X18.  Compression is the last resort and the least level is taken.
    When an iteration of the loop packs an item compressed, none of its
    uncompressed orientations that pass the opening has a position among
    the boxes packed so far, and the same holds of every orientation at
    every compression level below the one applied. *)
Theorem compression_is_the_last_resort
    (bootSpace : BootSpace) (st : State) (iwm : ItemWithMetrics)
    (p : PackedItem) :
  packOne bootSpace st iwm = pushPacked st p ->
  compressed p = true ->
  (forall o,
     In o (orientations iwm) ->
     canPassThroughOpening o bootSpace 20 = true ->
     findBestPosition o bootSpace (St.packedItems st) = None) /\
  exists c,
    In c (compressionLevels (base iwm)) /\
    compressionApplied p = (actualCompression (base iwm) c * 100)%Q /\
    forall c' o,
      In c' (compressionLevels (base iwm)) -> c' < c ->
      In o (generateOrientations
              (compressDimensions (dimensions (base iwm))
                 (1 - actualCompression (base iwm) c'))
              (orientationConstraints (base iwm))) ->
      canPassThroughOpening o bootSpace 20 = true ->
      findBestPosition o bootSpace (St.packedItems st) = None.
Proof.
  unfold packOne. intros H Hcomp.
  destruct ((List.length (filterOrientationsForOpening (orientations iwm) bootSpace)
             =? 0)%nat && Space.hasOpeningConstraints bootSpace) eqn:Hbranch.
  - apply andb_prop in Hbranch. destruct Hbranch as [Hlen _].
    apply Nat.eqb_eq in Hlen. apply length_zero_iff_nil in Hlen.
    split.
    { intros o Ho Hpass.
      assert (Hin : In o (filterOrientationsForOpening (orientations iwm) bootSpace))
        by now apply filterOrientationsForOpening_In.
      rewrite Hlen in Hin. destruct Hin. }
    destruct (tryOpeningCompression (base iwm) bootSpace (St.packedItems st))
      as [q |] eqn:Htry;
      [| now apply pushPacked_not_pushUnpacked in H].
    apply pushPacked_inj in H. subst q.
    unfold tryOpeningCompression in Htry.
    destruct (0 <? compressibility (base iwm)); [| discriminate].
    destruct (applyCompressionForOpening (base iwm) bootSpace)
      as [[dims applied] |] eqn:Hap; [| discriminate].
    destruct (findBestPosition dims bootSpace (St.packedItems st)); [| discriminate].
    injection Htry as <-. cbn [compressionApplied].
    apply applyCompressionForOpening_first in Hap.
    destruct Hap as (c & Hc & Happ & _ & Hbefore).
    exists c. split; [exact Hc | split; [exact Happ |]].
    intros c' o Hc' Hlt Ho Hpass.
    rewrite (Hbefore c' o Hc' Hlt Ho) in Hpass. discriminate.
  - destruct (tryOrientations (base iwm) _ bootSpace (St.packedItems st) false 0)
      as [q |] eqn:Htry.
    + apply pushPacked_inj in H. subst q.
      apply tryOrientations_Some in Htry.
      destruct Htry as (_ & _ & _ & Hc & _). congruence.
    + split.
      { intros o Ho Hpass.
        apply (tryOrientations_None_inv _ _ _ _ _ _ Htry).
        now apply filterOrientationsForOpening_In. }
      destruct (0 <? compressibility (base iwm));
        [| now apply pushPacked_not_pushUnpacked in H].
      destruct (trySpaceCompression (base iwm) bootSpace (St.packedItems st))
        as [q |] eqn:Hsp;
        [| now apply pushPacked_not_pushUnpacked in H].
      apply pushPacked_inj in H. subst q.
      now apply trySpaceCompression_first.
Qed.

Lemma compression_is_the_last_resort_witness :
  findBestPosition (Dim.mk 1100 1100 1100)
    (calculateEffectiveBootSpace (plainBoot 1000 1000 1000)) [] = None.
Proof.
  apply (proj1 (compression_is_the_last_resort
                  (calculateEffectiveBootSpace (plainBoot 1000 1000 1000))
                  initialState (withMetrics softCube) softCubePacked
                  ltac:(vm_compute; reflexivity) eq_refl)
               (Dim.mk 1100 1100 1100)).
  - left. reflexivity.
  - reflexivity.
Defined.

(** ** [applyCompressionForOpening] *)

(** X19.  [applyCompressionForOpening] gives nothing when the vehicle has
    no opening constraints or the compressibility is below 5.  What it
    gives passes the opening with the 20 mm clearance and is the first
    passing orientation of the sides scaled (and rounded to a nearest
    integer) at a level 5, 10, ... up to the compressibility; the
    compression applied is that level (exactly up to 30, and up to
    rounding above); and at every lower level the scaled sides had no
    passing orientation. *)
Theorem applyCompressionForOpening_takes_the_least_level
    (it : Item) (bootSpace : BootSpace) :
  (Space.hasOpeningConstraints bootSpace = false \/ compressibility it < 5 ->
   applyCompressionForOpening it bootSpace = None) /\
  (forall dims applied,
     applyCompressionForOpening it bootSpace = Some (dims, applied) ->
     canPassThroughOpening dims bootSpace 20 = true /\
     exists c,
       5 <= c <= compressibility it /\ (5 | c) /\
       Math_round applied = c /\
       (c <= 30 -> (applied == inject_Z c)%Q) /\
       (exists scaled,
          nearestScaled c (dimensions it) scaled /\
          find (fun o => canPassThroughOpening o bootSpace 20)
               (generateOrientations scaled (orientationConstraints it))
          = Some dims) /\
       forall c',
         5 <= c' < c -> (5 | c') ->
         exists scaled',
           nearestScaled c' (dimensions it) scaled' /\
           forall o,
             In o (generateOrientations scaled' (orientationConstraints it)) ->
             canPassThroughOpening o bootSpace 20 = false).
Proof.
  split.
  - intros [Hc | Hlow].
    + unfold applyCompressionForOpening. now rewrite Hc.
    + apply applyCompressionForOpening_None.
      intros c o Hc. apply compressionLevels_spec in Hc.
      destruct Hc as (k & -> & Hle). lia.
  - intros dims applied H.
    apply applyCompressionForOpening_first in H.
    destruct H as (c & Hc & -> & Hfind & Hbefore).
    pose proof Hc as Hc'. apply compressionLevels_spec in Hc'.
    destruct Hc' as (k & Hk & Hle).
    rewrite compressDimensions_level in Hfind by exact Hle.
    split; [now apply find_some in Hfind |].
    exists c. split; [lia | split; [exists (1 + Z.of_nat k); lia |]].
    split.
    { rewrite (Math_round_comp _ _ (actualCompression_times_100 it c Hle)).
      apply Math_round_inject_Z. }
    split; [intros _; now apply actualCompression_times_100 |].
    split.
    { exists (compressDimensions (dimensions it) (1 - inject_Z c / 100)).
      split; [apply compressDimensions_nearestScaled | exact Hfind]. }
    intros c' Hr [j Hj].
    exists (compressDimensions (dimensions it) (1 - inject_Z c' / 100)).
    split; [apply compressDimensions_nearestScaled |].
    intros o Ho. apply (Hbefore c' o).
    + apply compressionLevels_spec. exists (Z.to_nat (j - 1)). lia.
    + lia.
    + rewrite compressDimensions_level by lia. exact Ho.
Qed.

Lemma applyCompressionForOpening_takes_the_least_level_witness :
  applyCompressionForOpening smallRigidItem
    (calculateEffectiveBootSpace vehicleWithSmallOpening) = None /\
  canPassThroughOpening (Dim.mk 380 380 380)
    (calculateEffectiveBootSpace vehicleWithSmallOpening) 20 = true.
Proof.
  split.
  - apply (applyCompressionForOpening_takes_the_least_level smallRigidItem
             (calculateEffectiveBootSpace vehicleWithSmallOpening)).
    right. cbn. lia.
  - apply (proj2 (applyCompressionForOpening_takes_the_least_level
                    (box 400 400 400 any 10)
                    (calculateEffectiveBootSpace vehicleWithSmallOpening))
                 (Dim.mk 380 380 380) (actualCompression (box 400 400 400 any 10) 5 * 100)%Q).
    vm_compute. reflexivity.
Defined.

(** ** [applyCompression] *)

Lemma Qmin_div_100 (n c : Z) :
  (Qmin (inject_Z n / 100) (inject_Z c / 100) == inject_Z (Z.min n c) / 100)%Q.
Proof.
  destruct (Z.le_ge_cases n c) as [H | H].
  - rewrite Z.min_l by exact H. apply Q.min_l. now apply inject_Z_div_100_le.
  - rewrite Z.min_r by exact H. apply Q.min_r. now apply inject_Z_div_100_le.
Qed.

Lemma inject_Z_div_100_nonpos (c : Z) : c <= 0 -> (inject_Z c / 100 <= 0)%Q.
Proof.
  intros H. apply Qle_trans with (inject_Z 0 / 100)%Q.
  - now apply inject_Z_div_100_le.
  - discriminate.
Qed.

(** X20.  [applyCompression] applies the requested percentage clamped to
    the compressibility of the item: nothing (the item's own dimensions,
    0 applied) when either is not positive; otherwise the lesser of the
    two, which the percentage applied rounds to, with each side scaled by
    it and rounded to a nearest integer; and no side of non-negative
    length grows. *)
Theorem applyCompression_clamps_to_the_compressibility
    (it : Item) (compressionNeeded : Z) :
  (compressionNeeded <= 0 \/ compressibility it <= 0 ->
   applyCompression it compressionNeeded = (dimensions it, 0%Q)) /\
  (0 < compressionNeeded -> 0 < compressibility it ->
   nearestScaled (Z.min compressionNeeded (compressibility it)) (dimensions it)
                 (fst (applyCompression it compressionNeeded)) /\
   Math_round (snd (applyCompression it compressionNeeded)) =
     Z.min compressionNeeded (compressibility it)) /\
  (0 <= Dim.length (dimensions it) -> 0 <= Dim.width (dimensions it) ->
   0 <= Dim.height (dimensions it) -> compressibility it <= 100 ->
   Dim.length (fst (applyCompression it compressionNeeded))
     <= Dim.length (dimensions it) /\
   Dim.width (fst (applyCompression it compressionNeeded))
     <= Dim.width (dimensions it) /\
   Dim.height (fst (applyCompression it compressionNeeded))
     <= Dim.height (dimensions it)).
Proof.
  assert (Hnone : compressionNeeded <= 0 \/ compressibility it <= 0 ->
                  applyCompression it compressionNeeded = (dimensions it, 0%Q)).
  { intros H. unfold applyCompression.
    match goal with |- (if ?b then _ else _) = _ => destruct b eqn:E end;
      [reflexivity |].
    exfalso.
    assert (Hle : (Qmin (inject_Z compressionNeeded / 100)
                        (inject_Z (compressibility it) / 100) <= 0)%Q).
    { destruct H as [H | H].
      - eapply Qle_trans; [apply Q.le_min_l | now apply inject_Z_div_100_nonpos].
      - eapply Qle_trans; [apply Q.le_min_r | now apply inject_Z_div_100_nonpos]. }
    apply Qle_bool_iff in Hle. congruence. }
  assert (Hsome : 0 < compressionNeeded -> 0 < compressibility it ->
                  applyCompression it compressionNeeded =
                  (compressDimensions (dimensions it)
                     (1 - Qmin (inject_Z compressionNeeded / 100)
                               (inject_Z (compressibility it) / 100)),
                   (Qmin (inject_Z compressionNeeded / 100)
                         (inject_Z (compressibility it) / 100) * 100)%Q)).
  { intros Hn Hc. unfold applyCompression.
    match goal with |- (if ?b then _ else _) = _ => destruct b eqn:E end;
      [| reflexivity].
    exfalso. apply Qle_bool_iff in E. rewrite Qmin_div_100 in E.
    assert (Hpos : (0 < inject_Z (Z.min compressionNeeded (compressibility it)) / 100)%Q)
      by (apply inject_Z_div_100_pos; lia).
    exact (Qlt_not_le _ _ Hpos E). }
  assert (Hdims : 0 < compressionNeeded -> 0 < compressibility it ->
                  fst (applyCompression it compressionNeeded) =
                  compressDimensions (dimensions it)
                    (1 - inject_Z (Z.min compressionNeeded (compressibility it)) / 100)).
  { intros Hn Hc. rewrite (Hsome Hn Hc). cbn [fst].
    apply compressDimensions_comp. now rewrite Qmin_div_100. }
  split; [exact Hnone | split].
  - intros Hn Hc. split.
    + rewrite (Hdims Hn Hc). apply compressDimensions_nearestScaled.
    + rewrite (Hsome Hn Hc). cbn [snd].
      transitivity (Math_round
                      (inject_Z (Z.min compressionNeeded (compressibility it))));
        [| apply Math_round_inject_Z].
      apply Math_round_comp. rewrite Qmin_div_100. field.
  - intros Hl Hw Hh Hmax.
    destruct (Z_lt_le_dec 0 compressionNeeded) as [Hn | Hn];
      [destruct (Z_lt_le_dec 0 (compressibility it)) as [Hc | Hc] |].
    + rewrite (Hdims Hn Hc).
      unfold compressDimensions. cbn [Dim.length Dim.width Dim.height].
      set (pct := Z.min compressionNeeded (compressibility it)).
      assert (Hpct : 0 <= pct <= 100) by (unfold pct; lia).
      pose proof (Math_round_scaled (Dim.length (dimensions it)) pct) as H1.
      pose proof (Math_round_scaled (Dim.width (dimensions it)) pct) as H2.
      pose proof (Math_round_scaled (Dim.height (dimensions it)) pct) as H3.
      unfold isRoundedScale in *. nia.
    + rewrite Hnone by now right. cbn [fst]. lia.
    + rewrite Hnone by now left. cbn [fst]. lia.
Qed.

Lemma applyCompression_clamps_to_the_compressibility_witness :
  applyCompression smallRigidItem 10 = (dimensions smallRigidItem, 0%Q) /\
  Math_round (snd (applyCompression flexibleItem 50)) = 20 /\
  Dim.length (fst (applyCompression flexibleItem 50)) <= 600.
Proof.
  split; [| split].
  - apply (applyCompression_clamps_to_the_compressibility smallRigidItem 10).
    right. cbn. lia.
  - apply (applyCompression_clamps_to_the_compressibility flexibleItem 50);
      cbn; lia.
  - apply (applyCompression_clamps_to_the_compressibility flexibleItem 50);
      cbn; lia.
Defined.

(** ** The order of the input *)

Lemma sorted_Permutation_eq {A : Type} (R : A -> A -> Prop) (l1 : list A) :
  forall l2,
    StronglySorted R l1 -> StronglySorted R l2 -> Permutation l1 l2 ->
    (forall a, In a l1 -> R a a) ->
    (forall a b, In a l1 -> In b l1 -> R a b -> R b a -> a = b) ->
    l1 = l2.
Proof.
  induction l1 as [| h1 t1 IH]; intros l2 H1 H2 Hperm Hrefl Hanti.
  - apply Permutation_nil in Hperm. now subst.
  - destruct l2 as [| h2 t2].
    + apply Permutation_sym, Permutation_nil in Hperm. discriminate.
    + inversion H1 as [| x xs Hs1 Hall1]; subst.
      inversion H2 as [| y ys Hs2 Hall2]; subst.
      assert (Hin2 : In h2 (h1 :: t1))
        by (apply (Permutation_in _ (Permutation_sym Hperm)); now left).
      assert (Hin1 : In h1 (h2 :: t2))
        by (apply (Permutation_in _ Hperm); now left).
      assert (R12 : R h1 h2).
      { destruct Hin2 as [<- | Hin2]; [apply Hrefl; now left |].
        now apply (proj1 (Forall_forall _ _) Hall1). }
      assert (R21 : R h2 h1).
      { destruct Hin1 as [<- | Hin1]; [apply Hrefl; now left |].
        now apply (proj1 (Forall_forall _ _) Hall2). }
      assert (h1 = h2) by (apply Hanti; auto; now left). subst h2.
      f_equal. apply IH; try assumption.
      * now apply Permutation_cons_inv with h1.
      * intros a Ha. apply Hrefl. now right.
      * intros a b Ha Hb. apply Hanti; now right.
Qed.

Lemma preprocessItems_Permutation_eq (items items' : list Item) :
  Permutation items items' -> tiesAreCopies items ->
  preprocessItems items = preprocessItems items'.
Proof.
  intros Hperm Hties.
  apply sorted_Permutation_eq with (R := processedBefore).
  - apply preprocessItems_sorted.
  - apply preprocessItems_sorted.
  - unfold preprocessItems.
    eapply perm_trans; [apply sortBy_Permutation |].
    eapply perm_trans; [| apply Permutation_sym, sortBy_Permutation].
    now apply Permutation_map.
  - intros a _. unfold processedBefore. lia.
  - intros a b Ha Hb Hab Hba.
    apply preprocessItems_In in Ha, Hb.
    destruct Ha as [Ha Ea], Hb as [Hb Eb].
    rewrite Ea, Eb in *. f_equal.
    unfold processedBefore in Hab, Hba. cbn [itemVolume rigidityOrder withMetrics] in Hab, Hba.
    apply Hties; try assumption; lia.
Qed.

(** X30.  The result of [packItems] does not depend on the order in which
    the items are given, as long as items that tie on volume and rigidity
    are copies of one item: the whole result (entries, positions,
    warnings, utilization) is the same for every rearrangement of the
    list. *)
Theorem packItems_ignores_the_input_order
    (vehicle : Vehicle) (items items' : list Item) :
  Permutation items items' ->
  tiesAreCopies items ->
  packItems vehicle items = packItems vehicle items'.
Proof.
  intros Hperm Hties. unfold packItems.
  now rewrite (preprocessItems_Permutation_eq items items' Hperm Hties).
Qed.

Lemma packItems_ignores_the_input_order_witness :
  packItems mockVehicle [smallRigidItem; flexibleItem; smallRigidItem] =
  packItems mockVehicle [flexibleItem; smallRigidItem; smallRigidItem].
Proof.
  apply (packItems_ignores_the_input_order mockVehicle
           [smallRigidItem; flexibleItem; smallRigidItem]
           [flexibleItem; smallRigidItem; smallRigidItem]).
  - apply perm_swap.
  - intros a b Ha Hb Hv _.
    cbn [In] in Ha, Hb.
    destruct Ha as [<- | [<- | [<- | []]]], Hb as [<- | [<- | [<- | []]]];
      try reflexivity; vm_compute in Hv; discriminate.
Defined.

(** Items that tie without being copies are packed in the order given. *)
Example tied_items_are_packed_in_input_order :
  map item (packedItems (packItems mockVehicle [crateA; crateB])) = [crateA; crateB] /\
  map item (packedItems (packItems mockVehicle [crateB; crateA])) = [crateB; crateA].
Proof. split; vm_compute; reflexivity. Qed.

(** * Validation *)

Lemma check_nil (bad : bool) (e : ValidationError) :
  check bad e = [] <-> bad = false.
Proof. destruct bad; cbn; split; congruence. Qed.

Lemma app_nil_iff {A : Type} (l1 l2 : list A) :
  l1 ++ l2 = [] <-> l1 = [] /\ l2 = [].
Proof.
  split.
  - apply app_eq_nil.
  - now intros [-> ->].
Qed.

Lemma dimensionErrors_nil (d : JsValue) :
  dimensionErrors d = [] <->
  notPositiveInteger (prop d "length") = false /\
  notPositiveInteger (prop d "width") = false /\
  notPositiveInteger (prop d "height") = false.
Proof.
  unfold dimensionErrors. now rewrite !app_nil_iff, !check_nil.
Qed.

Lemma itemErrors_nil (item : JsValue) :
  itemErrors item = [] <->
  (toBoolean (prop item "name") = true /\
   typeof (prop item "name") = "string"%string) /\
  (toBoolean (prop item "dimensions") = true /\
   dimensionErrors (prop item "dimensions") = []) /\
  (typeof (prop item "weight") = "number"%string /\
   ltConst (prop item "weight") (1 # 10) = false /\
   gtConst (prop item "weight") 50 = false) /\
  includes ItemRigidity_values (prop item "rigidity") = true /\
  includes validCategories (prop item "category") = true /\
  typeof (prop item "cabinSuitable") = "boolean"%string /\
  (Number_isInteger (prop item "compressibility") = true /\
   ltConst (prop item "compressibility") 0 = false /\
   gtConst (prop item "compressibility") 30 = false) /\
  typeof (prop item "stackable") = "boolean"%string /\
  includes validOrientations (prop item "orientationConstraints") = true /\
  typeof (prop item "customItem") = "boolean"%string.
Proof.
  unfold itemErrors. rewrite !app_nil_iff, !check_nil.
  rewrite !orb_false_iff, !negb_false_iff, !String.eqb_eq.
  destruct (toBoolean (prop item "dimensions")); cbn [negb].
  - intuition congruence.
  - intuition congruence.
Qed.

Lemma validateItem_Some (item : JsValue) (r : ValidationResult) :
  validateItem item = Some r ->
  errors r = itemErrors item /\ (isValid r = true <-> itemErrors item = []).
Proof.
  intros H.
  assert (Hr : r = mkValidation (List.length (itemErrors item) =? 0)%nat
                                (itemErrors item)).
  { destruct item; unfold validateItem in H; congruence. }
  subst r. cbn [errors isValid]. split; [reflexivity |].
  rewrite Nat.eqb_eq. apply length_zero_iff_nil.
Qed.

Lemma typeof_string (v : JsValue) :
  typeof v = "string"%string -> exists s, v = JsString s.
Proof. destruct v; cbn; try discriminate. eauto. Qed.

Lemma typeof_boolean (v : JsValue) :
  typeof v = "boolean"%string -> exists b, v = JsBoolean b.
Proof. destruct v; cbn; try discriminate. eauto. Qed.

Lemma typeof_number (v : JsValue) :
  typeof v = "number"%string -> exists n, v = JsNum n.
Proof. destruct v; cbn; try discriminate. eauto. Qed.

Lemma Number_isInteger_spec (v : JsValue) :
  Number_isInteger v = true ->
  exists n : Z, asInteger v = Some n /\ exists q, v = JsNum (Finite q) /\ (q == inject_Z n)%Q.
Proof.
  destruct v as [| | | [| | | q] | | |]; cbn; try discriminate.
  intros H. exists (Qfloor q). rewrite H. split; [reflexivity |].
  exists q. split; [reflexivity |]. apply Qeq_bool_iff in H. now symmetry.
Qed.

Lemma notPositiveInteger_false (v : JsValue) :
  notPositiveInteger v = false -> exists n : Z, asInteger v = Some n /\ 0 < n.
Proof.
  unfold notPositiveInteger. rewrite orb_false_iff, negb_false_iff.
  intros [Hint Hle]. destruct (Number_isInteger_spec v Hint) as (n & Hn & q & -> & Hq).
  exists n. split; [exact Hn |].
  unfold leConst in Hle.
  destruct (Z_lt_le_dec 0 n) as [Hpos | Hneg]; [exact Hpos | exfalso].
  assert (Hq0 : (q <= 0)%Q).
  { rewrite Hq. change 0%Q with (inject_Z 0). now rewrite <- Zle_Qle. }
  apply Qle_bool_iff in Hq0. congruence.
Qed.

Lemma includes_asEnum {A : Type} (values : list A) (text : A -> string)
    (v : JsValue) :
  includes (map text values) v = true ->
  exists a, asEnum values text v = Some a.
Proof.
  destruct v; cbn; try discriminate.
  intros H. apply existsb_exists in H. destruct H as (t & Hin & Ht).
  apply in_map_iff in Hin. destruct Hin as (a & <- & Ha).
  destruct (find (fun a0 => String.eqb s (text a0)) values) as [a' |] eqn:E.
  - eauto.
  - rewrite (find_none _ _ E a Ha) in Ht. discriminate.
Qed.

Lemma toBoolean_string (s : string) :
  toBoolean (JsString s) = true -> s <> EmptyString.
Proof.
  cbn. rewrite negb_true_iff. intros H ->. discriminate.
Qed.

Lemma accepted_decodes (v : JsValue) :
  itemErrors v = [] ->
  prop v "weight" = JsNum NaN \/
  exists it, asItem v = Some it /\ acceptableItem it.
Proof.
  intros H. apply itemErrors_nil in H.
  destruct H as ((Hn1 & Hn2) & (_ & Hd) & (Hw1 & Hw2 & Hw3) & Hr & Hc & Hcs &
                 (Hz1 & Hz2 & Hz3) & Hst & Hoc & Hcu).
  apply typeof_string in Hn2. destruct Hn2 as (n & En). rewrite En in Hn1.
  apply toBoolean_string in Hn1.
  apply dimensionErrors_nil in Hd. destruct Hd as (Hl & Hwd & Hh).
  apply notPositiveInteger_false in Hl, Hwd, Hh.
  destruct Hl as (l & El & Hl), Hwd as (w & Ew & Hwd), Hh as (h & Eh & Hh).
  apply typeof_number in Hw1. destruct Hw1 as (wt & Ewt).
  rewrite Ewt in Hw2, Hw3.
  destruct wt as [| | | q]; [now left | discriminate | discriminate |].
  right.
  apply (includes_asEnum [VERY_FLEXIBLE; FLEXIBLE; SEMI_RIGID; RIGID; COMPLETELY_RIGID]
           rigidityValue) in Hr. destruct Hr as (r & Er).
  apply (includes_asEnum [luggage; baby_gear; sports; shopping; equipment; custom]
           categoryValue) in Hc. destruct Hc as (c & Ec).
  apply (includes_asEnum [any; upright_only; flat_only] orientationValue) in Hoc.
  destruct Hoc as (oc & Eoc).
  apply typeof_boolean in Hcs, Hst, Hcu.
  destruct Hcs as (cs & Ecs), Hst as (st & Est), Hcu as (cu & Ecu).
  destruct (Number_isInteger_spec _ Hz1) as (cz & Ecz & qz & Eqz & Hqz).
  rewrite Eqz in Hz2, Hz3. unfold ltConst, gtConst in Hz2, Hz3.
  rewrite negb_false_iff in Hz2, Hz3. apply Qle_bool_iff in Hz2, Hz3.
  rewrite Hqz in Hz2, Hz3.
  change 0%Q with (inject_Z 0) in Hz2. change 30%Q with (inject_Z 30) in Hz3.
  rewrite <- Zle_Qle in Hz2, Hz3.
  unfold ltConst, gtConst in Hw2, Hw3. rewrite negb_false_iff in Hw2, Hw3.
  apply Qle_bool_iff in Hw2, Hw3.
  exists (mkItem n (Dim.mk l w h) q r c cs cz st oc cu). split.
  - unfold asItem, asDimensions.
    rewrite En, Ewt, Er, Ec, Ecs, Ecz, Est, Eoc, Ecu. cbn [asString bind].
    rewrite El, Ew, Eh. reflexivity.
  - unfold acceptableItem, validItem, positiveSides, compressibilityInRange.
    cbn. repeat split; assumption.
Qed.

(** X21.  An item that [validateItem] accepts is an item of the data
    model of the engine, unless its weight is [NaN] (which the range test
    lets through): it decodes to a typed [Item] with a non-empty name,
    positive integer dimensions, a compressibility from 0 to 30 and a
    weight from 0.1 to 50. *)
Theorem validateItem_accepts_only_the_data_model
    (v : JsValue) (r : ValidationResult) :
  validateItem v = Some r ->
  isValid r = true ->
  prop v "weight" = JsNum NaN \/
  exists it, asItem v = Some it /\ acceptableItem it.
Proof.
  intros H Hvalid. apply validateItem_Some in H. destruct H as [_ H].
  apply accepted_decodes. now apply H.
Qed.

Lemma validateItem_accepts_only_the_data_model_witness :
  prop (ofItem smallRigidItem) "weight" = JsNum NaN \/
  exists it, asItem (ofItem smallRigidItem) = Some it /\ acceptableItem it.
Proof.
  apply (validateItem_accepts_only_the_data_model (ofItem smallRigidItem)
           (mkValidation true [])).
  - vm_compute. reflexivity.
  - reflexivity.
Defined.

Lemma asInteger_jsInteger (n : Z) : asInteger (jsInteger n) = Some n.
Proof.
  unfold asInteger, jsInteger. rewrite Qfloor_Z.
  now rewrite (proj2 (Qeq_bool_iff _ _) (Qeq_refl _)).
Qed.

Lemma Number_isInteger_jsInteger (n : Z) : Number_isInteger (jsInteger n) = true.
Proof.
  unfold Number_isInteger, jsInteger. rewrite Qfloor_Z.
  apply Qeq_bool_iff. reflexivity.
Qed.

Lemma leConst_jsInteger (n c : Z) :
  leConst (jsInteger n) (inject_Z c) = (n <=? c).
Proof.
  unfold leConst, jsInteger.
  destruct (Z.leb_spec n c) as [H | H].
  - apply Qle_bool_iff. now rewrite <- Zle_Qle.
  - destruct (Qle_bool (inject_Z n) (inject_Z c)) eqn:E; [| reflexivity].
    apply Qle_bool_iff in E. rewrite <- Zle_Qle in E. lia.
Qed.

Lemma ltConst_jsInteger (n c : Z) :
  ltConst (jsInteger n) (inject_Z c) = (n <? c).
Proof.
  unfold ltConst, jsInteger.
  destruct (Z.ltb_spec n c) as [H | H].
  - destruct (Qle_bool (inject_Z c) (inject_Z n)) eqn:E; [| reflexivity].
    apply Qle_bool_iff in E. rewrite <- Zle_Qle in E. lia.
  - apply negb_false_iff, Qle_bool_iff. now rewrite <- Zle_Qle.
Qed.

Lemma gtConst_jsInteger (n c : Z) :
  gtConst (jsInteger n) (inject_Z c) = (c <? n).
Proof.
  unfold gtConst, jsInteger.
  destruct (Z.ltb_spec c n) as [H | H].
  - destruct (Qle_bool (inject_Z n) (inject_Z c)) eqn:E; [| reflexivity].
    apply Qle_bool_iff in E. rewrite <- Zle_Qle in E. lia.
  - apply negb_false_iff, Qle_bool_iff. now rewrite <- Zle_Qle.
Qed.

Lemma notPositiveInteger_jsInteger (n : Z) :
  notPositiveInteger (jsInteger n) = (n <=? 0).
Proof.
  unfold notPositiveInteger. rewrite Number_isInteger_jsInteger.
  change 0%Q with (inject_Z 0). now rewrite leConst_jsInteger.
Qed.

Lemma asItem_ofItem (it : Item) : asItem (ofItem it) = Some it.
Proof.
  destruct it as [n [l w h] wt r c cs cz st oc cu].
  unfold asItem, asDimensions, ofItem, ofDimensions.
  cbn [prop lookup find fst snd String.eqb Ascii.eqb Bool.eqb
       name dimensions weight rigidity category cabinSuitable compressibility
       stackable orientationConstraints customItem
       Dim.length Dim.width Dim.height asString asBoolean asFinite bind].
  rewrite !asInteger_jsInteger. cbn [bind].
  destruct r, c, oc; reflexivity.
Qed.

Lemma itemErrors_ofItem (it : Item) :
  itemErrors (ofItem it) = [] <-> acceptableItem it.
Proof.
  rewrite itemErrors_nil, dimensionErrors_nil.
  destruct it as [n [l w h] wt r c cs cz st oc cu].
  unfold ofItem, ofDimensions, acceptableItem, validItem, positiveSides,
    compressibilityInRange.
  cbn [prop lookup find fst snd String.eqb Ascii.eqb Bool.eqb
       name dimensions weight rigidity category cabinSuitable compressibility
       stackable orientationConstraints customItem
       Dim.length Dim.width Dim.height typeof].
  rewrite !notPositiveInteger_jsInteger, Number_isInteger_jsInteger.
  change 0%Q with (inject_Z 0). change 30%Q with (inject_Z 30).
  rewrite ltConst_jsInteger, gtConst_jsInteger.
  rewrite !Z.leb_gt, !Z.ltb_ge.
  unfold ltConst, gtConst. rewrite !negb_false_iff, !Qle_bool_iff.
  assert (Hr : includes ItemRigidity_values (JsString (rigidityValue r)) = true)
    by now destruct r.
  assert (Hc : includes validCategories (JsString (categoryValue c)) = true)
    by now destruct c.
  assert (Ho : includes validOrientations (JsString (orientationValue oc)) = true)
    by now destruct oc.
  assert (Hn : toBoolean (JsString n) = true <-> n <> EmptyString).
  { cbn [toBoolean]. rewrite negb_true_iff. split.
    - intros H ->. discriminate.
    - intros H. destruct (String.eqb_spec n EmptyString); congruence. }
  rewrite Hr, Hc, Ho, Hn. intuition.
Qed.

(** X22.  A typed item, written out as a value, reads back as itself,
    and [validateItem] accepts it exactly when its name is not empty, its
    dimensions are positive, its compressibility is from 0 to 30 and its
    weight is from 0.1 to 50; the other fields cannot be wrong. *)
Theorem validateItem_on_typed_items (it : Item) :
  asItem (ofItem it) = Some it /\
  exists r,
    validateItem (ofItem it) = Some r /\
    (isValid r = true <-> acceptableItem it).
Proof.
  split; [apply asItem_ofItem |].
  exists (mkValidation (List.length (itemErrors (ofItem it)) =? 0)%nat
                       (itemErrors (ofItem it))).
  split; [reflexivity |]. cbn [isValid].
  rewrite Nat.eqb_eq, length_zero_iff_nil. apply itemErrors_ofItem.
Qed.

(** ** The errors of one item *)

Lemma Subseq_app {A : Type} (l1 t1 l2 t2 : list A) :
  Subseq l1 t1 -> Subseq l2 t2 -> Subseq (l1 ++ l2) (t1 ++ t2).
Proof.
  intros H1 H2. induction H1; cbn [app]; [exact H2 | |]; now constructor.
Qed.

Lemma Subseq_In {A : Type} (l t : list A) (a : A) :
  Subseq l t -> In a l -> In a t.
Proof.
  induction 1 as [| b l t H IH | b l t H IH]; cbn [In]; intuition.
Qed.

Lemma Subseq_NoDup {A : Type} (l t : list A) :
  Subseq l t -> NoDup t -> NoDup l.
Proof.
  induction 1 as [| b l t H IH | b l t H IH]; intros Ht.
  - constructor.
  - inversion Ht; subst. now apply IH.
  - inversion Ht; subst. constructor; [| now apply IH].
    intros Hin. now apply (Subseq_In _ _ _ H) in Hin.
Qed.

Lemma Subseq_length {A : Type} (l t : list A) :
  Subseq l t -> (List.length l <= List.length t)%nat.
Proof. induction 1; cbn [List.length]; lia. Qed.

Lemma Subseq_check (bad : bool) (e : ValidationError) :
  Subseq (map field (check bad e)) [field e].
Proof.
  destruct bad; cbn.
  - apply Subseq_keep, Subseq_nil.
  - apply Subseq_skip, Subseq_nil.
Qed.

Lemma laterFields_NoDup : NoDup fieldsWithoutDimensions /\ NoDup fieldsWithDimensions.
Proof.
  split; apply (NoDup_count_occ' string_dec); intros x Hx;
    cbn in Hx; repeat (destruct Hx as [<- | Hx]; [reflexivity |]); destruct Hx.
Qed.

Lemma itemErrors_fields (item : JsValue) :
  (toBoolean (prop item "dimensions") = false /\
   Subseq (map field (itemErrors item)) fieldsWithoutDimensions) \/
  (toBoolean (prop item "dimensions") = true /\
   Subseq (map field (itemErrors item)) fieldsWithDimensions).
Proof.
  assert (Hlater : forall b1 e1 b2 e2 b3 e3 b4 e4 b5 e5 b6 e6 b7 e7 b8 e8,
            Subseq (map field (check b1 e1 ++ check b2 e2 ++ check b3 e3 ++
                               check b4 e4 ++ check b5 e5 ++ check b6 e6 ++
                               check b7 e7 ++ check b8 e8))
                   ([field e1] ++ [field e2] ++ [field e3] ++ [field e4] ++
                    [field e5] ++ [field e6] ++ [field e7] ++ [field e8])).
  { intros. rewrite !map_app.
    repeat (apply Subseq_app; [apply Subseq_check |]). apply Subseq_check. }
  unfold itemErrors.
  destruct (toBoolean (prop item "dimensions")); cbn [negb]; [right | left];
    (split; [reflexivity |]); rewrite !map_app.
  - apply (Subseq_app _ ["name"%string]); [apply Subseq_check |].
    apply (Subseq_app _ ["dimensions.length"; "dimensions.width";
                         "dimensions.height"]%string).
    + unfold dimensionErrors. rewrite !map_app.
      apply (Subseq_app _ ["dimensions.length"%string]); [apply Subseq_check |].
      apply (Subseq_app _ ["dimensions.width"%string]); apply Subseq_check.
    + rewrite <- !map_app. apply Hlater.
  - apply (Subseq_app _ ["name"%string]); [apply Subseq_check |].
    apply (Subseq_app _ ["dimensions"%string]);
      [apply Subseq_keep, Subseq_nil |].
    rewrite <- !map_app. apply Hlater.
Qed.

(** X23.  [validateItem] fails only on [undefined] and [null].  On any
    other value it is valid exactly when it reports no error, and it
    reports each field at most once and in a fixed order: the error
    fields are [name], then [dimensions] alone or some of the three
    dimensions, then the remaining fields, so at most twelve errors. *)
Theorem validateItem_reports_each_field_once (v : JsValue) :
  (validateItem v = None <-> v = JsUndefined \/ v = JsNull) /\
  (forall r, validateItem v = Some r ->
     (isValid r = true <-> errors r = []) /\
     (Subseq (map field (errors r)) fieldsWithoutDimensions \/
      Subseq (map field (errors r)) fieldsWithDimensions) /\
     NoDup (map field (errors r)) /\
     (List.length (errors r) <= 12)%nat).
Proof.
  split.
  - destruct v; cbn; split; intros H; try discriminate; auto;
      destruct H; discriminate.
  - intros r H. apply validateItem_Some in H. destruct H as [He Hv].
    rewrite He. split; [exact Hv |].
    destruct laterFields_NoDup as [N1 N2].
    destruct (itemErrors_fields v) as [[_ H] | [_ H]].
    + split; [now left | split].
      * now apply Subseq_NoDup with fieldsWithoutDimensions.
      * apply Subseq_length in H. rewrite length_map in H. cbn in H. lia.
    + split; [now right | split].
      * now apply Subseq_NoDup with fieldsWithDimensions.
      * apply Subseq_length in H. rewrite length_map in H. cbn in H. lia.
Qed.

(** ** The errors of a list of items *)

Lemma validateItem_None (v : JsValue) :
  validateItem v = None <-> nullish v.
Proof.
  unfold nullish.
  destruct v; cbn; split; intros H; try discriminate; auto;
    destruct H; discriminate.
Qed.

Lemma validateEach_None (items : list JsValue) :
  forall index,
    validateEach items index = None <-> exists item, In item items /\ nullish item.
Proof.
  induction items as [| item rest IH]; intros index; cbn [validateEach].
  - split; [discriminate | intros (x & [] & _)].
  - destruct (validateItem item) as [r |] eqn:E.
    + destruct (validateEach rest (S index)) as [more |] eqn:E'.
      * split; [discriminate |]. intros (x & [<- | Hx] & Hn).
        -- apply validateItem_None in Hn. congruence.
        -- assert (H : validateEach rest (S index) = None)
             by (apply IH; eauto).
           congruence.
      * split; [| reflexivity]. intros _.
        apply IH in E'. destruct E' as (x & Hx & Hn).
        exists x. split; [now right | exact Hn].
    + split; [| reflexivity]. intros _. exists item.
      split; [now left | now apply validateItem_None].
Qed.

Lemma validateEach_In (items : list JsValue) :
  forall index errs,
    validateEach items index = Some errs ->
    forall e,
      In e errs <->
      exists i item r e',
        nth_error items i = Some item /\ validateItem item = Some r /\
        In e' (errors r) /\ e = indexedError (index + i) e'.
Proof.
  induction items as [| item rest IH]; intros index errs H e;
    cbn [validateEach] in H.
  - injection H as <-. split; [intros [] |].
    intros (i & x & _ & _ & Hn & _). now destruct i.
  - destruct (validateItem item) as [r |] eqn:E; [| discriminate].
    destruct (validateEach rest (S index)) as [more |] eqn:E'; [| discriminate].
    injection H as <-. rewrite in_app_iff, (IH _ _ E' e).
    assert (Hhead : In e (if negb (isValid r)
                          then map (indexedError index) (errors r) else []) <->
                    exists e', In e' (errors r) /\ e = indexedError index e').
    { destruct (validateItem_Some _ _ E) as [_ Hv].
      destruct (isValid r) eqn:Ev; cbn [negb].
      - assert (Hnil : errors r = []).
        { destruct (validateItem_Some _ _ E) as [-> _]. now apply Hv. }
        rewrite Hnil. split; [intros [] | intros (e' & [] & _)].
      - rewrite in_map_iff. split; intros (e' & H1 & H2); eauto. }
    rewrite Hhead. split.
    + intros [(e' & He' & ->) | (i & x & rx & e' & Hn & Hx & He' & ->)].
      * exists O, item, r, e'. rewrite Nat.add_0_r. auto.
      * exists (S i), x, rx, e'. rewrite <- plus_n_Sm. auto.
    + intros (i & x & rx & e' & Hn & Hx & He' & ->).
      destruct i as [| i]; cbn [nth_error] in Hn.
      * injection Hn as <-. left. exists e'. rewrite Nat.add_0_r.
        split; [congruence | reflexivity].
      * right. exists i, x, rx, e'. rewrite <- plus_n_Sm. auto.
Qed.

Lemma validateEach_nil (items : list JsValue) (index : nat)
    (errs : list ValidationError) :
  validateEach items index = Some errs ->
  errs = [] <-> forall item, In item items -> accepted item.
Proof.
  intros H. split.
  - intros -> item Hin.
    apply In_nth_error in Hin. destruct Hin as (i & Hi).
    destruct (validateItem item) as [r |] eqn:E.
    + exists r. split; [exact E |].
      destruct (validateItem_Some _ _ E) as [He Hv]. apply Hv. rewrite <- He.
      destruct (errors r) as [| e' l] eqn:El; [reflexivity | exfalso].
      apply (proj2 (validateEach_In _ _ _ H (indexedError (index + i) e'))).
      exists i, item, r, e'. rewrite El. cbn. auto.
    + exfalso.
      assert (Hnone : validateEach items index = None).
      { apply validateEach_None. exists item. split.
        - now apply nth_error_In with i.
        - now apply validateItem_None. }
      congruence.
  - intros Hall. destruct errs as [| e l]; [reflexivity | exfalso].
    destruct (proj1 (validateEach_In _ _ _ H e) (or_introl eq_refl))
      as (i & item & r & e' & Hn & Hr & He' & _).
    apply nth_error_In in Hn. destruct (Hall item Hn) as (r' & Hr' & Hv).
    assert (r' = r) by congruence. subst r'.
    destruct (validateItem_Some _ _ Hr) as [He Hvalid].
    apply Hvalid in Hv. rewrite He, Hv in He'. destruct He'.
Qed.

(** X24.  [validateItems] gives the single error [items must be an
    array] for anything but an array.  For an array it fails (by the
    [TypeError] of [validateItem]) exactly when an element is [undefined]
    or [null]; otherwise it is valid exactly when [validateItem] accepts
    every element, and its errors are the errors of the elements, each
    under the field [items[i].] followed by its own field, with [i] the
    index of the element. *)
Theorem validateItems_collects_the_errors_of_every_item :
  (forall v, (forall elements, v <> JsArray elements) ->
     validateItems v =
     Some (mkValidation false [mkError "items" "items must be an array" None])) /\
  (forall elements,
     (validateItems (JsArray elements) = None <->
      exists item, In item elements /\ nullish item) /\
     (forall r, validateItems (JsArray elements) = Some r ->
        (isValid r = true <-> forall item, In item elements -> accepted item) /\
        (forall e, In e (errors r) <->
           exists i item ri e',
             nth_error elements i = Some item /\
             validateItem item = Some ri /\ In e' (errors ri) /\
             field e = ("items[" ++ decimal (Z.of_nat i) ++ "]." ++ field e')%string /\
             message e = message e' /\
             e = indexedError i e'))).
Proof.
  split.
  - intros v Hv. destruct v; try reflexivity. now destruct (Hv elements).
  - intros elements. cbn [validateItems]. split.
    + rewrite <- validateEach_None with (index := O).
      destruct (validateEach elements 0); split; congruence.
    + intros r H.
      destruct (validateEach elements 0) as [errs |] eqn:E; [| discriminate].
      injection H as <-. cbn [isValid errors]. split.
      * rewrite Nat.eqb_eq, length_zero_iff_nil.
        now apply validateEach_nil with O.
      * intros e. rewrite (validateEach_In _ _ _ E e). cbn [Nat.add].
        split; intros (i & item & ri & e' & H1 & H2 & H3 & H4).
        -- exists i, item, ri, e'. subst e. cbn [indexedError field message]. auto 8.
        -- exists i, item, ri, e'. tauto.
Qed.

(** ** Filtering the loaded items *)

Lemma prefix_append (p s : string) : String.prefix p (p ++ s) = true.
Proof.
  induction p as [| a p IH]; cbn [append String.prefix].
  - now destruct s.
  - destruct (ascii_dec a a) as [_ | H]; [exact IH | now destruct H].
Qed.

Lemma append_assoc (a b c : string) : ((a ++ b) ++ c = a ++ (b ++ c))%string.
Proof. induction a as [| x a IH]; cbn [append]; [reflexivity | now rewrite IH]. Qed.

Lemma indexedError_prefix (index : nat) (e : ValidationError) :
  String.prefix ("items[" ++ decimal (Z.of_nat index) ++ "]")
                (field (indexedError index e)) = true.
Proof.
  cbn [indexedError field].
  replace ("items[" ++ decimal (Z.of_nat index) ++ "]." ++ field e)%string
    with (("items[" ++ decimal (Z.of_nat index) ++ "]") ++ "." ++ field e)%string.
  - apply prefix_append.
  - rewrite !append_assoc. reflexivity.
Qed.

(** ** Decimal indices *)

Lemma allDigits_string_of_uint (d : Decimal.uint) :
  allDigits (NilEmpty.string_of_uint d) = true.
Proof. induction d; cbn; auto. Qed.

Lemma allDigits_decimal (n : nat) : allDigits (decimal (Z.of_nat n)) = true.
Proof.
  unfold decimal. destruct (Z.of_nat n) as [| p | p] eqn:E; [reflexivity | | lia].
  cbn [Z.to_int NilZero.string_of_int].
  destruct (Pos.to_uint p) eqn:Ep; try apply allDigits_string_of_uint.
  reflexivity.
Qed.

Lemma decimal_inj (i j : nat) :
  decimal (Z.of_nat i) = decimal (Z.of_nat j) -> i = j.
Proof.
  unfold decimal. intros H.
  assert (Hnn : forall n : Z, Z.to_int n <> Decimal.Pos Decimal.Nil /\ Z.to_int n <> Decimal.Neg Decimal.Nil).
  { intros [| p | p]; cbn [Z.to_int]; split; try discriminate;
      intros [= Hp]; now apply (DecimalPos.Unsigned.to_uint_nonnil p). }
  apply (f_equal NilZero.int_of_string) in H.
  rewrite !NilZero.isi in H by apply Hnn.
  injection H as H. apply DecimalZ.to_int_inj in H. lia.
Qed.

Lemma prefix_digits (s1 s2 rest : string) :
  allDigits s1 = true -> allDigits s2 = true ->
  String.prefix (s1 ++ "]") (s2 ++ "]" ++ rest) = true -> s1 = s2.
Proof.
  revert s2. induction s1 as [| c s1 IH]; intros [| c' s2] H1 H2 H;
    cbn [append String.prefix allDigits] in *.
  - reflexivity.
  - apply andb_prop in H2. destruct H2 as [Hc _].
    destruct (ascii_dec "]" c') as [<- | _]; discriminate.
  - apply andb_prop in H1. destruct H1 as [Hc _].
    destruct (ascii_dec c "]") as [-> | _]; discriminate.
  - apply andb_prop in H1, H2. destruct H1 as [_ H1], H2 as [_ H2].
    destruct (ascii_dec c c') as [<- | _]; [| discriminate].
    f_equal. now apply IH.
Qed.

Lemma indexedError_prefix_inv (i j : nat) (e : ValidationError) :
  String.prefix ("items[" ++ decimal (Z.of_nat i) ++ "]")
                (field (indexedError j e)) = true ->
  i = j.
Proof.
  cbn [indexedError field]. intros H.
  apply decimal_inj.
  apply prefix_digits with ("." ++ field e)%string;
    try apply allDigits_decimal.
  cbn [append String.prefix] in H.
  repeat match type of H with
         | (if ascii_dec ?a ?a then _ else _) = _ =>
             destruct (ascii_dec a a) as [_ | Hne]; [| now destruct Hne]
         end.
  replace ("]." ++ field e)%string with ("]" ++ "." ++ field e)%string in H
    by reflexivity.
  exact H.
Qed.

Lemma keepFrom_filter (all : list JsValue) (errs : list ValidationError)
    (b : bool) :
  validateEach all 0 = Some errs ->
  forall (data : list JsValue) (index : nat),
    (forall i item, nth_error data i = Some item ->
                    nth_error all (index + i) = Some item) ->
    keepFrom data index (mkValidation b errs) = filter acceptedb data.
Proof.
  intros Hall. induction data as [| item rest IH]; intros index Hsub;
    cbn [keepFrom filter]; [reflexivity |].
  assert (Hrest : keepFrom rest (S index) (mkValidation b errs) =
                  filter acceptedb rest).
  { apply IH. intros i x Hx.
    replace (S index + i)%nat with (index + S i)%nat by lia.
    now apply Hsub. }
  rewrite Hrest. cbn [errors].
  assert (Hitem : nth_error all index = Some item).
  { rewrite <- (Nat.add_0_r index). now apply Hsub. }
  assert (Hex : existsb
            (fun error =>
               String.prefix ("items[" ++ decimal (Z.of_nat index) ++ "]")
                             (field error)) errs = negb (acceptedb item)).
  { unfold acceptedb.
    destruct (validateItem item) as [r |] eqn:Er.
    - destruct (validateItem_Some _ _ Er) as [He Hv].
      destruct (isValid r) eqn:Ev; cbn [negb].
      + destruct (existsb _ errs) eqn:Eex; [exfalso | reflexivity].
        apply existsb_exists in Eex. destruct Eex as (e & Hin & Hp).
        apply (validateEach_In _ _ _ Hall) in Hin.
        destruct Hin as (j & x & rx & e' & Hn & Hx & He' & ->).
        cbn [Nat.add] in Hp. apply indexedError_prefix_inv in Hp. subst j.
        assert (x = item) by congruence. subst x.
        assert (rx = r) by congruence. subst rx.
        rewrite He in He'. rewrite (proj1 Hv eq_refl) in He'. destruct He'.
      + apply existsb_exists.
        destruct (errors r) as [| e' l] eqn:El.
        * symmetry in He. apply (proj2 Hv) in He. discriminate.
        * exists (indexedError index e'). split; [| apply indexedError_prefix].
          apply (validateEach_In _ _ _ Hall).
          exists index, item, r, e'. rewrite El. cbn. auto.
    - exfalso.
      assert (Hnone : validateEach all 0 = None).
      { apply validateEach_None. exists item. split.
        - now apply nth_error_In with index.
        - now apply validateItem_None. }
      congruence. }
  rewrite Hex. now destruct (acceptedb item).
Qed.

Lemma acceptedb_spec (item : JsValue) : acceptedb item = true <-> accepted item.
Proof.
  unfold acceptedb, accepted. destruct (validateItem item) as [r |]; split.
  - intros H. now exists r.
  - intros (r' & [= <-] & H). exact H.
  - discriminate.
  - intros (r' & H & _). discriminate.
Qed.

(** X25.  The items that [loadData] keeps after a validation are exactly
    the valid ones, in their order: a loaded item is kept if and only if
    [validateItem] accepts it.  (The test is by the prefix [items[i]] of
    the error fields; the closing bracket keeps the index [1] apart from
    [10].) *)
Theorem loadData_keeps_exactly_the_valid_items
    (data : list JsValue) (validation : ValidationResult) :
  validateItems (JsArray data) = Some validation ->
  validItems data validation = filter acceptedb data /\
  (forall item, In item (validItems data validation) <->
                In item data /\ accepted item).
Proof.
  cbn [validateItems]. intros H.
  destruct (validateEach data 0) as [errs |] eqn:E; [| discriminate].
  injection H as <-.
  assert (Heq : validItems data (mkValidation (List.length errs =? 0)%nat errs) =
                filter acceptedb data).
  { unfold validItems. apply keepFrom_filter with data; [exact E |].
    intros i item Hi. exact Hi. }
  split; [exact Heq |].
  intros item. rewrite Heq, filter_In, acceptedb_spec. reflexivity.
Qed.

(** * The selection *)

Lemma find_sameName_None (item : Item) (prev : list ItemWithQuantity) :
  find (sameName item) prev = None <-> ~ In (name item) (selectedNames prev).
Proof.
  split.
  - intros H Hin. unfold selectedNames in Hin. apply in_map_iff in Hin.
    destruct Hin as (si & Hn & Hsi).
    pose proof (find_none _ _ H si Hsi) as Hf. unfold sameName in Hf.
    rewrite Hn, String.eqb_refl in Hf. discriminate.
  - intros H. destruct (find (sameName item) prev) as [si |] eqn:E;
      [exfalso | reflexivity].
    apply find_some in E. destruct E as [Hin Hs]. apply H.
    unfold selectedNames. apply in_map_iff. exists si. split; [| exact Hin].
    now apply String.eqb_eq.
Qed.

Lemma selectedNames_map (f : ItemWithQuantity -> ItemWithQuantity)
    (l : list ItemWithQuantity) :
  (forall si, name (selected (f si)) = name (selected si)) ->
  selectedNames (map f l) = selectedNames l.
Proof.
  intros H. unfold selectedNames. rewrite map_map. apply map_ext. exact H.
Qed.

Lemma NoDup_selectedNames_filter (P : ItemWithQuantity -> bool)
    (l : list ItemWithQuantity) :
  NoDup (selectedNames l) -> NoDup (selectedNames (filter P l)).
Proof.
  unfold selectedNames. induction l as [| si l IH]; cbn [filter map]; intros H.
  - constructor.
  - inversion H as [| x xs Hnot Hrest]; subst.
    destruct (P si); cbn [map]; [constructor |]; auto.
    intros Hin. apply Hnot. apply in_map_iff in Hin.
    destruct Hin as (y & Hy & Hin). apply filter_In in Hin.
    apply in_map_iff. exists y. tauto.
Qed.

(** X26.  The handlers keep the selection well formed: starting from the
    empty selection, after any sequence of additions, removals and
    quantity changes each name is selected once and every quantity is at
    least one. *)
Theorem handlers_keep_the_selection_well_formed :
  wellFormedSelection [] /\
  (forall item prev,
     wellFormedSelection prev -> wellFormedSelection (handleItemAdd item prev)) /\
  (forall item prev,
     wellFormedSelection prev -> wellFormedSelection (handleItemRemove item prev)) /\
  (forall item newQuantity prev,
     wellFormedSelection prev ->
     wellFormedSelection (handleQuantityChange item newQuantity prev)).
Proof.
  assert (Hremove : forall item prev,
            wellFormedSelection prev ->
            wellFormedSelection (handleItemRemove item prev)).
  { intros item prev [Hn Hq]. split.
    - now apply NoDup_selectedNames_filter.
    - apply Forall_forall. intros si Hin. apply filter_In in Hin.
      now apply (proj1 (Forall_forall _ _) Hq). }
  split; [split; constructor | split; [| split; [exact Hremove |]]].
  - intros item prev [Hn Hq]. unfold handleItemAdd.
    destruct (find (sameName item) prev) as [existing |] eqn:E.
    + split.
      * rewrite selectedNames_map; [exact Hn |].
        intros si. now destruct (sameName item si).
      * apply Forall_forall. intros si Hin. apply in_map_iff in Hin.
        destruct Hin as (si' & <- & Hin).
        pose proof (proj1 (Forall_forall _ _) Hq si' Hin) as Hge. cbn beta in Hge.
        destruct (sameName item si'); cbn [quantity]; lia.
    + split.
      * unfold selectedNames. rewrite map_app. cbn [map selected].
        apply NoDup_app; [exact Hn | repeat constructor; intros [] |].
        intros a Ha [<- | []]. now apply find_sameName_None in E.
      * apply Forall_app. split; [exact Hq |].
        repeat constructor. cbn [quantity]. lia.
  - intros item q prev Hwf. unfold handleQuantityChange.
    destruct (Z.leb_spec q 0) as [Hle | Hgt]; [now apply Hremove |].
    destruct Hwf as [Hn Hq]. split.
    + rewrite selectedNames_map; [exact Hn |].
      intros si. now destruct (sameName item si).
    + apply Forall_forall. intros si Hin. apply in_map_iff in Hin.
      destruct Hin as (si' & <- & Hin).
      pose proof (proj1 (Forall_forall _ _) Hq si' Hin) as Hge. cbn beta in Hge.
      destruct (sameName item si'); cbn [quantity]; lia.
Qed.

Lemma itemsTopack_app (l1 l2 : list ItemWithQuantity) :
  itemsTopack (l1 ++ l2) = itemsTopack l1 ++ itemsTopack l2.
Proof. unfold itemsTopack. apply flat_map_app. Qed.

Lemma sameName_false_map (item : Item) (f : ItemWithQuantity -> ItemWithQuantity)
    (l : list ItemWithQuantity) :
  ~ In (name item) (selectedNames l) ->
  map (fun si => if sameName item si then f si else si) l = l.
Proof.
  intros H. rewrite <- (map_id l) at 2. apply map_ext_in.
  intros si Hin. destruct (sameName item si) eqn:E; [exfalso | reflexivity].
  apply H. unfold selectedNames. apply in_map_iff. exists si.
  split; [| exact Hin]. now apply String.eqb_eq.
Qed.

Lemma bump_adds_one (item : Item) (l : list ItemWithQuantity)
    (si : ItemWithQuantity) :
  NoDup (selectedNames l) -> Forall (fun s => 1 <= quantity s) l ->
  In si l -> sameName item si = true ->
  Permutation
    (itemsTopack (map (fun s => if sameName item s
                                then mkSelected (selected s) (quantity s + 1)
                                else s) l))
    (selected si :: itemsTopack l).
Proof.
  induction l as [| a l IH]; intros Hn Hq Hin Hs; [destruct Hin |].
  cbn [selectedNames map] in Hn. inversion Hn as [| x xs Hnot Hrest]; subst.
  inversion Hq as [| y ys Hqa Hql]; subst.
  cbn [map]. unfold itemsTopack at 1 2. cbn [flat_map].
  fold (itemsTopack (map (fun s => if sameName item s
                                   then mkSelected (selected s) (quantity s + 1)
                                   else s) l)).
  fold (itemsTopack l).
  assert (Hname : sameName item si = true -> name (selected si) = name item)
    by (intros H; now apply String.eqb_eq).
  destruct Hin as [<- | Hin].
  - rewrite Hs. cbn [selected quantity].
    rewrite sameName_false_map.
    + replace (Z.to_nat (quantity a + 1)) with (S (Z.to_nat (quantity a))) by lia.
      reflexivity.
    + fold (selectedNames l) in Hnot. now rewrite <- (Hname Hs).
  - destruct (sameName item a) eqn:Ea.
    + exfalso. apply Hnot. apply in_map_iff. exists si. split; [| exact Hin].
      apply String.eqb_eq in Ea. rewrite Ea. now apply Hname.
    + rewrite (IH Hrest Hql Hin Hs). apply Permutation_sym, Permutation_middle.
Qed.

(** X27.  Adding an item adds exactly one copy to the list that is
    packed: a copy of the item itself when its name was not selected, and
    otherwise one more copy of the item already selected under that name
    (whose data are kept). *)
Theorem handleItemAdd_adds_one_copy
    (item : Item) (prev : list ItemWithQuantity) :
  wellFormedSelection prev ->
  exists x,
    name x = name item /\
    Permutation (itemsTopack (handleItemAdd item prev)) (x :: itemsTopack prev) /\
    (~ In (name item) (selectedNames prev) -> x = item) /\
    (forall si, In si prev -> name (selected si) = name item -> x = selected si).
Proof.
  intros [Hn Hq]. unfold handleItemAdd.
  destruct (find (sameName item) prev) as [existing |] eqn:E.
  - pose proof (find_some _ _ E) as [Hin Hs].
    exists (selected existing). split; [now apply String.eqb_eq |].
    split; [now apply bump_adds_one |]. split.
    + intros Hno. exfalso. apply Hno. unfold selectedNames. apply in_map_iff.
      exists existing. split; [now apply String.eqb_eq | exact Hin].
    + intros si Hsi Hname.
      assert (Hsame : forall l a b,
                NoDup (selectedNames l) -> In a l -> In b l ->
                name (selected a) = name (selected b) -> a = b).
      { induction l as [| c l IH]; intros a b Hnd Ha Hb Hab; [destruct Ha |].
        cbn [selectedNames map] in Hnd. inversion Hnd as [| x xs Hnot Hrest]; subst.
        destruct Ha as [<- | Ha], Hb as [<- | Hb]; try reflexivity.
        - exfalso. apply Hnot. apply in_map_iff. exists b. auto.
        - exfalso. apply Hnot. apply in_map_iff. exists a. auto.
        - now apply IH. }
      f_equal. apply (Hsame prev); try assumption.
      apply String.eqb_eq in Hs. congruence.
  - exists item. split; [reflexivity |]. split; [| split; [reflexivity |]].
    + rewrite itemsTopack_app. unfold itemsTopack at 2. cbn.
      apply Permutation_sym, Permutation_cons_append.
    + intros si Hsi Hname. exfalso.
      apply (proj1 (find_sameName_None item prev) E).
      unfold selectedNames. apply in_map_iff. exists si. auto.
Qed.

Lemma handleItemAdd_adds_one_copy_witness :
  exists x,
    name x = name smallRigidItem /\
    Permutation (itemsTopack (handleItemAdd smallRigidItem
                                [mkSelected smallRigidItem 2]))
                (x :: itemsTopack [mkSelected smallRigidItem 2]).
Proof.
  destruct (handleItemAdd_adds_one_copy smallRigidItem
              [mkSelected smallRigidItem 2]) as (x & H1 & H2 & _).
  - split.
    + repeat constructor. intros [].
    + repeat constructor. cbn. lia.
  - exists x. split; assumption.
Defined.

Lemma filter_repeat {A : Type} (P : A -> bool) (x : A) (n : nat) :
  filter P (repeat x n) = if P x then repeat x n else [].
Proof.
  induction n as [| n IH]; cbn [repeat filter]; [now destruct (P x) |].
  rewrite IH. now destruct (P x).
Qed.

Lemma filter_flat_map {A B : Type} (P : B -> bool) (f : A -> list B)
    (l : list A) :
  filter P (flat_map f l) = flat_map (fun a => filter P (f a)) l.
Proof.
  induction l as [| a l IH]; cbn [flat_map]; [reflexivity |].
  now rewrite filter_app, IH.
Qed.

Lemma itemsTopack_remove (item : Item) (prev : list ItemWithQuantity) :
  itemsTopack (handleItemRemove item prev) =
  filter (fun x => negb (namedAs item x)) (itemsTopack prev).
Proof.
  unfold itemsTopack, handleItemRemove. rewrite filter_flat_map.
  induction prev as [| si l IH]; cbn [filter flat_map]; [reflexivity |].
  rewrite filter_repeat. unfold namedAs at 1. fold (sameName item si).
  destruct (sameName item si); cbn [negb flat_map app]; now rewrite IH.
Qed.

Lemma others_unchanged (item : Item) (q : Z) (prev : list ItemWithQuantity) :
  filter (fun x => negb (namedAs item x))
         (itemsTopack (map (fun si => if sameName item si
                                      then mkSelected (selected si) q
                                      else si) prev)) =
  filter (fun x => negb (namedAs item x)) (itemsTopack prev).
Proof.
  unfold itemsTopack. rewrite !filter_flat_map.
  induction prev as [| si l IH]; cbn [map flat_map]; [reflexivity |].
  rewrite IH. f_equal. rewrite !filter_repeat.
  destruct (sameName item si) eqn:E; [| reflexivity].
  cbn [selected]. unfold namedAs. unfold sameName in E. now rewrite E.
Qed.

Lemma copies_after_change (item : Item) (q : Z) (prev : list ItemWithQuantity) :
  NoDup (selectedNames prev) -> In (name item) (selectedNames prev) ->
  List.length
    (filter (namedAs item)
            (itemsTopack (map (fun si => if sameName item si
                                         then mkSelected (selected si) q
                                         else si) prev))) = Z.to_nat q.
Proof.
  unfold itemsTopack. rewrite filter_flat_map.
  induction prev as [| si l IH]; intros Hn Hin; [destruct Hin |].
  cbn [selectedNames map] in Hn, Hin.
  inversion Hn as [| x xs Hnot Hrest]; subst.
  cbn [map flat_map]. rewrite length_app, filter_repeat.
  destruct (sameName item si) eqn:E.
  - cbn [selected quantity]. unfold namedAs at 1. unfold sameName in E.
    rewrite E, repeat_length.
    rewrite sameName_false_map.
    + assert (Hnone : forall l',
                ~ In (name item) (selectedNames l') ->
                flat_map (fun a => filter (namedAs item)
                                     (repeat (selected a) (Z.to_nat (quantity a)))) l'
                = []).
      { induction l' as [| a l' IH']; intros Hno; [reflexivity |].
        cbn [flat_map]. rewrite filter_repeat.
        destruct (namedAs item (selected a)) eqn:Ea.
        - exfalso. apply Hno. left. now apply String.eqb_eq.
        - cbn [app]. apply IH'. intros H. apply Hno. now right. }
      rewrite Hnone; [cbn [List.length]; lia |].
      apply String.eqb_eq in E. fold (selectedNames l) in Hnot. now rewrite <- E.
    + apply String.eqb_eq in E. fold (selectedNames l) in Hnot. now rewrite <- E.
  - unfold namedAs at 1. unfold sameName in E. rewrite E. cbn [List.length Nat.add].
    apply IH; [exact Hrest |].
    destruct Hin as [Hin | Hin]; [| exact Hin].
    rewrite Hin, String.eqb_refl in E. discriminate.
Qed.

(** X28.  Removing an item takes every copy under its name, and nothing
    else, out of the list that is packed.  A quantity change to zero or
    less is a removal; a change to a positive quantity leaves the copies
    under other names as they are, does nothing when the name is not
    selected, and otherwise makes the number of copies under the name
    the new quantity. *)
Theorem removal_and_quantity_change
    (item : Item) (prev : list ItemWithQuantity) :
  itemsTopack (handleItemRemove item prev) =
    filter (fun x => negb (namedAs item x)) (itemsTopack prev) /\
  (forall q, q <= 0 ->
     handleQuantityChange item q prev = handleItemRemove item prev) /\
  (forall q, 0 < q ->
     filter (fun x => negb (namedAs item x))
            (itemsTopack (handleQuantityChange item q prev)) =
       filter (fun x => negb (namedAs item x)) (itemsTopack prev) /\
     (~ In (name item) (selectedNames prev) ->
      handleQuantityChange item q prev = prev) /\
     (NoDup (selectedNames prev) -> In (name item) (selectedNames prev) ->
      List.length (filter (namedAs item)
                          (itemsTopack (handleQuantityChange item q prev))) =
      Z.to_nat q)).
Proof.
  split; [apply itemsTopack_remove | split].
  - intros q Hq. unfold handleQuantityChange.
    now rewrite (proj2 (Z.leb_le q 0) Hq).
  - intros q Hq. unfold handleQuantityChange.
    rewrite (proj2 (Z.leb_gt q 0) Hq).
    split; [apply others_unchanged | split].
    + apply sameName_false_map.
    + apply copies_after_change.
Qed.

Lemma removal_and_quantity_change_witness :
  handleQuantityChange smallRigidItem 0 [mkSelected smallRigidItem 2] =
    handleItemRemove smallRigidItem [mkSelected smallRigidItem 2] /\
  List.length
    (filter (namedAs smallRigidItem)
            (itemsTopack (handleQuantityChange smallRigidItem 3
                            [mkSelected smallRigidItem 2]))) = Z.to_nat 3.
Proof.
  split.
  - apply (removal_and_quantity_change smallRigidItem
             [mkSelected smallRigidItem 2]). lia.
  - apply (removal_and_quantity_change smallRigidItem
             [mkSelected smallRigidItem 2]).
    + lia.
    + repeat constructor. intros [].
    + now left.
Defined.

(** * From the selection to the summary *)

Lemma length_itemsTopack (l : list ItemWithQuantity) :
  Forall (fun si => 1 <= quantity si) l ->
  Z.of_nat (List.length (itemsTopack l)) = totalQuantity l /\
  (l <> [] -> itemsTopack l <> []).
Proof.
  induction 1 as [| si l Hq Hall [IH _]].
  - split; [reflexivity | congruence].
  - unfold itemsTopack. cbn [flat_map totalQuantity fold_right].
    fold (itemsTopack l). fold (totalQuantity l). split.
    + rewrite length_app, repeat_length, Nat2Z.inj_add, IH. lia.
    + intros _ Hnil. apply app_eq_nil in Hnil. destruct Hnil as [Hnil _].
      apply (f_equal (@List.length Item)) in Hnil.
      rewrite repeat_length in Hnil. cbn in Hnil. lia.
Qed.

(** X29.  The effect of [App] does nothing, and so leaves the result of
    the hook as it was, while no vehicle is selected or the selection is
    empty.  With a vehicle and a well-formed selection that is not empty
    it packs every copy: the hook holds the result of [packItems] on the
    expanded selection and no error, and the summary counts as many
    items, packed and unpacked together, as the quantities add up to. *)
Theorem autoRunPacking_packs_every_copy
    (selectedItems : list ItemWithQuantity) (st : HookState) :
  autoRunPacking None selectedItems st = st /\
  (forall vehicle, autoRunPacking vehicle [] st = st) /\
  (wellFormedSelection selectedItems -> selectedItems <> [] ->
   forall v,
     autoRunPacking (Some v) selectedItems st =
       mkHook (Some (packItems v (itemsTopack selectedItems))) None /\
     exists s,
       summary (autoRunPacking (Some v) selectedItems st) = Some s /\
       Z.of_nat (totalItems s) = totalQuantity selectedItems /\
       (packedCount s + unpackedCount s)%nat = totalItems s).
Proof.
  split; [reflexivity | split].
  - now intros [v |].
  - intros [_ Hq] Hne v.
    destruct (length_itemsTopack _ Hq) as [Hlen Hnonempty].
    specialize (Hnonempty Hne).
    assert (Hrun : autoRunPacking (Some v) selectedItems st =
                   mkHook (Some (packItems v (itemsTopack selectedItems))) None).
    { unfold autoRunPacking, packItemsInVehicle.
      destruct selectedItems as [| si l]; [congruence |].
      cbn [List.length Nat.ltb Nat.leb].
      destruct (itemsTopack (si :: l)) as [| x xs] eqn:E; [congruence |].
      reflexivity. }
    split; [exact Hrun |]. rewrite Hrun. unfold summary. cbn [packingResult].
    eexists. split; [reflexivity |].
    cbn [getPackingSummary totalItems packedCount unpackedCount].
    split; [| reflexivity].
    rewrite <- Hlen. f_equal.
    rewrite <- (Permutation_length (packItems_Permutation v (itemsTopack selectedItems))).
    now rewrite length_app, length_map.
Qed.

Lemma autoRunPacking_packs_every_copy_witness :
  exists s,
    summary (autoRunPacking (Some mockVehicle)
               [mkSelected smallRigidItem 2; mkSelected flexibleItem 1]
               (mkHook None None)) = Some s /\
    Z.of_nat (totalItems s) = 3.
Proof.
  destruct (proj2 (proj2 (autoRunPacking_packs_every_copy
              [mkSelected smallRigidItem 2; mkSelected flexibleItem 1]
              (mkHook None None)))) with (v := mockVehicle)
    as (_ & s & Hs & Ht & _).
  - split.
    + repeat constructor; cbn; intuition discriminate.
    + repeat constructor; cbn; lia.
  - discriminate.
  - exists s. split; [exact Hs | exact Ht].
Defined.

(** * Further instances *)

Lemma getPackingSummary_accounts_for_every_item_witness :
  In smallRigidItem [smallRigidItem].
Proof.
  apply (getPackingSummary_accounts_for_every_item (plainBoot 100 100 100)
           [smallRigidItem]).
  vm_compute. left. reflexivity.
Defined.

Lemma validateItem_on_typed_items_witness :
  exists r, validateItem (ofItem smallRigidItem) = Some r /\ isValid r = true.
Proof.
  destruct (validateItem_on_typed_items smallRigidItem) as (_ & r & Hr & Hiff).
  exists r. split; [exact Hr |]. apply Hiff.
  unfold acceptableItem, validItem, positiveSides, compressibilityInRange.
  cbn. repeat split; try lia; discriminate.
Defined.

Lemma validateItem_reports_each_field_once_witness :
  (List.length (itemErrors emptyObject) <= 12)%nat.
Proof.
  apply (proj2 (validateItem_reports_each_field_once emptyObject)
           (mkValidation (List.length (itemErrors emptyObject) =? 0)%nat
                         (itemErrors emptyObject))).
  reflexivity.
Defined.

Lemma validateItems_collects_the_errors_of_every_item_witness :
  validateItems (JsString "items") =
    Some (mkValidation false [mkError "items" "items must be an array" None]) /\
  accepted (ofItem smallRigidItem).
Proof.
  split.
  - apply validateItems_collects_the_errors_of_every_item. discriminate.
  - apply (proj2 validateItems_collects_the_errors_of_every_item
             [ofItem smallRigidItem] ) with (r := mkValidation true []).
    + vm_compute. reflexivity.
    + reflexivity.
    + now left.
Defined.

Lemma loadData_keeps_exactly_the_valid_items_witness :
  validItems [ofItem smallRigidItem; emptyObject]
             (mkValidation false (map (indexedError 1) (itemErrors emptyObject))) =
  filter acceptedb [ofItem smallRigidItem; emptyObject].
Proof.
  apply (loadData_keeps_exactly_the_valid_items
           [ofItem smallRigidItem; emptyObject]
           (mkValidation false (map (indexedError 1) (itemErrors emptyObject)))).
  vm_compute. reflexivity.
Defined.

Lemma handlers_keep_the_selection_well_formed_witness :
  wellFormedSelection (handleItemAdd smallRigidItem []).
Proof.
  apply handlers_keep_the_selection_well_formed.
  apply handlers_keep_the_selection_well_formed.
Defined.

(** [NaN] passes the range test of the weight. *)
Example nan_weight_is_accepted :
  validateItem
    (JsObject [("name", JsString "Box");
               ("dimensions", ofDimensions (Dim.mk 400 300 200));
               ("weight", JsNum NaN);
               ("rigidity", JsString "rigid");
               ("category", JsString "luggage");
               ("cabinSuitable", JsBoolean false);
               ("compressibility", jsInteger 0);
               ("stackable", JsBoolean true);
               ("orientationConstraints", JsString "any");
               ("customItem", JsBoolean false)]%string) =
  Some (mkValidation true []).
Proof. vm_compute. reflexivity. Qed.

(** A string for [dimensions] is read by its length: the error is about
    [width] and [height] only. *)
Example string_dimensions_have_a_length :
  map field (dimensionErrors (JsString "big")) =
  ["dimensions.width"; "dimensions.height"]%string.
Proof. vm_compute. reflexivity. Qed.

(** The filter of [loadData] compares prefixes of the error fields:
    with eleven values of which only the last (index 10) is invalid, the
    item at index 1 is kept. *)
Example prefix_test_tells_index_1_from_index_10 :
  option_map (validItems elevenLoaded) (validateItems (JsArray elevenLoaded)) =
  Some (ofItem smallRigidItem :: ofItem flexibleItem ::
        repeat (ofItem smallRigidItem) 8).
Proof. vm_compute. reflexivity. Qed.

(** While the selection is empty the effect does not run: the last
    result stays. *)
Example removing_the_last_item_keeps_the_old_result :
  autoRunPacking (Some mockVehicle)
    (handleItemRemove smallRigidItem [mkSelected smallRigidItem 1])
    (mkHook (Some (packItems mockVehicle [smallRigidItem])) None) =
  mkHook (Some (packItems mockVehicle [smallRigidItem])) None.
Proof. reflexivity. Qed.

(** At 30 percent the side 165 scales to 115.5: both 115, which the
    source yields, and 116 are nearest. *)
Example a_half_may_go_either_way :
  nearestScaled 30 (Dim.mk 165 165 165) (Dim.mk 115 115 115) /\
  nearestScaled 30 (Dim.mk 165 165 165) (Dim.mk 116 116 116) /\
  compressDimensions (Dim.mk 165 165 165) (1 - inject_Z 30 / 100) =
    Dim.mk 116 116 116.
Proof.
  unfold nearestScaled, isNearestScale. cbn [Dim.length Dim.width Dim.height].
  repeat split; try lia.
Qed.
